(** * OpenCensus (Node.js) tracing core: spans, root/child composition,
      and the exporter buffer.

    A shallow embedding of [trace/model/types.ts], [trace/model/base-span.ts]
    and [trace/model/root-span.ts], and of the translation functions of the
    Stackdriver, Instana and Zpages exporters, followed by the properties
    of the span life cycle and of the exporters.

    Conventions of the embedding.
    - JavaScript objects with identity (spans) live in a heap indexed by
      addresses; a listener is a reference, compared with [===].
    - [new Date().getTime()] reads a clock supplied from outside; random
      identifiers ([randomSpanId()], [uuid.v4()]) are supplied from outside.
    - A JavaScript number that holds a time stamp, a status code or the
      value of an attribute is an integer ([Z]).
    - An optional field, an absent key, [undefined] and [null] are [None].
    - A call can throw (a receiver that is no object, a call stack that is
      exhausted); what the call did before stays done. *)

From Stdlib Require Import ZArith Lia Ascii String.
From stdpp Require Import base option list gmap strings pretty.

Local Open Scope Z_scope.
Local Open Scope string_scope.
Local Open Scope list_scope.

(** ** trace/model/types.ts *)

(** [enum SpanKind { SPAN_KIND_UNSPECIFIED = 0, SERVER = 1, CLIENT = 2 }] *)
Inductive SpanKind : Type :=
| SPAN_KIND_UNSPECIFIED
| SERVER
| CLIENT.

Definition SpanKind_value (k : SpanKind) : Z :=
  match k with
  | SPAN_KIND_UNSPECIFIED => 0
  | SERVER => 1
  | CLIENT => 2
  end.

#[global] Instance SpanKind_eq_dec : EqDecision SpanKind.
Proof. solve_decision. Defined.

(** [string|number|boolean] *)
Inductive AttributeValue : Type :=
| AString (s : string)
| ANumber (n : Z)
| ABoolean (b : bool).

(** [interface Attributes { [attributeKey: string]: string|number|boolean; }] *)
Abbreviation Attributes := (gmap string AttributeValue).

Module Link.
Record t : Type := mk {
  traceId : string;
  spanId : string;
  type : string;
  attributes : option Attributes
}.
End Link.

(** [Annotation|MessageEvent], the element type of [timeEvents]. *)
Inductive TimeEvent : Type :=
| Annotation (description : string) (timestamp : Z)
             (attributes : option Attributes)
| MessageEvent (type : string) (id : string).

Record Status : Type := mkStatus {
  code : Z;
  message : string
}.

Module SpanContext.
Record t : Type := mk {
  traceId : string;
  spanId : string;
  options : option Z
}.
End SpanContext.

(** [interface SpanOptions]. [name] is declared as required, but the
    constructor of a root span tests it for truthiness, so a caller that
    leaves it out is modelled by [None]. *)
Module SpanOptions.
Record t : Type := mk {
  name : option string;
  spanContext : option SpanContext.t;
  kind : option SpanKind
}.
End SpanOptions.

(** [interface SpanData]. [kind] is [None] when the field holds [null]. *)
Record SpanData : Type := mkSpanData {
  traceId : string;
  spanId : string;
  parentSpanId : string;
  name : string;
  kind : option SpanKind;
  startTime : Z;
  endTime : Z;
  attributes : Attributes;
  stackTrace : unit;
  timeEvents : list TimeEvent;
  links : list Link.t;
  status : option Status;
  sameProcessAsParentSpan : option bool
}.

(** [Partial<SpanData>]: every key may be absent. *)
Module PartialSpanData.
Record t : Type := mk {
  traceId : option string;
  spanId : option string;
  parentSpanId : option string;
  name : option string;
  kind : option SpanKind;
  startTime : option Z;
  endTime : option Z;
  attributes : option Attributes;
  stackTrace : option unit;
  timeEvents : option (list TimeEvent);
  links : option (list Link.t);
  status : option Status;
  sameProcessAsParentSpan : option bool
}.

Definition empty : t :=
  mk None None None None None None None None None None None None None.
End PartialSpanData.

(** Field updates of a span record ([this.data.f = v]). *)
Definition set_traceId (v : string) (d : SpanData) : SpanData :=
  mkSpanData v (spanId d) (parentSpanId d) (name d) (kind d) (startTime d)
    (endTime d) (attributes d) (stackTrace d) (timeEvents d) (links d)
    (status d) (sameProcessAsParentSpan d).

Definition set_parentSpanId (v : string) (d : SpanData) : SpanData :=
  mkSpanData (traceId d) (spanId d) v (name d) (kind d) (startTime d)
    (endTime d) (attributes d) (stackTrace d) (timeEvents d) (links d)
    (status d) (sameProcessAsParentSpan d).

Definition set_name (v : string) (d : SpanData) : SpanData :=
  mkSpanData (traceId d) (spanId d) (parentSpanId d) v (kind d) (startTime d)
    (endTime d) (attributes d) (stackTrace d) (timeEvents d) (links d)
    (status d) (sameProcessAsParentSpan d).

Definition set_kind (v : option SpanKind) (d : SpanData) : SpanData :=
  mkSpanData (traceId d) (spanId d) (parentSpanId d) (name d) v (startTime d)
    (endTime d) (attributes d) (stackTrace d) (timeEvents d) (links d)
    (status d) (sameProcessAsParentSpan d).

Definition set_startTime (v : Z) (d : SpanData) : SpanData :=
  mkSpanData (traceId d) (spanId d) (parentSpanId d) (name d) (kind d) v
    (endTime d) (attributes d) (stackTrace d) (timeEvents d) (links d)
    (status d) (sameProcessAsParentSpan d).

Definition set_endTime (v : Z) (d : SpanData) : SpanData :=
  mkSpanData (traceId d) (spanId d) (parentSpanId d) (name d) (kind d)
    (startTime d) v (attributes d) (stackTrace d) (timeEvents d) (links d)
    (status d) (sameProcessAsParentSpan d).

Definition set_attributes (v : Attributes) (d : SpanData) : SpanData :=
  mkSpanData (traceId d) (spanId d) (parentSpanId d) (name d) (kind d)
    (startTime d) (endTime d) v (stackTrace d) (timeEvents d) (links d)
    (status d) (sameProcessAsParentSpan d).

Definition set_timeEvents (v : list TimeEvent) (d : SpanData) : SpanData :=
  mkSpanData (traceId d) (spanId d) (parentSpanId d) (name d) (kind d)
    (startTime d) (endTime d) (attributes d) (stackTrace d) v (links d)
    (status d) (sameProcessAsParentSpan d).

Definition set_links (v : list Link.t) (d : SpanData) : SpanData :=
  mkSpanData (traceId d) (spanId d) (parentSpanId d) (name d) (kind d)
    (startTime d) (endTime d) (attributes d) (stackTrace d) (timeEvents d) v
    (status d) (sameProcessAsParentSpan d).

Definition set_status (v : option Status) (d : SpanData) : SpanData :=
  mkSpanData (traceId d) (spanId d) (parentSpanId d) (name d) (kind d)
    (startTime d) (endTime d) (attributes d) (stackTrace d) (timeEvents d)
    (links d) v (sameProcessAsParentSpan d).

Definition set_sameProcessAsParentSpan (v : option bool) (d : SpanData)
  : SpanData :=
  mkSpanData (traceId d) (spanId d) (parentSpanId d) (name d) (kind d)
    (startTime d) (endTime d) (attributes d) (stackTrace d) (timeEvents d)
    (links d) (status d) v.

(** ** Objects, references and listeners *)

(** The address of a span object. *)
Abbreviation addr := nat.

(** A [SpanEventListener] reference. The code distinguishes two sorts of
    listener objects: a root span, whose hooks forward the event to its own
    listeners, and any other object (a tracer, an exporter, a test spy),
    whose hooks are outside the span model: a call of such a hook is
    recorded, and the hook is taken to return without calling back into
    the spans. *)
Inductive Listener : Type :=
| External (id : nat)
| Relay (root : addr).

#[global] Instance Listener_eq_dec : EqDecision Listener.
Proof. solve_decision. Defined.

(** [l === listener] on listener references. *)
Definition same_ref (l listener : Listener) : bool :=
  bool_decide (l = listener).

(** ** trace/model/base-span.ts *)

Definition UNINITIALIZED_DATE : Z := 0.

(** [createSpanData(base)]: [Object.assign] of [base] over the defaults. *)
Definition createSpanData (base : PartialSpanData.t) : SpanData :=
  {| traceId := default "" (PartialSpanData.traceId base);
     spanId := default "" (PartialSpanData.spanId base);
     parentSpanId := default "" (PartialSpanData.parentSpanId base);
     name := default "" (PartialSpanData.name base);
     kind := Some (default SPAN_KIND_UNSPECIFIED (PartialSpanData.kind base));
     startTime := default UNINITIALIZED_DATE (PartialSpanData.startTime base);
     endTime := default UNINITIALIZED_DATE (PartialSpanData.endTime base);
     attributes := default ∅ (PartialSpanData.attributes base);
     stackTrace := default tt (PartialSpanData.stackTrace base);
     timeEvents := default [] (PartialSpanData.timeEvents base);
     links := default [] (PartialSpanData.links base);
     status := PartialSpanData.status base;
     sameProcessAsParentSpan := PartialSpanData.sameProcessAsParentSpan base
  |}.

(** The fields of [abstract class BaseSpan] (the logger apart). *)
Record BaseSpan : Type := mkBaseSpan {
  data : SpanData;
  truncated : bool;
  listeners : list Listener
}.

Definition with_data (f : SpanData → SpanData) (s : BaseSpan) : BaseSpan :=
  mkBaseSpan (f (data s)) (truncated s) (listeners s).

Definition with_listeners (ls : list Listener) (s : BaseSpan) : BaseSpan :=
  mkBaseSpan (data s) (truncated s) ls.

Definition with_truncated (t : bool) (s : BaseSpan) : BaseSpan :=
  mkBaseSpan (data s) t (listeners s).

(** [Object.assign({spanId: randomSpanId()}, spanData)] *)
Definition assign_spanId (rnd : string) (spanData : PartialSpanData.t)
  : PartialSpanData.t :=
  PartialSpanData.mk
    (PartialSpanData.traceId spanData)
    (Some (default rnd (PartialSpanData.spanId spanData)))
    (PartialSpanData.parentSpanId spanData)
    (PartialSpanData.name spanData)
    (PartialSpanData.kind spanData)
    (PartialSpanData.startTime spanData)
    (PartialSpanData.endTime spanData)
    (PartialSpanData.attributes spanData)
    (PartialSpanData.stackTrace spanData)
    (PartialSpanData.timeEvents spanData)
    (PartialSpanData.links spanData)
    (PartialSpanData.status spanData)
    (PartialSpanData.sameProcessAsParentSpan spanData).

(** [constructor(logger, spanData = {})]; [rnd] is the value that
    [randomSpanId()] returns. *)
Definition BaseSpan_new (rnd : string) (spanData : option PartialSpanData.t)
  : BaseSpan :=
  {| data := createSpanData
               (assign_spanId rnd (default PartialSpanData.empty spanData));
     truncated := false;
     listeners := [] |}.

(** [get started()] and [get ended()] *)
Definition started (s : BaseSpan) : bool :=
  negb (Z.eqb (startTime (data s)) UNINITIALIZED_DATE).

Definition ended (s : BaseSpan) : bool :=
  negb (Z.eqb (endTime (data s)) UNINITIALIZED_DATE).

Definition registerSpanEventListener (listener : Listener) (s : BaseSpan)
  : BaseSpan :=
  with_listeners (listeners s ++ [listener]) s.

(** [this.listeners = this.listeners.filter(l => l === listener)] *)
Definition unregisterSpanEventListener (listener : Listener) (s : BaseSpan)
  : BaseSpan :=
  with_listeners
    (List.filter (λ l, same_ref l listener) (listeners s)) s.

Definition getSpanContext (s : BaseSpan) : SpanContext.t :=
  SpanContext.mk (traceId (data s)) (spanId (data s)) (Some 1).

Definition addAttribute (key : string) (value : AttributeValue) (s : BaseSpan)
  : BaseSpan :=
  with_data (λ d, set_attributes (<[key := value]> (attributes d)) d) s.

Definition addAnnotation (description : string) (timestamp : Z)
    (attrs : option Attributes) (s : BaseSpan) : BaseSpan :=
  with_data
    (λ d, set_timeEvents
            (timeEvents d ++ [Annotation description timestamp attrs]) d) s.

Definition addLink (trace_id span_id type : string)
    (attrs : option Attributes) (s : BaseSpan) : BaseSpan :=
  with_data
    (λ d, set_links (links d ++ [Link.mk trace_id span_id type attrs]) d) s.

Definition addMessageEvent (type id : string) (s : BaseSpan) : BaseSpan :=
  with_data
    (λ d, set_timeEvents (timeEvents d ++ [MessageEvent type id]) d) s.

(** [setStatus(code, message = '')] *)
Definition setStatus (c : Z) (msg : option string) (s : BaseSpan)
  : BaseSpan :=
  with_data (λ d, set_status (Some (mkStatus c (default "" msg))) d) s.

(** ** trace/model/root-span.ts: construction *)

(** A span object: a root span owns the list of its children. Every other
    subclass of [BaseSpan] ([ChildSpan], which overrides nothing) has the
    base fields only. *)
Inductive Span : Type :=
| RootSpan (b : BaseSpan) (spans : list addr)
| ChildSpan (b : BaseSpan).

Definition base (o : Span) : BaseSpan :=
  match o with
  | RootSpan b _ => b
  | ChildSpan b => b
  end.

Definition with_base (f : BaseSpan → BaseSpan) (o : Span) : Span :=
  match o with
  | RootSpan b kids => RootSpan (f b) kids
  | ChildSpan b => ChildSpan (f b)
  end.

(** Truthiness of a string and of an optional enum value. *)
Definition truthy_string (s : string) : bool :=
  negb (String.eqb s "").

Definition truthy_kind (k : option SpanKind) : bool :=
  match k with
  | Some k => negb (Z.eqb (SpanKind_value k) 0)
  | None => false
  end.

(** [s.split('-').join('')] *)
Fixpoint split_join_dash (s : string) : string :=
  match s with
  | EmptyString => EmptyString
  | String c r =>
      if Ascii.eqb c "-"%char then split_join_dash r
      else String c (split_join_dash r)
  end.

(** [new RootSpan(logger, options?)]; [rnd] is what [randomSpanId()] returns
    and [uuid] what [uuid.v4()] returns. *)
Definition RootSpan_new (rnd uuid : string) (options : option SpanOptions.t)
  : Span :=
  let s := BaseSpan_new rnd None in
  let ctx := options ≫= SpanOptions.spanContext in
  let s :=
    with_data
      (set_traceId
         (match ctx with
          | Some c =>
              if truthy_string (SpanContext.traceId c)
              then SpanContext.traceId c
              else split_join_dash uuid
          | None => split_join_dash uuid
          end)) s in
  let s :=
    with_data
      (set_name
         (match options ≫= SpanOptions.name with
          | Some n => if truthy_string n then n else "undefined"
          | None => "undefined"
          end)) s in
  let s :=
    match ctx with
    | Some c =>
        with_data
          (set_parentSpanId
             (if truthy_string (SpanContext.spanId c)
              then SpanContext.spanId c else "")) s
    | None => s
    end in
  let s :=
    with_data
      (set_kind
         (match options with
          | Some o =>
              if truthy_kind (SpanOptions.kind o) then SpanOptions.kind o
              else None
          | None => None
          end)) s in
  let s := with_data (set_sameProcessAsParentSpan (Some false)) s in
  RootSpan s [].

(** [new ChildSpan(logger, spanData?)] *)
Definition ChildSpan_new (rnd : string) (spanData : option PartialSpanData.t)
  : Span :=
  ChildSpan
    (with_data (set_sameProcessAsParentSpan (Some true))
       (BaseSpan_new rnd spanData)).

(** ** Execution model

    A method call runs against a world: the heap of span objects, the
    trace of everything the call hands to its environment (hooks of
    listeners, messages to the logger), and the number of clock readings
    and of random identifiers consumed so far. *)

Inductive Hook : Type :=
| OnStartSpan
| OnEndSpan.

Inductive Level : Type :=
| WARN
| DEBUG.

(** The messages the spans send to their logger. The rendering of the span
    inside the message ([toString]) is not modelled. *)
Inductive Message : Type :=
| StartAlreadyStarted
| EndAlreadyEnded
| EndNotStarted
| ChildOnEndedRoot
| ChildOnUnstartedRoot
| Truncating.

(** [Invoke caller depth l hook d]: [caller] runs [l.hook(d)]; [depth] is 0
    for a call made by [start()] or [end()] of the span [caller], and [n+1]
    for a call made by the root span [caller] while it forwards an event
    that it received at depth [n].
    [Log caller lvl msg]: [caller] runs [this.logger.lvl(msg)]. *)
Inductive Event : Type :=
| Invoke (caller : addr) (depth : nat) (target : Listener) (hook : Hook)
         (d : SpanData)
| Log (caller : addr) (lvl : Level) (msg : Message).

Record World : Type := mkWorld {
  heap : gmap addr Span;
  trace : list Event;
  reads : nat;
  draws : nat
}.

(** A computation returns a value, or throws ([None]); in both cases the
    world keeps what was done until then. *)
Definition M (A : Type) : Type := World → option A * World.

Definition ret {A} (a : A) : M A := λ w, (Some a, w).

Definition throw {A} : M A := λ w, (None, w).

Definition bind {A B} (m : M A) (k : A → M B) : M B :=
  λ w, match m w with
       | (Some a, w') => k a w'
       | (None, w') => (None, w')
       end.

Notation "'let*' x ':=' m 'in' k" := (bind m (λ x, k))
  (at level 10, x name, m at level 100, k at level 200).

Definition set_heap (h : gmap addr Span) (w : World) : World :=
  mkWorld h (trace w) (reads w) (draws w).

Definition emit (evs : list Event) : M unit :=
  λ w, (Some tt, mkWorld (heap w) (trace w ++ evs) (reads w) (draws w)).

Definition log (a : addr) (lvl : Level) (msg : Message) : M unit :=
  emit [Log a lvl msg].

(** Dereference; a receiver that is no object throws (TypeError). *)
Definition get (a : addr) : M Span :=
  λ w, (heap w !! a, w).

Definition put (a : addr) (o : Span) : M unit :=
  λ w, (Some tt, set_heap (<[a := o]> (heap w)) w).

Definition modify (a : addr) (f : Span → Span) : M unit :=
  let* o := get a in put a (f o).

(** [new C(...)]: the object gets an address that is not in use. *)
Definition alloc (o : Span) : M addr :=
  λ w, let a := fresh (dom (heap w)) in
       (Some a, set_heap (<[a := o]> (heap w)) w).

(** A loop that runs its body on the elements in order and stops at the first
    exception. *)
Fixpoint forM {A} (xs : list A) (body : A → M unit) : M unit :=
  match xs with
  | [] => ret tt
  | x :: xs' => let* _ := body x in forM xs' body
  end.

(** [xs.forEach(f)] for a body that only produces events; the flag tells
    whether the loop completed without an exception. *)
Fixpoint forEach {A} (f : A → list Event * bool) (xs : list A)
  : list Event * bool :=
  match xs with
  | [] => ([], true)
  | x :: xs' =>
      let '(e, ok) := f x in
      if ok then let '(es, ok') := forEach f xs' in (e ++ es, ok')
      else (e, false)
  end.

(** [l.onStartSpan(d)] / [l.onEndSpan(d)] called by [caller].
    - The hook of an external listener is recorded.
    - The hook of a root span is [RootSpan.onStartSpan] / [onEndSpan]:
      [this.listeners.forEach(l => l.onStartSpan(data))].
    - Anything else has no such hook, and the call throws.
    [fuel] bounds the nesting of relays (the call stack); a call that
    would exceed it throws. *)
Fixpoint invoke (fuel : nat) (h : gmap addr Span) (caller : addr)
    (depth : nat) (hook : Hook) (d : SpanData) (l : Listener)
  : list Event * bool :=
  match l with
  | External _ => ([Invoke caller depth l hook d], true)
  | Relay r =>
      match h !! r with
      | Some (RootSpan b _) =>
          match fuel with
          | O => ([], false)
          | S n =>
              let '(es, ok) :=
                forEach (invoke n h r (S depth) hook d) (listeners b) in
              (Invoke caller depth l hook d :: es, ok)
          end
      | _ => ([], false)
      end
  end.

Section Methods.

(** The environment of a run: the successive readings of the clock, the
    successive random span identifiers, and the depth of the call stack
    left for relayed events. *)
Variable clock : nat → Z.
Variable randomSpanId : nat → string.
Variable stack : nat.

(** [new Date().getTime()] *)
Definition now : M Z :=
  λ w, (Some (clock (reads w)),
        mkWorld (heap w) (trace w) (S (reads w)) (draws w)).

(** [randomSpanId()], and [uuid.v4()] where [randomSpanId] is the
    generator of the latter. *)
Definition draw : M string :=
  λ w, (Some (randomSpanId (draws w)),
        mkWorld (heap w) (trace w) (reads w) (S (draws w))).

(** [this.listeners.forEach(l => l.hook(this.data))] *)
Definition notify (a : addr) (hook : Hook) : M unit :=
  let* o := get a in
  λ w, let '(evs, ok) :=
         forEach (invoke stack (heap w) a 0 hook (data (base o)))
           (listeners (base o)) in
       ((if ok then Some tt else None),
        mkWorld (heap w) (trace w ++ evs) (reads w) (draws w)).

(** [BaseSpan.start()] *)
Definition BaseSpan_start (a : addr) : M unit :=
  let* o := get a in
  if started (base o) then log a WARN StartAlreadyStarted
  else
    let* t := now in
    let* _ := modify a (with_base (with_data (set_startTime t))) in
    notify a OnStartSpan.

(** [BaseSpan.end()] *)
Definition BaseSpan_end (a : addr) : M unit :=
  let* o := get a in
  if ended (base o) then log a WARN EndAlreadyEnded
  else if negb (started (base o)) then log a WARN EndNotStarted
  else
    let* t := now in
    let* _ := modify a (with_base (with_data (set_endTime t))) in
    let* _ := notify a OnEndSpan in
    modify a (with_base (with_listeners [])).

(** [BaseSpan.truncate()]; [end_] is the implementation of [this.end()]
    that the class of the receiver selects. *)
Definition truncate_with (end_ : addr → M unit) (a : addr) : M unit :=
  let* _ := modify a (with_base (with_truncated true)) in
  let* _ := end_ a in
  log a DEBUG Truncating.

(** The body of the loop [for (const span of this.spans)] of
    [RootSpan.end()]. The elements of [this.spans] are [ChildSpan]s, whose
    [end] is the one of [BaseSpan]; the type of the list excludes an
    element of another class, and the model throws on one. *)
Definition truncate_open_child (c : addr) : M unit :=
  let* k := get c in
  match k with
  | ChildSpan s =>
      if negb (ended s) && started s
      then truncate_with BaseSpan_end c
      else ret tt
  | RootSpan _ _ => throw
  end.

(** [RootSpan.end()] *)
Definition RootSpan_end (r : addr) : M unit :=
  let* o := get r in
  match o with
  | RootSpan _ kids =>
      let* _ := forM kids truncate_open_child in
      BaseSpan_end r
  | ChildSpan _ => throw
  end.

(** [span.end()] and [span.truncate()] with the method resolved by the
    class of the object. *)
Definition end_ (a : addr) : M unit :=
  let* o := get a in
  match o with
  | RootSpan _ _ => RootSpan_end a
  | ChildSpan _ => BaseSpan_end a
  end.

Definition truncate (a : addr) : M unit := truncate_with end_ a.

(** [RootSpan.startChildSpan(name, kind = SpanKind.CLIENT)]; the result
    [None] is [null]. *)
Definition startChildSpan (r : addr) (nm : string) (k : option SpanKind)
  : M (option addr) :=
  let* o := get r in
  match o with
  | RootSpan b _ =>
      if ended b then
        let* _ := log r WARN ChildOnEndedRoot in ret None
      else if negb (started b) then
        let* _ := log r WARN ChildOnUnstartedRoot in ret None
      else
        let* rnd := draw in
        let* c :=
          alloc (ChildSpan_new rnd
                   (Some (PartialSpanData.mk
                            (Some (traceId (data b)))
                            None
                            (Some (spanId (data b)))
                            (Some nm)
                            (Some (default CLIENT k))
                            None None None None None None None None))) in
        let* _ :=
          modify c (with_base (registerSpanEventListener (Relay r))) in
        let* _ := BaseSpan_start c in
        let* _ :=
          modify r (λ o, match o with
                         | RootSpan b kids => RootSpan b (kids ++ [c])
                         | ChildSpan b => ChildSpan b
                         end) in
        ret (Some c)
  | ChildSpan _ => throw
  end.

End Methods.

(** ** exporters/exporter-buffer.ts

    The buffer is used by the exporters and exercised by
    [test-exporter-buffer.ts]; its own source file is not part of the
    sources at hand. *)

Module ExporterBuffer.

(** Modelled from the spec: the state of [ExporterBuffer]
    ([exporter-buffer.ts] is missing). Section 4.5 names the configuration
    ([bufferSize], [bufferTimeout]), the internal queue and the pending
    flush timer; [published] records the batches handed to the exporter's
    [publish], oldest first. *)
Record t : Type := mk {
  bufferSize : nat;
  bufferTimeout : Z;
  queue : list SpanData;
  timer : bool;
  published : list (list SpanData)
}.

(** Modelled from the spec: [new ExporterBuffer(exporter, config)], with an
    empty queue and no timer. *)
Definition create (size : nat) (timeout : Z) : t :=
  mk size timeout [] false [].

(** Modelled from the spec: [setBufferSize(n)] returns the buffer. *)
Definition setBufferSize (n : nat) (b : t) : t :=
  mk n (bufferTimeout b) (queue b) (timer b) (published b).

(** Modelled from the spec: [getBufferSize()], as the test calls it. *)
Definition getBufferSize (b : t) : nat := bufferSize b.

(** Modelled from the spec: [getQueue()], as the test calls it. *)
Definition getQueue (b : t) : list SpanData := queue b.

(** Modelled from the spec: a flush publishes the full queue, then clears
    it and cancels any pending timer. *)
Definition flush (b : t) : t :=
  mk (bufferSize b) (bufferTimeout b) [] false (published b ++ [queue b]).

(** Modelled from the spec: [addToBuffer(record)] appends the record; if
    the size trigger holds it flushes at once; else, if no timer is
    pending, it starts one; a pending timer is not reset. The comparison
    of the size trigger is the parameter [trigger length bufferSize]. *)
Definition addToBuffer_with (trigger : nat → nat → bool) (record : SpanData)
    (b : t) : t :=
  let b1 :=
    mk (bufferSize b) (bufferTimeout b) (queue b ++ [record]) (timer b)
       (published b) in
  if trigger (length (queue b1)) (bufferSize b1) then flush b1
  else if timer b1 then b1
  else mk (bufferSize b1) (bufferTimeout b1) (queue b1) true (published b1).

(** Modelled from the spec: the size trigger in the words of section 4.5,
    "if queue length reaches bufferSize". *)
Definition reaches (len size : nat) : bool := (size <=? len)%nat.

(** Modelled from the spec: [addToBuffer] read to the letter of section
    4.5. *)
Definition addToBuffer_literal : SpanData → t → t :=
  addToBuffer_with reaches.

(** Modelled from the spec: the size trigger as the repository's test fixes
    it. [test-exporter-buffer.ts], "should force flush", adds
    [DEFAULT_BUFFER_SIZE] records and asserts
    [buffer.getQueue().length === buffer.getBufferSize()], then adds one more
    and asserts that the queue is empty: the flush fires when the length
    of the queue exceeds [bufferSize]. *)
Definition exceeds (len size : nat) : bool := (size <? len)%nat.

(** Modelled from the spec: [addToBuffer], with the size trigger that the
    test fixes. *)
Definition addToBuffer : SpanData → t → t :=
  addToBuffer_with exceeds.

(** Modelled from the spec: when the timer fires, whatever is queued is
    flushed and the timer state cleared. *)
Definition onTimeout (b : t) : t :=
  if timer b then flush b else b.

(** Modelled from the spec: the loop of the test,
    [for (const r of records) buffer.addToBuffer(r)]. *)
Definition addAll (add : SpanData → t → t) (records : list SpanData) (b : t)
  : t :=
  fold_left (λ b r, add r b) records b.

End ExporterBuffer.

(** The repository's test "should force flush", run on both readings of the
    size trigger with three arbitrary records and a fourth one. *)
Definition force_flush_test (add : SpanData → ExporterBuffer.t →
                                   ExporterBuffer.t)
    (r1 r2 r3 r4 : SpanData) : bool :=
  let buffer := ExporterBuffer.create 3 2000 in
  let buffer := ExporterBuffer.addAll add [r1; r2; r3] buffer in
  let first :=
    Nat.eqb (length (ExporterBuffer.getQueue buffer))
            (ExporterBuffer.getBufferSize buffer) in
  let buffer := add r4 buffer in
  first && Nat.eqb (length (ExporterBuffer.getQueue buffer)) 0.

(** ** Programs over the span interface *)

(** The calls a user of the span classes can make. *)
Inductive Op : Type :=
| NewRootSpan (options : option SpanOptions.t)
| NewChildSpan (spanData : option PartialSpanData.t)
| Start (a : addr)
| End (a : addr)
| Truncate (a : addr)
| StartChildSpan (r : addr) (nm : string) (k : option SpanKind)
| RegisterSpanEventListener (a : addr) (l : Listener)
| UnregisterSpanEventListener (a : addr) (l : Listener)
| AddAttribute (a : addr) (key : string) (value : AttributeValue)
| AddAnnotation (a : addr) (description : string) (timestamp : Z)
                (attrs : option Attributes)
| AddLink (a : addr) (trace_id span_id type : string)
          (attrs : option Attributes)
| AddMessageEvent (a : addr) (type id : string)
| SetStatus (a : addr) (c : Z) (msg : option string).

Section Programs.

Variable clock : nat → Z.
Variable randomSpanId : nat → string.
Variable uuid_v4 : nat → string.
Variable stack : nat.

Definition exec (op : Op) : M unit :=
  match op with
  | NewRootSpan options =>
      let* rnd := draw randomSpanId in
      let* uuid := draw uuid_v4 in
      let* _ := alloc (RootSpan_new rnd uuid options) in ret tt
  | NewChildSpan spanData =>
      let* rnd := draw randomSpanId in
      let* _ := alloc (ChildSpan_new rnd spanData) in ret tt
  | Start a => BaseSpan_start clock stack a
  | End a => end_ clock stack a
  | Truncate a => truncate clock stack a
  | StartChildSpan r nm k =>
      let* _ := startChildSpan clock randomSpanId stack r nm k in ret tt
  | RegisterSpanEventListener a l =>
      modify a (with_base (registerSpanEventListener l))
  | UnregisterSpanEventListener a l =>
      modify a (with_base (unregisterSpanEventListener l))
  | AddAttribute a key value =>
      modify a (with_base (addAttribute key value))
  | AddAnnotation a description timestamp attrs =>
      modify a (with_base (addAnnotation description timestamp attrs))
  | AddLink a trace_id span_id type attrs =>
      modify a (with_base (addLink trace_id span_id type attrs))
  | AddMessageEvent a type id =>
      modify a (with_base (addMessageEvent type id))
  | SetStatus a c msg =>
      modify a (with_base (setStatus c msg))
  end.

(** A program is a sequence of calls; an exception ends the call that
    raised it, not the program. *)
Definition run (ops : list Op) (w : World) : World :=
  fold_left (λ w op, snd (exec op w)) ops w.

End Programs.

(** ** Observations on traces and heaps *)

(** The hooks run at depth 0, that is by [start()] or [end()] of a span
    and not by a relay. *)
Definition hook_calls (evs : list Event)
  : list (addr * Listener * Hook * SpanData) :=
  flat_map (λ e, match e with
                 | Invoke c O l h d => [(c, l, h, d)]
                 | _ => []
                 end) evs.

(** The hooks that the object at [a] runs, at any depth. *)
Definition calls_by (a : addr) (evs : list Event) : list Event :=
  List.filter (λ e, match e with
                    | Invoke c _ _ _ _ => bool_decide (c = a)
                    | Log _ _ _ => false
                    end) evs.

(** [relays_ok fuel h l]: calling a hook of [l] returns, because every
    chain of relays that starts at [l] ends in external listeners within
    [fuel] steps. *)
Fixpoint relays_ok (fuel : nat) (h : gmap addr Span) (l : Listener) : bool :=
  match l with
  | External _ => true
  | Relay r =>
      match h !! r with
      | Some (RootSpan b _) =>
          match fuel with
          | O => false
          | S n => forallb (relays_ok n h) (listeners b)
          end
      | _ => false
      end
  end.

(** The listeners of the root spans, which is all that a relayed call reads
    of the heap. *)
Definition relay_view (h : gmap addr Span) (r : addr)
  : option (list Listener) :=
  match h !! r with
  | Some (RootSpan b _) => Some (listeners b)
  | _ => None
  end.

(** What an event shows of the record it carries: the name of the span
    and its end time. *)
Inductive Seen : Type :=
| SeenHook (caller : addr) (depth : nat) (target : Listener) (hook : Hook)
           (span_name : string) (ended_at : Z)
| SeenLog (caller : addr) (lvl : Level) (msg : Message).

Definition seen (e : Event) : Seen :=
  match e with
  | Invoke c k l h d => SeenHook c k l h (name d) (endTime d)
  | Log c lvl msg => SeenLog c lvl msg
  end.

(** A span is open when it has been started and has not been ended. *)
Definition open (s : BaseSpan) : bool := negb (ended s) && started s.

(** ** What no method changes *)

(** [stable b b']: the identity of the span is the same, and a time stamp
    that was set has not changed. *)
Definition stable (b b' : BaseSpan) : Prop :=
  traceId (data b') = traceId (data b)
  ∧ spanId (data b') = spanId (data b)
  ∧ parentSpanId (data b') = parentSpanId (data b)
  ∧ sameProcessAsParentSpan (data b') = sameProcessAsParentSpan (data b)
  ∧ (started b = true → startTime (data b') = startTime (data b))
  ∧ (ended b = true → endTime (data b') = endTime (data b)).

(** [evolves o o']: [o'] is a later state of the object [o]; a root span
    only gains children, at the end of its list. *)
Definition evolves (o o' : Span) : Prop :=
  match o, o' with
  | RootSpan b kids, RootSpan b' kids' => stable b b' ∧ kids `prefix_of` kids'
  | ChildSpan b, ChildSpan b' => stable b b'
  | _, _ => False
  end.

Definition heap_evolves (h h' : gmap addr Span) : Prop :=
  ∀ a o, h !! a = Some o → ∃ o', h' !! a = Some o' ∧ evolves o o'.

(** [keeps I R m]: from a world that satisfies [I], the computation [m]
    ends, normally or not, in a world that satisfies [I] and is related to
    the first one by [R]. *)
Definition keeps (I : World → Prop) (R : World → World → Prop) {A}
    (m : M A) : Prop :=
  ∀ w, I w → I (m w).2 ∧ R w (m w).2.

(** [grows m]: whatever [m] does, every object stays allocated and evolves. *)
Definition grows {A} (m : M A) : Prop :=
  keeps (λ _, True) (λ w w', heap_evolves (heap w) (heap w')) m.

(** ** A span that has released its listeners *)

(** The listener list of the object at [a] is empty. *)
Definition released (a : addr) (w : World) : Prop :=
  ∃ o, heap w !! a = Some o ∧ listeners (base o) = [].

(** Between [w] and [w'] the object at [a] has run no hook. *)
Definition silent (a : addr) (w w' : World) : Prop :=
  ∃ evs, trace w' = trace w ++ evs ∧ calls_by a evs = [].

(** The event is not a hook run by [a]. *)
Definition not_by (a : addr) (e : Event) : Prop :=
  match e with
  | Invoke c _ _ _ _ => c ≠ a
  | Log _ _ _ => True
  end.

Definition quiet (a : addr) {A} (m : M A) : Prop :=
  keeps (released a) (silent a) m.

(** The call registers a listener on the span at [a]. *)
Definition registers_on (a : addr) (op : Op) : Prop :=
  match op with
  | RegisterSpanEventListener a' _ => a' = a
  | _ => False
  end.

(** ** Children of a root span *)

(** The child that [startChildSpan] constructs, registers on and starts. *)
Definition started_child (clock : nat → Z) (randomSpanId : nat → string)
    (r : addr) (b : BaseSpan) (nm : string) (k : option SpanKind)
    (w : World) : BaseSpan :=
  mkBaseSpan
    (mkSpanData (traceId (data b)) (randomSpanId (draws w))
       (spanId (data b)) nm (Some (default CLIENT k)) (clock (reads w))
       UNINITIALIZED_DATE ∅ tt [] [] None (Some true))
    false [Relay r].

(** The state of a span after [truncate()] has ended it at time [t]. *)
Definition forced_end (t : Z) (s : BaseSpan) : BaseSpan :=
  with_listeners [] (with_data (set_endTime t) (with_truncated true s)).

(** The end hooks that the child at [c] runs when the loop truncates it:
    one per listener it had in [w], with the record it has in [wm]. *)
Definition end_hooks_of (w wm : World) (c : addr)
  : list (addr * Listener * Hook * SpanData) :=
  match heap w !! c, heap wm !! c with
  | Some (ChildSpan s), Some (ChildSpan s') =>
      if open s then map (λ l, (c, l, OnEndSpan, data s')) (listeners s)
      else []
  | _, _ => []
  end.

(** ** A small trace used to exercise the statements

    A root span at address 0 with one external listener; later two
    children: the one at address 1 is open and reports to the root, the
    one at address 2 is already ended. *)

Definition demo_clock (n : nat) : Z := 1000 + Z.of_nat n.

Definition demo_ids (n : nat) : string := "00f067aa0ba902b7".

Definition demo_root_unstarted : BaseSpan :=
  registerSpanEventListener (External 7)
    (base (RootSpan_new "b7ad6b7169203331"
             "0af76519-16cd-43dd-8448-eb211c80319c"
             (Some (SpanOptions.mk (Some "root") None None)))).

Definition demo_root_started : BaseSpan :=
  with_data (set_startTime 990) demo_root_unstarted.

Definition demo_child_open : BaseSpan :=
  registerSpanEventListener (Relay 0)
    (with_data (set_startTime 995)
       (base (ChildSpan_new "1111111111111111" None))).

Definition demo_child_ended : BaseSpan :=
  with_data (set_endTime 998)
    (with_data (set_startTime 996)
       (base (ChildSpan_new "2222222222222222" None))).

Definition demo_world_unstarted : World :=
  mkWorld {[0%nat := RootSpan demo_root_unstarted []]} [] 0 2.

Definition demo_world_started : World :=
  mkWorld {[0%nat := RootSpan demo_root_started []]} [] 0 2.

Definition demo_world_children : World :=
  mkWorld
    (<[2%nat := ChildSpan demo_child_ended]>
       (<[1%nat := ChildSpan demo_child_open]>
          {[0%nat := RootSpan demo_root_started [1%nat; 2%nat]]}))
    [] 0 4.

Definition demo_ops : list Op :=
  [ AddAttribute 1 "http.method" (AString "GET");
    End 1; Start 1; SetStatus 0 2 None;
    RegisterSpanEventListener 1 (External 9);
    Truncate 0; End 0; Start 0 ].

(** ** Well-formed heaps *)

(** What the span interface maintains about every root span: its child
    list has no duplicates and holds started child spans; a root that is
    not started has no children; the children of an ended root are
    ended. *)
Definition wf_heap (h : gmap addr Span) : Prop :=
  ∀ r b kids,
    h !! r = Some (RootSpan b kids) →
    NoDup kids
    ∧ (started b = false → kids = [])
    ∧ ∀ c, c ∈ kids →
        ∃ s, h !! c = Some (ChildSpan s)
             ∧ started s = true
             ∧ (ended b = true → ended s = true).

Definition well_formed (w : World) : Prop := wf_heap (heap w).

(** The world before any call. *)
Definition empty_world : World := mkWorld ∅ [] 0 0.

(** ** exporters: Stackdriver ([translateSpans], [translateSpan]) *)

Module Stackdriver.
(** [TranslatedSpan]; a [Date] is the number of milliseconds it wraps. *)
Record TranslatedSpan : Type := mkSpan {
  name : string;
  kind : string;
  spanId : string;
  startTime : Z;
  endTime : Z
}.

Record TranslatedTrace : Type := mkTrace {
  projectId : string;
  traceId : string;
  spans : list TranslatedSpan
}.
End Stackdriver.

(** [xs.indexOf(x)]: the first index that holds [x], or [-1]. *)
Fixpoint indexOf (xs : list string) (x : string) : Z :=
  match xs with
  | [] => -1
  | y :: ys =>
      if String.eqb y x then 0
      else let i := indexOf ys x in
           if Z.eqb i (-1) then -1 else i + 1
  end.

Definition Stackdriver_translateSpan (span : SpanData)
  : Stackdriver.TranslatedSpan :=
  Stackdriver.mkSpan (name span) "SPAN_KIND_UNSPECIFIED" (spanId span)
    (startTime span) (endTime span).

(** The [reduce] of [translateSpans]: the trace ids of the spans, each one
    pushed when it is met for the first time. *)
Definition Stackdriver_traceIds (spans : list SpanData) : list string :=
  fold_left
    (λ knownIds span,
       if Z.eqb (indexOf knownIds (traceId span)) (-1)
       then knownIds ++ [traceId span]
       else knownIds)
    spans [].

Definition Stackdriver_translateSpans (projectId : string)
    (spans : list SpanData) : list Stackdriver.TranslatedTrace :=
  map
    (λ traceId',
       let matchingSpans :=
         List.filter (λ span, String.eqb (traceId span) traceId') spans in
       Stackdriver.mkTrace projectId traceId'
         (map Stackdriver_translateSpan matchingSpans))
    (Stackdriver_traceIds spans).

(** ** exporters: Instana ([translateRootSpans], [translateSpan]) *)

Module InstanaSpan.
Record t : Type := mk {
  spanId : string;
  parentId : option string;
  traceId : string;
  timestamp : Z;
  duration : Z;
  name : string;
  type : option string;
  error : bool;
  data : gmap string string
}.
End InstanaSpan.

(** [x | 0] on an integer: the signed 32-bit integer congruent to [x]
    modulo [2^32]. *)
Definition to_int32 (x : Z) : Z := (x + 2 ^ 31) mod 2 ^ 32 - 2 ^ 31.

(** [SpanKind[k]]: the reverse mapping of the numeric enum. *)
Definition SpanKind_name (k : SpanKind) : string :=
  match k with
  | SPAN_KIND_UNSPECIFIED => "SPAN_KIND_UNSPECIFIED"
  | SERVER => "SERVER"
  | CLIENT => "CLIENT"
  end.

(** [String(x)] for [x = span.attributes[key]]; a number is an integer,
    which prints in decimal notation (below [10^21] in absolute value). *)
Definition String_of (x : option AttributeValue) : string :=
  match x with
  | Some (AString s) => s
  | Some (ANumber n) => pretty n
  | Some (ABoolean b) => if b then "true" else "false"
  | None => "undefined"
  end.

(** [Object.keys(attributes).reduce((agg, key) => {agg[String(key)] =
    String(attributes[key]); return agg;}, {})]. The keys of an object are
    pairwise distinct strings, so that the order in which [reduce] meets
    them does not show in the result. *)
Definition Instana_data (attrs : Attributes) : gmap string string :=
  fold_left (λ agg key, <[key := String_of (attrs !! key)]> agg)
    (map_to_list attrs).*1 ∅.

Definition Instana_translateSpan (span : SpanData) : InstanaSpan.t :=
  {| InstanaSpan.spanId := spanId span;
     InstanaSpan.parentId :=
       if truthy_string (parentSpanId span) then Some (parentSpanId span)
       else None;
     InstanaSpan.traceId := substring 0 8 (traceId span);
     InstanaSpan.timestamp := startTime span;
     InstanaSpan.duration := to_int32 (endTime span - startTime span);
     InstanaSpan.name := name span;
     InstanaSpan.type := SpanKind_name <$> kind span;
     InstanaSpan.error := false;
     InstanaSpan.data := Instana_data (attributes span) |}.

Definition Instana_translateRootSpans (spans : list SpanData)
  : list InstanaSpan.t :=
  map Instana_translateSpan spans.

(** ** exporters: Zpages ([pushSpan], [registerSpanNames])

    [traces: Map<string, SpanData[]>]. A list holds the records that
    [pushSpan] stored and the objects [{name}] that [registerSpanNames]
    stored, which have no other field. A stored record is taken as it is
    when it is stored. *)

Inductive ZpagesEntry : Type :=
| NameOnly (name : string)
| Recorded (span : SpanData).

(** [spans[i].spanId] *)
Definition ZpagesEntry_spanId (e : ZpagesEntry) : option string :=
  match e with
  | NameOnly _ => None
  | Recorded d => Some (spanId d)
  end.

(** The loop of [pushSpan]: the list with [span] in the place of the first
    entry that has its [spanId], when the loop returns from there; [None]
    when the loop runs to its end. *)
Fixpoint Zpages_update (span : SpanData) (spans : list ZpagesEntry)
  : option (list ZpagesEntry) :=
  match spans with
  | [] => None
  | e :: rest =>
      if bool_decide (ZpagesEntry_spanId e = Some (spanId span))
      then Some (Recorded span :: rest)
      else cons e <$> Zpages_update span rest
  end.

Definition Zpages_pushSpan (span : SpanData)
    (traces : gmap string (list ZpagesEntry))
  : gmap string (list ZpagesEntry) :=
  match traces !! name span with
  | Some spans =>
      match Zpages_update span spans with
      | Some spans' => <[name span := spans']> traces
      | None => <[name span := spans ++ [Recorded span]]> traces
      end
  | None => <[name span := [Recorded span]]> traces
  end.

Definition Zpages_registerSpanNames (spanNames : list string)
    (traces : gmap string (list ZpagesEntry))
  : gmap string (list ZpagesEntry) :=
  fold_left (λ traces name, <[name := [NameOnly name]]> traces)
    spanNames traces.

(** The [traces] of a new exporter: [if (options.spanNames)
    this.registerSpanNames(options.spanNames)]. *)
Definition Zpages_new (spanNames : option (list string))
  : gmap string (list ZpagesEntry) :=
  match spanNames with
  | Some names => Zpages_registerSpanNames names ∅
  | None => ∅
  end.

(** The exporter after a sequence of [onStartSpan] / [onEndSpan] events
    (both run [sendTrace], that is [pushSpan]). *)
Definition Zpages_receive (events : list SpanData)
    (traces : gmap string (list ZpagesEntry))
  : gmap string (list ZpagesEntry) :=
  fold_left (λ traces span, Zpages_pushSpan span traces) events traces.

(** No list of the exporter holds two records with the same [spanId]. *)
Definition Zpages_distinct (traces : gmap string (list ZpagesEntry)) : Prop :=
  ∀ name spans,
    traces !! name = Some spans → NoDup (omap ZpagesEntry_spanId spans).

(** ** What the span interface maintains *)

(** The updates that the methods make to a span object, the writes of the
    two time stamps and the push of a child apart. *)
Inductive update : (Span → Span) → Prop :=
| update_truncated : update (with_base (with_truncated true))
| update_release : update (with_base (with_listeners []))
| update_register l : update (with_base (registerSpanEventListener l))
| update_unregister l : update (with_base (unregisterSpanEventListener l))
| update_addAttribute key value : update (with_base (addAttribute key value))
| update_addAnnotation description timestamp attrs :
    update (with_base (addAnnotation description timestamp attrs))
| update_addLink trace_id span_id type attrs :
    update (with_base (addLink trace_id span_id type attrs))
| update_addMessageEvent type id :
    update (with_base (addMessageEvent type id))
| update_setStatus c msg : update (with_base (setStatus c msg)).

(** Every object that a call of a constructor makes satisfies [New]. *)
Definition constructs (New : Span → Prop) (op : Op) : Prop :=
  match op with
  | NewRootSpan options => ∀ rnd uuid, New (RootSpan_new rnd uuid options)
  | NewChildSpan spanData => ∀ rnd, New (ChildSpan_new rnd spanData)
  | _ => True
  end.

(** [maintains I R m]: the computation keeps the property [I] of the heap
    and relates the heap it leaves to the heap it found by [R]. *)
Definition maintains (I : gmap addr Span → Prop)
    (R : gmap addr Span → gmap addr Span → Prop) {A} (m : M A) : Prop :=
  keeps (λ w, I (heap w)) (λ w w', R (heap w) (heap w')) m.

Definition heap_all (P : Span → Prop) (h : gmap addr Span) : Prop :=
  ∀ a o, h !! a = Some o → P o.

Definition heap_rel (Rel : Span → Span → Prop) (h h' : gmap addr Span)
  : Prop :=
  ∀ a o, h !! a = Some o → ∃ o', h' !! a = Some o' ∧ Rel o o'.

(** The flag [sameProcessAsParentSpan] tells the class of the object. *)
Definition flagged (o : Span) : Prop :=
  sameProcessAsParentSpan (data (base o)) =
  Some (match o with
        | RootSpan _ _ => false
        | ChildSpan _ => true
        end).

(** A span that is ended has been started. *)
Definition timely (o : Span) : Prop :=
  ended (base o) = true → started (base o) = true.

(** [accumulates o o']: from [o] to [o'] the name and the kind are the
    same, events and links were only added, at the end, no attribute was
    removed, a status was not removed, and [truncated] was not reset. *)
Definition accumulates (o o' : Span) : Prop :=
  name (data (base o')) = name (data (base o))
  ∧ kind (data (base o')) = kind (data (base o))
  ∧ timeEvents (data (base o)) `prefix_of` timeEvents (data (base o'))
  ∧ links (data (base o)) `prefix_of` links (data (base o'))
  ∧ dom (attributes (data (base o))) ⊆ dom (attributes (data (base o')))
  ∧ (is_Some (status (data (base o))) → is_Some (status (data (base o'))))
  ∧ (truncated (base o) = true → truncated (base o') = true).

(** The children in the list of a root span are child spans of its trace
    whose parent it is. *)
Definition kin (h : gmap addr Span) : Prop :=
  ∀ r b kids c,
    h !! r = Some (RootSpan b kids) → c ∈ kids →
    ∃ s, h !! c = Some (ChildSpan s)
         ∧ traceId (data s) = traceId (data b)
         ∧ parentSpanId (data s) = spanId (data b).

(** A constructor returns a root span that has no children. *)
Definition childless (o : Span) : Prop :=
  match o with
  | RootSpan _ kids => kids = []
  | ChildSpan _ => True
  end.

(** [alike o o']: the same class, the same identifiers and, for a root
    span, the same children. *)
Definition alike (o o' : Span) : Prop :=
  traceId (data (base o')) = traceId (data (base o))
  ∧ spanId (data (base o')) = spanId (data (base o))
  ∧ parentSpanId (data (base o')) = parentSpanId (data (base o))
  ∧ match o, o' with
    | RootSpan _ kids, RootSpan _ kids' => kids' = kids
    | ChildSpan _, ChildSpan _ => True
    | _, _ => False
    end.

(** A program that runs from the empty world: a root span with a listener
    and one child, which is still open when the root span ends. *)
Definition demo_program : list Op :=
  [ NewRootSpan (Some (SpanOptions.mk (Some "root") None (Some SERVER)));
    RegisterSpanEventListener 0 (External 7);
    Start 0;
    AddAnnotation 0 "cache miss" 1001 None;
    StartChildSpan 0 "child" None;
    AddAttribute 1 "http.method" (AString "GET");
    End 0 ].

Definition demo_run (ops : list Op) : World :=
  run demo_clock demo_ids demo_ids 3 ops empty_world.

(** The root span that [demo_program] leaves at address 0. *)
Definition demo_program_root : BaseSpan :=
  mkBaseSpan
    (mkSpanData "00f067aa0ba902b7" "00f067aa0ba902b7" "" "root"
       (Some SERVER) 1000 1003 ∅ tt [Annotation "cache miss" 1001 None] []
       None (Some false))
    false [].

(** The hooks run at depth [k]. *)
Definition calls_at (k : nat) (evs : list Event)
  : list (addr * Listener * Hook * SpanData) :=
  flat_map (λ e, match e with
                 | Invoke c k' l h d =>
                     if Nat.eqb k' k then [(c, l, h, d)] else []
                 | Log _ _ _ => []
                 end) evs.

(** The span at [a] has been started and ended. *)
Definition finished (a : addr) (w : World) : Prop :=
  ∃ o, heap w !! a = Some o
       ∧ started (base o) = true ∧ ended (base o) = true.

(** The event is not a hook that the span at [a] runs on its own start or
    end. *)
Definition not_about (a : addr) (e : Event) : Prop :=
  match e with
  | Invoke c O _ _ _ => c ≠ a
  | _ => True
  end.

(** Between [w] and [w'] the span at [a] has announced nothing. *)
Definition unannounced (a : addr) (w w' : World) : Prop :=
  ∃ evs, trace w' = trace w ++ evs ∧ Forall (not_about a) evs.

(** [of_family h r d]: [d] is the record of the root span at [r] or of one
    of the children on its list. *)
Definition of_family (h : gmap addr Span) (r : addr) (d : SpanData) : Prop :=
  ∃ b kids,
    h !! r = Some (RootSpan b kids)
    ∧ (d = data b
       ∨ ∃ c s, c ∈ kids ∧ h !! c = Some (ChildSpan s) ∧ d = data s).

(** * Properties *)

(** ** Construction of a root span *)

(** C10. A root span constructed without options, with options that have no
    name, or with the empty name, has the name ['undefined']. *)
Theorem RootSpan_new_name_undefined (rnd uuid : string) :
  name (data (base (RootSpan_new rnd uuid None))) = "undefined"
  ∧ (∀ ctx k,
       name (data (base (RootSpan_new rnd uuid
                           (Some (SpanOptions.mk None ctx k)))))
       = "undefined")
  ∧ (∀ ctx k,
       name (data (base (RootSpan_new rnd uuid
                           (Some (SpanOptions.mk (Some "") ctx k)))))
       = "undefined").
Proof.
  split; [reflexivity|].
  split; intros [c|] k; reflexivity.
Qed.

(** C3. A root span constructed without a kind holds [null] in its [kind]
    field, not [SpanKind.SPAN_KIND_UNSPECIFIED]: the constructor overwrites
    the default that [createSpanData] had put there. The test on
    [options.kind] is one of truthiness, so that even an explicit
    [SPAN_KIND_UNSPECIFIED] (the number 0) ends as [null]. *)
Theorem RootSpan_new_kind_null (rnd uuid : string) :
  kind (data (BaseSpan_new rnd None)) = Some SPAN_KIND_UNSPECIFIED
  ∧ kind (data (base (RootSpan_new rnd uuid None))) = None
  ∧ (∀ n ctx,
       kind (data (base (RootSpan_new rnd uuid
                           (Some (SpanOptions.mk n ctx None))))) = None)
  ∧ (∀ n ctx,
       kind (data (base (RootSpan_new rnd uuid
                           (Some (SpanOptions.mk n ctx
                                    (Some SPAN_KIND_UNSPECIFIED))))))
       = None)
  ∧ kind (data (base (RootSpan_new rnd uuid None)))
    ≠ Some SPAN_KIND_UNSPECIFIED.
Proof.
  split; [reflexivity|].
  split; [reflexivity|].
  split; [intros n [c|]; reflexivity|].
  split; [intros n [c|]; reflexivity|].
  discriminate.
Qed.

(** ** Listener registration *)

Lemma elem_of_unregisterSpanEventListener (s : BaseSpan)
    (listener l : Listener) :
  l ∈ listeners (unregisterSpanEventListener listener s)
  ↔ l = listener ∧ listener ∈ listeners s.
Proof.
  unfold unregisterSpanEventListener, same_ref; simpl.
  rewrite list_elem_of_In, filter_In, <- list_elem_of_In.
  rewrite bool_decide_eq_true.
  split; [intros [H ->]|intros [-> H]]; auto.
Qed.

(** Listeners are kept in the order of their registration. *)
Lemma registerSpanEventListener_order (s : BaseSpan) (l1 l2 : Listener) :
  listeners (registerSpanEventListener l2 (registerSpanEventListener l1 s))
  = listeners s ++ [l1; l2].
Proof. simpl. by rewrite <- app_assoc. Qed.

(** C1. On a span with listeners [l1; l2; l1], unregistering [l1] leaves
    [l1; l1]: the listener that was to be removed stays, twice, and the
    other one is dropped. *)
Theorem unregisterSpanEventListener_inverted :
  let s := mkBaseSpan (createSpanData PartialSpanData.empty) false
             [External 1; External 2; External 1] in
  listeners (unregisterSpanEventListener (External 1) s)
  = [External 1; External 1].
Proof. reflexivity. Qed.

(** ** Exporter buffer *)

Lemma ExporterBuffer_addToBuffer_below (r : SpanData)
    (b : ExporterBuffer.t) :
  (length (ExporterBuffer.queue b) < ExporterBuffer.bufferSize b)%nat →
  ExporterBuffer.queue (ExporterBuffer.addToBuffer r b)
  = ExporterBuffer.queue b ++ [r]
  ∧ ExporterBuffer.published (ExporterBuffer.addToBuffer r b)
    = ExporterBuffer.published b
  ∧ ExporterBuffer.bufferSize (ExporterBuffer.addToBuffer r b)
    = ExporterBuffer.bufferSize b.
Proof.
  intros Hlen.
  unfold ExporterBuffer.addToBuffer, ExporterBuffer.addToBuffer_with,
    ExporterBuffer.exceeds.
  cbn [ExporterBuffer.queue ExporterBuffer.bufferSize ExporterBuffer.timer].
  destruct (Nat.ltb_spec (ExporterBuffer.bufferSize b)
              (length (ExporterBuffer.queue b ++ [r]))) as [Hlt|Hge].
  - rewrite length_app in Hlt. simpl in Hlt. lia.
  - destruct (ExporterBuffer.timer b); auto.
Qed.

Lemma ExporterBuffer_addToBuffer_full (r : SpanData)
    (b : ExporterBuffer.t) :
  length (ExporterBuffer.queue b) = ExporterBuffer.bufferSize b →
  ExporterBuffer.queue (ExporterBuffer.addToBuffer r b) = []
  ∧ ExporterBuffer.published (ExporterBuffer.addToBuffer r b)
    = ExporterBuffer.published b ++ [ExporterBuffer.queue b ++ [r]]
  ∧ ExporterBuffer.timer (ExporterBuffer.addToBuffer r b) = false.
Proof.
  intros Hlen.
  unfold ExporterBuffer.addToBuffer, ExporterBuffer.addToBuffer_with,
    ExporterBuffer.exceeds.
  cbn [ExporterBuffer.queue ExporterBuffer.bufferSize ExporterBuffer.timer].
  destruct (Nat.ltb_spec (ExporterBuffer.bufferSize b)
              (length (ExporterBuffer.queue b ++ [r]))) as [Hlt|Hge].
  - auto.
  - rewrite length_app in Hge. simpl in Hge. lia.
Qed.

Lemma ExporterBuffer_addAll_below (records : list SpanData)
    (b : ExporterBuffer.t) :
  (length (ExporterBuffer.queue b) + length records
   ≤ ExporterBuffer.bufferSize b)%nat →
  ExporterBuffer.queue
    (ExporterBuffer.addAll ExporterBuffer.addToBuffer records b)
  = ExporterBuffer.queue b ++ records
  ∧ ExporterBuffer.published
      (ExporterBuffer.addAll ExporterBuffer.addToBuffer records b)
    = ExporterBuffer.published b
  ∧ ExporterBuffer.bufferSize
      (ExporterBuffer.addAll ExporterBuffer.addToBuffer records b)
    = ExporterBuffer.bufferSize b.
Proof.
  revert b. induction records as [|r rs IH]; intros b Hlen.
  - simpl. rewrite app_nil_r. auto.
  - simpl in Hlen.
    destruct (ExporterBuffer_addToBuffer_below r b) as (Hq & Hp & Hs);
      [lia|].
    change (ExporterBuffer.addAll ExporterBuffer.addToBuffer (r :: rs) b)
      with (ExporterBuffer.addAll ExporterBuffer.addToBuffer rs
              (ExporterBuffer.addToBuffer r b)).
    destruct (IH (ExporterBuffer.addToBuffer r b)) as (Hq' & Hp' & Hs').
    + rewrite Hq, Hs, length_app. simpl. lia.
    + rewrite Hq', Hp', Hs', Hq, Hp, Hs, <- app_assoc. auto.
Qed.

Lemma force_flush_test_fixes_trigger (r1 r2 r3 r4 : SpanData) :
  force_flush_test ExporterBuffer.addToBuffer r1 r2 r3 r4 = true
  ∧ force_flush_test ExporterBuffer.addToBuffer_literal r1 r2 r3 r4 = false.
Proof. split; reflexivity. Qed.

(** C2, as the code has it. After exactly [bufferSize] records added to an
    empty buffer nothing has been published and the queue holds the
    records in order; the next record makes the buffer publish once, a
    batch with all [bufferSize + 1] records in order, and leaves the queue
    empty and no timer pending. *)
Theorem ExporterBuffer_flush_when_exceeding (timeout : Z)
    (records : list SpanData) (r : SpanData) :
  let full :=
    ExporterBuffer.addAll ExporterBuffer.addToBuffer records
      (ExporterBuffer.create (length records) timeout) in
  ExporterBuffer.published full = []
  ∧ ExporterBuffer.queue full = records
  ∧ ExporterBuffer.published (ExporterBuffer.addToBuffer r full)
    = [records ++ [r]]
  ∧ ExporterBuffer.queue (ExporterBuffer.addToBuffer r full) = []
  ∧ ExporterBuffer.timer (ExporterBuffer.addToBuffer r full) = false.
Proof.
  intros full.
  destruct (ExporterBuffer_addAll_below records
              (ExporterBuffer.create (length records) timeout))
    as (Hq & Hp & Hs); [simpl; lia|].
  fold full in Hq, Hp, Hs. simpl in Hq, Hp, Hs.
  destruct (ExporterBuffer_addToBuffer_full r full) as (Hq' & Hp' & Ht').
  { rewrite Hq, Hs. reflexivity. }
  rewrite Hq', Hp', Ht', Hp, Hq. auto.
Qed.

(** C2, as stated, fails: with [bufferSize = 3], after three records the
    exporter has not been called and the queue is not empty. *)
Lemma ExporterBuffer_no_flush_at_bufferSize :
  let d := createSpanData PartialSpanData.empty in
  let b :=
    ExporterBuffer.addAll ExporterBuffer.addToBuffer [d; d; d]
      (ExporterBuffer.create 3 2000) in
  ¬ (ExporterBuffer.published b = [[d; d; d]] ∧ ExporterBuffer.queue b = []).
Proof.
  simpl. intros [H _]. discriminate H.
Qed.

(** ** Events of a notification round *)

Lemma forEach_ext {A} (f g : A → list Event * bool) (xs : list A) :
  (∀ x, x ∈ xs → f x = g x) → forEach f xs = forEach g xs.
Proof.
  induction xs as [|x xs IH]; intros H; simpl; [reflexivity|].
  rewrite (H x) by left.
  rewrite IH; [reflexivity|]. intros y Hy. apply H. by right.
Qed.

Lemma invoke_ext (fuel : nat) (h h' : gmap addr Span) (caller : addr)
    (depth : nat) (hook : Hook) (d : SpanData) (l : Listener) :
  (∀ r, relay_view h r = relay_view h' r) →
  invoke fuel h caller depth hook d l = invoke fuel h' caller depth hook d l.
Proof.
  intros Hv. revert caller depth l.
  induction fuel as [|n IH]; intros caller depth [i|r]; simpl; try reflexivity.
  - specialize (Hv r). unfold relay_view in Hv.
    destruct (h !! r) as [[b kids|b]|], (h' !! r) as [[b' kids'|b']|];
      congruence.
  - specialize (Hv r). unfold relay_view in Hv.
    destruct (h !! r) as [[b kids|b]|], (h' !! r) as [[b' kids'|b']|];
      try congruence.
    assert (listeners b = listeners b') as -> by congruence.
    rewrite (forEach_ext (invoke n h r (S depth) hook d)
               (invoke n h' r (S depth) hook d)); [reflexivity|].
    intros x _. apply IH.
Qed.

Lemma relays_ok_ext (fuel : nat) (h h' : gmap addr Span) (l : Listener) :
  (∀ r, relay_view h r = relay_view h' r) →
  relays_ok fuel h l = relays_ok fuel h' l.
Proof.
  intros Hv. revert l.
  induction fuel as [|n IH]; intros [i|r]; simpl; try reflexivity.
  - specialize (Hv r). unfold relay_view in Hv.
    destruct (h !! r) as [[b kids|b]|], (h' !! r) as [[b' kids'|b']|];
      congruence.
  - specialize (Hv r). unfold relay_view in Hv.
    destruct (h !! r) as [[b kids|b]|], (h' !! r) as [[b' kids'|b']|];
      try congruence.
    assert (listeners b = listeners b') as -> by congruence.
    clear Hv.
    induction (listeners b') as [|x xs IHxs]; simpl; [reflexivity|].
    rewrite IH, IHxs. reflexivity.
Qed.

(** Replacing an object by one of the same class with the same listeners
    changes nothing for relayed calls. *)
Lemma relay_view_insert (h : gmap addr Span) (a : addr) (o o' : Span) :
  h !! a = Some o →
  match o, o' with
  | RootSpan b _, RootSpan b' _ => listeners b = listeners b'
  | ChildSpan _, ChildSpan _ => True
  | _, _ => False
  end →
  ∀ r, relay_view (<[a := o']> h) r = relay_view h r.
Proof.
  intros Ha Hsame r. unfold relay_view.
  destruct (decide (a = r)) as [->|Hne].
  - rewrite lookup_insert_eq, Ha.
    destruct o, o'; try contradiction; congruence.
  - rewrite lookup_insert_ne by done. reflexivity.
Qed.

Lemma relay_view_with_data (h : gmap addr Span) (a : addr) (o : Span)
    (f : SpanData → SpanData) :
  h !! a = Some o →
  ∀ r, relay_view (<[a := with_base (with_data f) o]> h) r = relay_view h r.
Proof.
  intros Ha. apply (relay_view_insert h a o); [done|]. by destruct o.
Qed.

(** A round over listeners whose relays are in order completes, and the
    hooks run at the depth of the round are those of the listeners, in the
    order of the list. *)
Lemma invoke_depth (fuel : nat) (h : gmap addr Span) (caller : addr)
    (depth : nat) (hook : Hook) (d : SpanData) (l : Listener) :
  Forall (λ e, match e with
               | Invoke _ k _ _ _ => (depth ≤ k)%nat
               | Log _ _ _ => False
               end) (invoke fuel h caller depth hook d l).1.
Proof.
  revert caller depth l.
  induction fuel as [|n IH]; intros caller depth [i|r]; simpl.
  - repeat constructor.
  - destruct (h !! r) as [[b kids|b]|]; constructor.
  - repeat constructor.
  - destruct (h !! r) as [[b kids|b]|]; try constructor.
    destruct (forEach _ _) as [es ok] eqn:E. simpl.
    constructor; [lia|].
    revert es ok E.
    induction (listeners b) as [|x xs IHxs]; intros es ok E; simpl in E.
    + injection E as <- <-. constructor.
    + specialize (IH r (S depth) x).
      destruct (invoke n h r (S depth) hook d x) as [e1 ok1].
      destruct ok1.
      * destruct (forEach _ xs) as [es2 ok2].
        injection E as <- <-. apply Forall_app. split.
        -- eapply Forall_impl; [exact IH|].
           intros [c k t hk dd|]; simpl; [lia|tauto].
        -- by eapply IHxs.
      * injection E as <- <-.
        eapply Forall_impl; [exact IH|].
        intros [c k t hk dd|]; simpl; [lia|tauto].
Qed.

Lemma forEach_Forall {A} (P : Event → Prop) (f : A → list Event * bool)
    (xs : list A) :
  (∀ x, x ∈ xs → Forall P (f x).1) → Forall P (forEach f xs).1.
Proof.
  induction xs as [|x xs IH]; intros H; simpl; [constructor|].
  pose proof (H x ltac:(left)) as Hx.
  destruct (f x) as [e ok]. destruct ok; [|exact Hx].
  assert (Forall P (forEach f xs).1) as Hxs.
  { apply IH. intros y Hy. apply H. by right. }
  destruct (forEach f xs) as [es ok']. simpl in *.
  apply Forall_app. auto.
Qed.

Lemma forEach_completes {A} (f : A → list Event * bool) (xs : list A) :
  (∀ x, x ∈ xs → (f x).2 = true) → (forEach f xs).2 = true.
Proof.
  induction xs as [|x xs IH]; intros H; simpl; [reflexivity|].
  pose proof (H x ltac:(left)) as Hx.
  destruct (f x) as [e ok]. simpl in Hx. subst ok.
  assert ((forEach f xs).2 = true) as Hxs.
  { apply IH. intros y Hy. apply H. by right. }
  destruct (forEach f xs) as [es ok']. exact Hxs.
Qed.

Lemma invoke_completes (fuel : nat) (h : gmap addr Span) (caller : addr)
    (depth : nat) (hook : Hook) (d : SpanData) (l : Listener) :
  relays_ok fuel h l = true →
  (invoke fuel h caller depth hook d l).2 = true.
Proof.
  revert caller depth l.
  induction fuel as [|n IH]; intros caller depth [i|r]; simpl;
    try reflexivity.
  - destruct (h !! r) as [[b kids|b]|]; discriminate.
  - destruct (h !! r) as [[b kids|b]|]; try discriminate.
    intros Hall.
    assert ((forEach (invoke n h r (S depth) hook d) (listeners b)).2 = true)
      as Hok.
    { apply forEach_completes. intros x Hx. apply IH.
      rewrite forallb_forall in Hall. apply Hall.
      by apply list_elem_of_In. }
    destruct (forEach _ _) as [es ok]. exact Hok.
Qed.

Lemma hook_calls_app (xs ys : list Event) :
  hook_calls (xs ++ ys) = hook_calls xs ++ hook_calls ys.
Proof. unfold hook_calls. apply flat_map_app. Qed.

Lemma hook_calls_deeper (evs : list Event) :
  Forall (λ e, match e with
               | Invoke _ k _ _ _ => (1 ≤ k)%nat
               | Log _ _ _ => False
               end) evs →
  hook_calls evs = [].
Proof.
  induction 1 as [|e es He _ IH]; [reflexivity|].
  destruct e as [c k l hk d|]; [|contradiction].
  destruct k; [lia|]. exact IH.
Qed.

Lemma invoke_hook_calls (fuel : nat) (h : gmap addr Span) (caller : addr)
    (hook : Hook) (d : SpanData) (l : Listener) :
  relays_ok fuel h l = true →
  hook_calls (invoke fuel h caller 0 hook d l).1 = [(caller, l, hook, d)].
Proof.
  destruct l as [i|r]; [by destruct fuel|].
  destruct fuel as [|n]; simpl.
  - destruct (h !! r) as [[b kids|b]|]; discriminate.
  - destruct (h !! r) as [[b kids|b]|]; try discriminate.
    intros _.
    pose proof (forEach_Forall
                  (λ e, match e with
                        | Invoke _ k _ _ _ => (1 ≤ k)%nat
                        | Log _ _ _ => False
                        end)
                  (invoke n h r 1 hook d) (listeners b)) as Hdeep.
    destruct (forEach _ _) as [es ok]. simpl in *.
    rewrite hook_calls_deeper; [reflexivity|].
    apply Hdeep. intros x _. apply invoke_depth.
Qed.

(** A notification round: [this.listeners.forEach(l => l.hook(d))] run by
    [a] completes and calls the hook of each listener, in the order of the
    list. *)
Lemma round_hook_calls (fuel : nat) (h : gmap addr Span) (a : addr)
    (hook : Hook) (d : SpanData) (ls : list Listener) :
  forallb (relays_ok fuel h) ls = true →
  (forEach (invoke fuel h a 0 hook d) ls).2 = true
  ∧ hook_calls (forEach (invoke fuel h a 0 hook d) ls).1
    = map (λ l, (a, l, hook, d)) ls.
Proof.
  induction ls as [|l ls IH]; simpl; [auto|].
  intros Hall. apply andb_true_iff in Hall as [Hl Hls].
  destruct (IH Hls) as [Hok Hcalls].
  pose proof (invoke_completes fuel h a 0 hook d l Hl) as Hokl.
  pose proof (invoke_hook_calls fuel h a hook d l Hl) as Hcl.
  destruct (invoke fuel h a 0 hook d l) as [e ok]. simpl in *. subst ok.
  destruct (forEach _ ls) as [es ok']. simpl in *.
  rewrite hook_calls_app, Hcl, Hcalls. auto.
Qed.

(** ** The effect of the life-cycle methods *)

Lemma bind_eq {A B} (m : M A) (k : A → M B) (w : World) (r : option A)
    (w' : World) :
  m w = (r, w') →
  bind m k w = match r with
               | Some x => k x w'
               | None => (None, w')
               end.
Proof. unfold bind. by intros ->. Qed.

Lemma modify_eq (a : addr) (f : Span → Span) (w : World) (o : Span) :
  heap w !! a = Some o →
  modify a f w = (Some tt, set_heap (<[a := f o]> (heap w)) w).
Proof. intros Ha. unfold modify, bind, get, put. by rewrite Ha. Qed.

Section Effects.

Variable clock : nat → Z.
Variable randomSpanId : nat → string.
Variable stack : nat.

Lemma BaseSpan_start_eq (a : addr) (w : World) (o : Span) :
  heap w !! a = Some o →
  BaseSpan_start clock stack a w =
  if started (base o) then
    (Some tt,
     mkWorld (heap w) (trace w ++ [Log a WARN StartAlreadyStarted])
       (reads w) (draws w))
  else
    let o1 := with_base (with_data (set_startTime (clock (reads w)))) o in
    let h1 := <[a := o1]> (heap w) in
    let r := forEach (invoke stack h1 a 0 OnStartSpan (data (base o1)))
               (listeners (base o1)) in
    ((if r.2 then Some tt else None),
     mkWorld h1 (trace w ++ r.1) (S (reads w)) (draws w)).
Proof.
  intros Ha.
  unfold BaseSpan_start, bind, get. rewrite Ha.
  destruct (started (base o)); [reflexivity|].
  unfold now, modify, bind, get, put, notify, bind, get, set_heap. simpl.
  rewrite Ha. simpl. rewrite lookup_insert_eq.
  destruct (forEach _ _) as [evs ok]. reflexivity.
Qed.

Lemma BaseSpan_end_eq (a : addr) (w : World) (o : Span) :
  heap w !! a = Some o →
  BaseSpan_end clock stack a w =
  if ended (base o) then
    (Some tt,
     mkWorld (heap w) (trace w ++ [Log a WARN EndAlreadyEnded])
       (reads w) (draws w))
  else if negb (started (base o)) then
    (Some tt,
     mkWorld (heap w) (trace w ++ [Log a WARN EndNotStarted])
       (reads w) (draws w))
  else
    let o1 := with_base (with_data (set_endTime (clock (reads w)))) o in
    let h1 := <[a := o1]> (heap w) in
    let r := forEach (invoke stack h1 a 0 OnEndSpan (data (base o1)))
               (listeners (base o1)) in
    if r.2 then
      (Some tt,
       mkWorld (<[a := with_base (with_listeners []) o1]> h1)
         (trace w ++ r.1) (S (reads w)) (draws w))
    else
      (None, mkWorld h1 (trace w ++ r.1) (S (reads w)) (draws w)).
Proof.
  intros Ha.
  unfold BaseSpan_end, bind, get. rewrite Ha.
  destruct (ended (base o)); [reflexivity|].
  destruct (started (base o)); [|reflexivity].
  unfold now, modify, bind, get, put, notify, bind, get, set_heap. simpl.
  rewrite Ha. simpl. rewrite lookup_insert_eq.
  destruct (forEach _ _) as [evs ok]. simpl. destruct ok; [|reflexivity].
  simpl. rewrite lookup_insert_eq. reflexivity.
Qed.

End Effects.

(** ** Invariants of computations *)

Section Keeps.

Variable I : World → Prop.
Variable R : World → World → Prop.
Hypothesis R_refl : ∀ w, R w w.
Hypothesis R_trans : ∀ w1 w2 w3, R w1 w2 → R w2 w3 → R w1 w3.

Lemma keeps_ret {A} (a : A) : keeps I R (ret a).
Proof. intros w Hw. simpl. auto. Qed.

Lemma keeps_throw {A} : keeps I R (@throw A).
Proof. intros w Hw. simpl. auto. Qed.

Lemma keeps_get (a : addr) : keeps I R (get a).
Proof. intros w Hw. simpl. auto. Qed.

Lemma keeps_bind {A B} (m : M A) (k : A → M B) :
  keeps I R m → (∀ x, keeps I R (k x)) → keeps I R (bind m k).
Proof.
  intros Hm Hk w Hw. unfold bind.
  destruct (Hm w Hw) as [HI HR].
  destruct (m w) as [[x|] w1]; simpl in *; [|auto].
  destruct (Hk x w1 HI) as [HI' HR']. eauto.
Qed.

Lemma keeps_forM {A} (xs : list A) (body : A → M unit) :
  (∀ x, keeps I R (body x)) → keeps I R (forM xs body).
Proof.
  intros Hbody. induction xs as [|x xs IH]; simpl.
  - apply keeps_ret.
  - apply keeps_bind; auto.
Qed.

Lemma keeps_truncate_with (e : addr → M unit) (a : addr) :
  keeps I R (modify a (with_base (with_truncated true))) →
  keeps I R (e a) →
  keeps I R (log a DEBUG Truncating) →
  keeps I R (truncate_with e a).
Proof.
  intros H1 H2 H3. unfold truncate_with.
  repeat (apply keeps_bind; [assumption|intros _]). assumption.
Qed.

End Keeps.

Lemma stable_refl (b : BaseSpan) : stable b b.
Proof. unfold stable. tauto. Qed.

Lemma started_same (b b' : BaseSpan) :
  startTime (data b') = startTime (data b) → started b' = started b.
Proof. unfold started. by intros ->. Qed.

Lemma ended_same (b b' : BaseSpan) :
  endTime (data b') = endTime (data b) → ended b' = ended b.
Proof. unfold ended. by intros ->. Qed.

Lemma stable_trans (b1 b2 b3 : BaseSpan) :
  stable b1 b2 → stable b2 b3 → stable b1 b3.
Proof.
  unfold stable.
  intros (H1 & H2 & H3 & H4 & H5 & H6) (K1 & K2 & K3 & K4 & K5 & K6).
  repeat split; try congruence.
  - intros Hs. rewrite K5, H5; auto.
    rewrite (started_same b1 b2); auto.
  - intros He. rewrite K6, H6; auto.
    rewrite (ended_same b1 b2); auto.
Qed.

Lemma evolves_refl (o : Span) : evolves o o.
Proof. destruct o; simpl; auto using stable_refl. Qed.

Lemma evolves_trans (o1 o2 o3 : Span) :
  evolves o1 o2 → evolves o2 o3 → evolves o1 o3.
Proof.
  destruct o1, o2, o3; simpl; try tauto.
  - intros [H1 P1] [H2 P2]. split; [eauto using stable_trans|].
    by etrans.
  - eauto using stable_trans.
Qed.

Lemma evolves_stable (o o' : Span) :
  evolves o o' → stable (base o) (base o').
Proof. destruct o, o'; simpl; tauto. Qed.

Lemma heap_evolves_refl (h : gmap addr Span) : heap_evolves h h.
Proof. intros a o Ha. eauto using evolves_refl. Qed.

Lemma heap_evolves_trans (h1 h2 h3 : gmap addr Span) :
  heap_evolves h1 h2 → heap_evolves h2 h3 → heap_evolves h1 h3.
Proof.
  intros H12 H23 a o Ha.
  destruct (H12 a o Ha) as (o2 & Ha2 & E12).
  destruct (H23 a o2 Ha2) as (o3 & Ha3 & E23).
  eauto using evolves_trans.
Qed.

Lemma heap_evolves_insert (h : gmap addr Span) (a : addr) (o o' : Span) :
  h !! a = Some o → evolves o o' → heap_evolves h (<[a := o']> h).
Proof.
  intros Ha Ho c oc Hc.
  destruct (decide (a = c)) as [->|Hne].
  - rewrite lookup_insert_eq. exists o'. split; [done|congruence].
  - rewrite lookup_insert_ne by done. eauto using evolves_refl.
Qed.

Lemma heap_evolves_alloc (h : gmap addr Span) (o : Span) :
  heap_evolves h (<[fresh (dom h) := o]> h).
Proof.
  intros c oc Hc.
  assert (fresh (dom h) ≠ c) as Hne.
  { intros <-. apply (is_fresh (dom h)). apply elem_of_dom. eauto. }
  rewrite lookup_insert_ne by done. eauto using evolves_refl.
Qed.

(** ** Every method lets the objects evolve *)

Lemma grows_intro {A} (m : M A) :
  (∀ w, heap_evolves (heap w) (heap (m w).2)) → grows m.
Proof. intros H w _. split; [exact Logic.I|apply H]. Qed.

Lemma grows_ret {A} (a : A) : grows (ret a).
Proof. apply grows_intro. intros w. apply heap_evolves_refl. Qed.

Lemma grows_throw {A} : grows (@throw A).
Proof. apply grows_intro. intros w. apply heap_evolves_refl. Qed.

Lemma grows_get (a : addr) : grows (get a).
Proof. apply grows_intro. intros w. apply heap_evolves_refl. Qed.

Lemma grows_emit (evs : list Event) : grows (emit evs).
Proof. apply grows_intro. intros w. apply heap_evolves_refl. Qed.

Lemma grows_log (a : addr) (lvl : Level) (msg : Message) :
  grows (log a lvl msg).
Proof. apply grows_emit. Qed.

Lemma grows_now (clock : nat → Z) : grows (now clock).
Proof. apply grows_intro. intros w. apply heap_evolves_refl. Qed.

Lemma grows_draw (rnd : nat → string) : grows (draw rnd).
Proof. apply grows_intro. intros w. apply heap_evolves_refl. Qed.

Lemma grows_bind {A B} (m : M A) (k : A → M B) :
  grows m → (∀ x, grows (k x)) → grows (bind m k).
Proof.
  apply keeps_bind. intros w1 w2 w3. apply heap_evolves_trans.
Qed.

Lemma grows_forM {A} (xs : list A) (body : A → M unit) :
  (∀ x, grows (body x)) → grows (forM xs body).
Proof.
  apply keeps_forM.
  - intros w. apply heap_evolves_refl.
  - intros w1 w2 w3. apply heap_evolves_trans.
Qed.

Lemma grows_alloc (o : Span) : grows (alloc o).
Proof. apply grows_intro. intros w. apply heap_evolves_alloc. Qed.

Lemma grows_modify (a : addr) (f : Span → Span) :
  (∀ o, evolves o (f o)) → grows (modify a f).
Proof.
  intros Hf. apply grows_intro. intros w.
  unfold modify, bind, get, put.
  destruct (heap w !! a) as [o|] eqn:Ha; simpl.
  - by apply (heap_evolves_insert _ _ o).
  - apply heap_evolves_refl.
Qed.

Lemma evolves_with_base (f : BaseSpan → BaseSpan) (o : Span) :
  stable (base o) (f (base o)) → evolves o (with_base f o).
Proof. destruct o; simpl; auto. Qed.

Lemma grows_method (a : addr) (f : BaseSpan → BaseSpan) :
  (∀ b, stable b (f b)) → grows (modify a (with_base f)).
Proof.
  intros Hf. apply grows_modify. intros o. by apply evolves_with_base.
Qed.

Lemma stable_same_data (b b' : BaseSpan) : data b' = data b → stable b b'.
Proof. unfold stable. intros ->. tauto. Qed.

Lemma grows_notify (stack : nat) (a : addr) (hook : Hook) :
  grows (notify stack a hook).
Proof.
  apply grows_intro. intros w. unfold notify, bind, get.
  destruct (heap w !! a) as [o|]; simpl; [|apply heap_evolves_refl].
  destruct (forEach _ _) as [evs ok]. apply heap_evolves_refl.
Qed.

(** A method that writes neither the identity of the span nor a time
    stamp lets the object evolve. *)
Ltac method_is_stable :=
  apply grows_method; intros ?;
  first [ by apply stable_same_data | unfold stable; simpl; tauto ].

Section Grows.

Variable clock : nat → Z.
Variable randomSpanId : nat → string.
Variable uuid_v4 : nat → string.
Variable stack : nat.

Lemma grows_BaseSpan_start (a : addr) : grows (BaseSpan_start clock stack a).
Proof.
  apply grows_intro. intros w.
  destruct (heap w !! a) as [o|] eqn:Ha.
  - rewrite (BaseSpan_start_eq clock stack a w o Ha).
    destruct (started (base o)) eqn:Hs; simpl; [apply heap_evolves_refl|].
    apply (heap_evolves_insert _ _ o); [done|].
    apply evolves_with_base. unfold stable. simpl.
    repeat split; auto. congruence.
  - unfold BaseSpan_start, bind, get. rewrite Ha. apply heap_evolves_refl.
Qed.

Lemma grows_BaseSpan_end (a : addr) : grows (BaseSpan_end clock stack a).
Proof.
  apply grows_intro. intros w.
  destruct (heap w !! a) as [o|] eqn:Ha.
  - rewrite (BaseSpan_end_eq clock stack a w o Ha).
    destruct (ended (base o)) eqn:He; simpl; [apply heap_evolves_refl|].
    destruct (started (base o)) eqn:Hs; simpl; [|apply heap_evolves_refl].
    assert (evolves o (with_base (with_data (set_endTime (clock (reads w))))
                         o)) as E1.
    { apply evolves_with_base. unfold stable. simpl.
      repeat split; auto. congruence. }
    destruct (forEach _ _) as [evs ok]. destruct ok; simpl.
    + rewrite insert_insert_eq.
      apply (heap_evolves_insert _ _ o); [done|].
      eapply evolves_trans; [exact E1|].
      apply evolves_with_base. by apply stable_same_data.
    + by apply (heap_evolves_insert _ _ o).
  - unfold BaseSpan_end, bind, get. rewrite Ha. apply heap_evolves_refl.
Qed.

Lemma grows_truncate_with (e : addr → M unit) (a : addr) :
  grows (e a) → grows (truncate_with e a).
Proof.
  intros He. unfold truncate_with.
  apply grows_bind; [|intros _; apply grows_bind;
                       [exact He|intros _; apply grows_log]].
  method_is_stable.
Qed.

Lemma grows_RootSpan_end (r : addr) : grows (RootSpan_end clock stack r).
Proof.
  unfold RootSpan_end.
  apply grows_bind; [apply grows_get|]. intros [b kids|b];
    [|apply grows_throw].
  apply grows_bind; [|intros _; apply grows_BaseSpan_end].
  apply grows_forM. intros c.
  apply grows_bind; [apply grows_get|]. intros [b' kids'|s];
    [apply grows_throw|].
  destruct (negb (ended s) && started s); [|apply grows_ret].
  apply grows_truncate_with, grows_BaseSpan_end.
Qed.

Lemma grows_end_ (a : addr) : grows (end_ clock stack a).
Proof.
  unfold end_. apply grows_bind; [apply grows_get|].
  intros [b kids|b]; [apply grows_RootSpan_end|apply grows_BaseSpan_end].
Qed.

Lemma grows_truncate (a : addr) : grows (truncate clock stack a).
Proof. apply grows_truncate_with, grows_end_. Qed.

Lemma grows_startChildSpan (r : addr) (nm : string) (k : option SpanKind) :
  grows (startChildSpan clock randomSpanId stack r nm k).
Proof.
  unfold startChildSpan.
  apply grows_bind; [apply grows_get|]. intros [b kids|b];
    [|apply grows_throw].
  destruct (ended b).
  { apply grows_bind; [apply grows_log|intros _; apply grows_ret]. }
  destruct (negb (started b)).
  { apply grows_bind; [apply grows_log|intros _; apply grows_ret]. }
  apply grows_bind; [apply grows_draw|]. intros rnd.
  apply grows_bind; [apply grows_alloc|]. intros c.
  apply grows_bind; [method_is_stable|].
  intros _. apply grows_bind; [apply grows_BaseSpan_start|]. intros _.
  apply grows_bind; [|intros _; apply grows_ret].
  apply grows_modify. intros [s kids'|s]; simpl.
  - split; [apply stable_refl|]. by apply prefix_app_r.
  - apply stable_refl.
Qed.

Lemma grows_exec (op : Op) :
  grows (exec clock randomSpanId uuid_v4 stack op).
Proof.
  destruct op; simpl; try method_is_stable.
  - apply grows_bind; [apply grows_draw|]. intros rnd.
    apply grows_bind; [apply grows_draw|]. intros uuid.
    apply grows_bind; [apply grows_alloc|intros _; apply grows_ret].
  - apply grows_bind; [apply grows_draw|]. intros rnd.
    apply grows_bind; [apply grows_alloc|intros _; apply grows_ret].
  - apply grows_BaseSpan_start.
  - apply grows_end_.
  - apply grows_truncate.
  - apply grows_bind; [apply grows_startChildSpan|intros _; apply grows_ret].
Qed.

Lemma run_evolves (ops : list Op) (w : World) :
  heap_evolves (heap w) (heap (run clock randomSpanId uuid_v4 stack ops w)).
Proof.
  revert w. induction ops as [|op ops IH]; intros w; simpl.
  - apply heap_evolves_refl.
  - eapply heap_evolves_trans; [|apply IH].
    by apply (grows_exec op w).
Qed.

End Grows.

(** ** After the release of the listeners *)

Lemma calls_by_app (a : addr) (xs ys : list Event) :
  calls_by a (xs ++ ys) = calls_by a xs ++ calls_by a ys.
Proof. unfold calls_by. apply List.filter_app. Qed.

Lemma calls_by_nil (a : addr) (evs : list Event) :
  Forall (not_by a) evs → calls_by a evs = [].
Proof.
  induction 1 as [|e es He _ IH]; [reflexivity|].
  unfold calls_by in *. simpl.
  destruct e as [c k l hk d|]; simpl in *; [|exact IH].
  rewrite bool_decide_eq_false_2 by done. exact IH.
Qed.

Lemma silent_same_trace (a : addr) (w w' : World) :
  trace w' = trace w → silent a w w'.
Proof. intros H. exists []. by rewrite app_nil_r. Qed.

Lemma silent_refl (a : addr) (w : World) : silent a w w.
Proof. by apply silent_same_trace. Qed.

Lemma silent_trans (a : addr) (w1 w2 w3 : World) :
  silent a w1 w2 → silent a w2 w3 → silent a w1 w3.
Proof.
  intros (e1 & H1 & C1) (e2 & H2 & C2). exists (e1 ++ e2).
  rewrite H2, H1, <- app_assoc, calls_by_app, C1, C2. auto.
Qed.

Lemma quiet_intro (a : addr) {A} (m : M A) :
  (∀ w, released a w → released a (m w).2 ∧ silent a w (m w).2) →
  quiet a m.
Proof. auto. Qed.

Lemma quiet_ret (a : addr) {A} (x : A) : quiet a (ret x).
Proof. apply keeps_ret, silent_refl. Qed.

Lemma quiet_throw (a : addr) {A} : quiet a (@throw A).
Proof. apply keeps_throw, silent_refl. Qed.

Lemma quiet_get (a c : addr) : quiet a (get c).
Proof. apply keeps_get, silent_refl. Qed.

Lemma quiet_bind (a : addr) {A B} (m : M A) (k : A → M B) :
  quiet a m → (∀ x, quiet a (k x)) → quiet a (bind m k).
Proof. apply keeps_bind, silent_trans. Qed.

Lemma quiet_forM (a : addr) {A} (xs : list A) (body : A → M unit) :
  (∀ x, quiet a (body x)) → quiet a (forM xs body).
Proof. apply keeps_forM; [apply silent_refl|apply silent_trans]. Qed.

Lemma quiet_log (a c : addr) (lvl : Level) (msg : Message) :
  quiet a (log c lvl msg).
Proof.
  intros w Hw. split; [exact Hw|]. by exists [Log c lvl msg].
Qed.

Lemma quiet_now (a : addr) (clock : nat → Z) : quiet a (now clock).
Proof.
  intros w Hw. split; [exact Hw|]. exists []. simpl. by rewrite app_nil_r.
Qed.

Lemma quiet_draw (a : addr) (rnd : nat → string) : quiet a (draw rnd).
Proof.
  intros w Hw. split; [exact Hw|]. exists []. simpl. by rewrite app_nil_r.
Qed.

Lemma quiet_modify_other (a c : addr) (f : Span → Span) :
  c ≠ a → quiet a (modify c f).
Proof.
  intros Hne w (o & Ha & Hl). unfold modify, bind, get, put.
  destruct (heap w !! c) as [oc|]; simpl.
  - split; [|by apply silent_same_trace]. exists o. simpl.
    by rewrite lookup_insert_ne.
  - split; [by exists o|by apply silent_same_trace].
Qed.

Lemma quiet_modify (a c : addr) (f : Span → Span) :
  (∀ o, listeners (base o) = [] → listeners (base (f o)) = []) →
  quiet a (modify c f).
Proof.
  intros Hf. destruct (decide (c = a)) as [->|Hne];
    [|by apply quiet_modify_other].
  intros w (o & Ha & Hl). unfold modify, bind, get, put. rewrite Ha. simpl.
  split; [|by apply silent_same_trace]. exists (f o). simpl.
  rewrite lookup_insert_eq. auto.
Qed.

Lemma quiet_method (a c : addr) (f : BaseSpan → BaseSpan) :
  (∀ b, listeners b = [] → listeners (f b) = []) →
  quiet a (modify c (with_base f)).
Proof. intros Hf. apply quiet_modify. intros [b kids|b]; simpl; auto. Qed.

(** Allocation returns an address other than [a]. *)
Lemma quiet_alloc_bind (a : addr) {B} (o : Span) (k : addr → M B) :
  (∀ c, c ≠ a → quiet a (k c)) → quiet a (bind (alloc o) k).
Proof.
  intros Hk w (oa & Ha & Hl). unfold bind, alloc.
  assert (fresh (dom (heap w)) ≠ a) as Hne.
  { intros <-. apply (is_fresh (dom (heap w))). apply elem_of_dom. eauto. }
  destruct (Hk _ Hne (set_heap (<[fresh (dom (heap w)) := o]> (heap w)) w))
    as [HI HS].
  { exists oa. simpl. by rewrite lookup_insert_ne. }
  split; [exact HI|].
  eapply silent_trans; [|exact HS]. by apply silent_same_trace.
Qed.

Lemma invoke_not_by (a : addr) (fuel : nat) (h : gmap addr Span)
    (caller : addr) (depth : nat) (hook : Hook) (d : SpanData)
    (l : Listener) :
  (∀ ls, relay_view h a = Some ls → ls = []) →
  caller ≠ a →
  Forall (not_by a) (invoke fuel h caller depth hook d l).1.
Proof.
  intros Ha. revert caller depth l.
  induction fuel as [|n IH]; intros caller depth [i|r] Hne; simpl.
  - repeat constructor. exact Hne.
  - destruct (h !! r) as [[b kids|b]|]; constructor.
  - repeat constructor. exact Hne.
  - destruct (h !! r) as [[b kids|b]|] eqn:Hr; try constructor.
    pose proof (forEach_Forall (not_by a) (invoke n h r (S depth) hook d)
                  (listeners b)) as Hall.
    destruct (decide (r = a)) as [->|Hra].
    + rewrite (Ha (listeners b)); [simpl; repeat constructor; exact Hne|].
      unfold relay_view. by rewrite Hr.
    + destruct (forEach _ _) as [es ok]. simpl in *.
      constructor; [exact Hne|]. apply Hall. intros x _. by apply IH.
Qed.

Lemma quiet_notify (a : addr) (stack : nat) (c : addr) (hook : Hook) :
  quiet a (notify stack c hook).
Proof.
  intros w (o & Ha & Hl). unfold notify, bind, get.
  destruct (heap w !! c) as [oc|] eqn:Hc; simpl;
    [|split; [by exists o|apply silent_refl]].
  pose proof (forEach_Forall (not_by a)
                (invoke stack (heap w) c 0 hook (data (base oc)))
                (listeners (base oc))) as Hall.
  destruct (decide (c = a)) as [->|Hne].
  - assert (oc = o) as -> by congruence. rewrite Hl. simpl.
    split; [by exists o|]. exists []. by rewrite app_nil_r.
  - destruct (forEach _ _) as [evs ok]. simpl in *.
    split; [by exists o|]. exists evs. split; [reflexivity|].
    apply calls_by_nil, Hall. intros x _. apply invoke_not_by; [|exact Hne].
    intros ls. unfold relay_view. rewrite Ha.
    destruct o; [|discriminate]. simpl in Hl. congruence.
Qed.

Section Quiet.

Variable clock : nat → Z.
Variable randomSpanId : nat → string.
Variable uuid_v4 : nat → string.
Variable stack : nat.
Variable a : addr.

Lemma quiet_BaseSpan_start (c : addr) : quiet a (BaseSpan_start clock stack c).
Proof.
  unfold BaseSpan_start.
  apply quiet_bind; [apply quiet_get|]. intros o.
  destruct (started (base o)); [apply quiet_log|].
  apply quiet_bind; [apply quiet_now|]. intros t.
  apply quiet_bind; [|intros _; apply quiet_notify].
  apply quiet_method. auto.
Qed.

Lemma quiet_BaseSpan_end (c : addr) : quiet a (BaseSpan_end clock stack c).
Proof.
  unfold BaseSpan_end.
  apply quiet_bind; [apply quiet_get|]. intros o.
  destruct (ended (base o)); [apply quiet_log|].
  destruct (negb (started (base o))); [apply quiet_log|].
  apply quiet_bind; [apply quiet_now|]. intros t.
  apply quiet_bind; [apply quiet_method; auto|]. intros _.
  apply quiet_bind; [apply quiet_notify|]. intros _.
  apply quiet_method. auto.
Qed.

Lemma quiet_truncate_with (e : addr → M unit) (c : addr) :
  quiet a (e c) → quiet a (truncate_with e c).
Proof.
  intros He. unfold truncate_with.
  apply quiet_bind; [apply quiet_method; auto|]. intros _.
  apply quiet_bind; [exact He|]. intros _. apply quiet_log.
Qed.

Lemma quiet_RootSpan_end (r : addr) : quiet a (RootSpan_end clock stack r).
Proof.
  unfold RootSpan_end.
  apply quiet_bind; [apply quiet_get|]. intros [b kids|b];
    [|apply quiet_throw].
  apply quiet_bind; [|intros _; apply quiet_BaseSpan_end].
  apply quiet_forM. intros c.
  apply quiet_bind; [apply quiet_get|]. intros [b' kids'|s];
    [apply quiet_throw|].
  destruct (negb (ended s) && started s); [|apply quiet_ret].
  apply quiet_truncate_with, quiet_BaseSpan_end.
Qed.

Lemma quiet_end_ (c : addr) : quiet a (end_ clock stack c).
Proof.
  unfold end_. apply quiet_bind; [apply quiet_get|].
  intros [b kids|b]; [apply quiet_RootSpan_end|apply quiet_BaseSpan_end].
Qed.

Lemma quiet_truncate (c : addr) : quiet a (truncate clock stack c).
Proof. apply quiet_truncate_with, quiet_end_. Qed.

Lemma quiet_startChildSpan (r : addr) (nm : string) (k : option SpanKind) :
  quiet a (startChildSpan clock randomSpanId stack r nm k).
Proof.
  unfold startChildSpan.
  apply quiet_bind; [apply quiet_get|]. intros [b kids|b];
    [|apply quiet_throw].
  destruct (ended b).
  { apply quiet_bind; [apply quiet_log|intros _; apply quiet_ret]. }
  destruct (negb (started b)).
  { apply quiet_bind; [apply quiet_log|intros _; apply quiet_ret]. }
  apply quiet_bind; [apply quiet_draw|]. intros rnd.
  apply quiet_alloc_bind. intros c Hc.
  apply quiet_bind; [by apply quiet_modify_other|]. intros _.
  apply quiet_bind; [apply quiet_BaseSpan_start|]. intros _.
  apply quiet_bind; [|intros _; apply quiet_ret].
  apply quiet_modify. intros [s kids'|s]; auto.
Qed.

Lemma quiet_exec (op : Op) :
  ¬ registers_on a op →
  quiet a (exec clock randomSpanId uuid_v4 stack op).
Proof.
  intros Hop. destruct op; simpl in *;
    try (apply quiet_method; intros s Hs; simpl; by rewrite ?Hs).
  - apply quiet_bind; [apply quiet_draw|]. intros rnd.
    apply quiet_bind; [apply quiet_draw|]. intros uuid.
    apply quiet_alloc_bind. intros c _. apply quiet_ret.
  - apply quiet_bind; [apply quiet_draw|]. intros rnd.
    apply quiet_alloc_bind. intros c _. apply quiet_ret.
  - apply quiet_BaseSpan_start.
  - apply quiet_end_.
  - apply quiet_truncate.
  - apply quiet_bind; [apply quiet_startChildSpan|intros _; apply quiet_ret].
  - by apply quiet_modify_other.
Qed.

Lemma run_quiet (ops : list Op) (w : World) :
  Forall (λ op, ¬ registers_on a op) ops →
  released a w →
  released a (run clock randomSpanId uuid_v4 stack ops w)
  ∧ silent a w (run clock randomSpanId uuid_v4 stack ops w).
Proof.
  intros Hops. revert w.
  induction Hops as [|op ops Hop _ IH]; intros w Hw; simpl.
  - split; [exact Hw|apply silent_refl].
  - destruct (quiet_exec op Hop w Hw) as [H1 S1].
    destruct (IH _ H1) as [H2 S2].
    split; [exact H2|]. eapply silent_trans; eauto.
Qed.

End Quiet.

(** ** Auxiliary facts on loops and allocation *)

Lemma forallb_pointwise {A} (f g : A → bool) (xs : list A) :
  (∀ x, f x = g x) → forallb f xs = forallb g xs.
Proof.
  intros H. induction xs as [|x xs IH]; simpl; [reflexivity|].
  by rewrite H, IH.
Qed.

Lemma flat_map_pointwise {A B} (f g : A → list B) (xs : list A) :
  (∀ x, x ∈ xs → f x = g x) → flat_map f xs = flat_map g xs.
Proof.
  induction xs as [|x xs IH]; intros H; simpl; [reflexivity|].
  rewrite (H x) by left. rewrite IH; [reflexivity|].
  intros y Hy. apply H. by right.
Qed.

Lemma relay_view_alloc_child (h : gmap addr Span) (c : addr)
    (s : BaseSpan) :
  h !! c = None →
  ∀ r, relay_view (<[c := ChildSpan s]> h) r = relay_view h r.
Proof.
  intros Hc r. unfold relay_view.
  destruct (decide (c = r)) as [->|Hne].
  - by rewrite lookup_insert_eq, Hc.
  - by rewrite lookup_insert_ne.
Qed.

Lemma fresh_unallocated (h : gmap addr Span) : h !! fresh (dom h) = None.
Proof. apply not_elem_of_dom, is_fresh. Qed.

Lemma forM_skip {A} (xs : list A) (body : A → M unit) (w : World) :
  (∀ x, x ∈ xs → body x w = (Some tt, w)) →
  forM xs body w = (Some tt, w).
Proof.
  induction xs as [|x xs IH]; intros H; simpl; [reflexivity|].
  unfold bind. rewrite (H x) by left.
  apply IH. intros y Hy. apply H. by right.
Qed.

(** ** The effect of the methods of a root span *)

Section RootEffects.

Variable clock : nat → Z.
Variable randomSpanId : nat → string.
Variable stack : nat.

Lemma BaseSpan_end_rejected (a : addr) (w : World) (o : Span) :
  heap w !! a = Some o →
  started (base o) = false ∨ ended (base o) = true →
  ∃ msg,
    BaseSpan_end clock stack a w =
    (Some tt,
     mkWorld (heap w) (trace w ++ [Log a WARN msg]) (reads w) (draws w)).
Proof.
  intros Ha Hst. rewrite (BaseSpan_end_eq clock stack a w o Ha).
  destruct (ended (base o)); [eauto|].
  destruct Hst as [->|?]; [eauto|discriminate].
Qed.

Lemma startChildSpan_eq (r : addr) (w : World) (b : BaseSpan)
    (kids : list addr) (nm : string) (k : option SpanKind) :
  heap w !! r = Some (RootSpan b kids) →
  startChildSpan clock randomSpanId stack r nm k w =
  if ended b then
    (Some None,
     mkWorld (heap w) (trace w ++ [Log r WARN ChildOnEndedRoot])
       (reads w) (draws w))
  else if negb (started b) then
    (Some None,
     mkWorld (heap w) (trace w ++ [Log r WARN ChildOnUnstartedRoot])
       (reads w) (draws w))
  else
    let c := fresh (dom (heap w)) in
    let s := started_child clock randomSpanId r b nm k w in
    let h1 := <[c := ChildSpan s]> (heap w) in
    let res := forEach (invoke stack h1 c 0 OnStartSpan (data s))
                 [Relay r] in
    if res.2 then
      (Some (Some c),
       mkWorld (<[r := RootSpan b (kids ++ [c])]> h1) (trace w ++ res.1)
         (S (reads w)) (S (draws w)))
    else
      (None, mkWorld h1 (trace w ++ res.1) (S (reads w)) (S (draws w))).
Proof.
  intros Hr.
  assert (fresh (dom (heap w)) ≠ r) as Hne.
  { intros E. apply (is_fresh (dom (heap w))). rewrite E.
    apply elem_of_dom. eauto. }
  unfold startChildSpan.
  rewrite (bind_eq _ _ w (Some (RootSpan b kids)) w)
    by (unfold get; by rewrite Hr).
  destruct (ended b); [reflexivity|].
  destruct (started b); [|reflexivity]. cbn [negb].
  erewrite bind_eq by reflexivity. cbv beta iota.
  erewrite bind_eq by reflexivity. cbv beta iota.
  erewrite bind_eq by (apply modify_eq; apply lookup_insert_eq).
  cbv beta iota. cbn [heap set_heap trace reads draws].
  rewrite insert_insert_eq.
  erewrite bind_eq.
  2:{ erewrite BaseSpan_start_eq by apply lookup_insert_eq. reflexivity. }
  cbn [heap set_heap trace reads draws fst snd with_base with_data
       set_startTime data base listeners traceId spanId parentSpanId name
       kind startTime endTime attributes stackTrace timeEvents links status
       sameProcessAsParentSpan truncated ChildSpan_new BaseSpan_new
       registerSpanEventListener with_listeners createSpanData assign_spanId
       set_sameProcessAsParentSpan default app].
  rewrite insert_insert_eq.
  unfold started_child.
  destruct (forEach _ _) as [evs ok]. cbn [fst snd].
  destruct ok; [|reflexivity].
  erewrite bind_eq.
  2:{ apply modify_eq. cbn [heap].
      rewrite lookup_insert_ne by exact Hne. exact Hr. }
  reflexivity.
Qed.

Lemma RootSpan_end_loop (r : addr) (w : World) (b : BaseSpan)
    (kids : list addr) :
  heap w !! r = Some (RootSpan b kids) →
  RootSpan_end clock stack r w =
  bind (forM kids (truncate_open_child clock stack))
    (λ _, BaseSpan_end clock stack r) w.
Proof.
  intros Hr. unfold RootSpan_end.
  rewrite (bind_eq _ _ w (Some (RootSpan b kids)) w)
    by (unfold get; by rewrite Hr).
  reflexivity.
Qed.

Lemma BaseSpan_end_appends (a : addr) (w : World) :
  ∃ evs, trace (BaseSpan_end clock stack a w).2 = trace w ++ evs.
Proof.
  destruct (heap w !! a) as [o|] eqn:Ha.
  - rewrite (BaseSpan_end_eq clock stack a w o Ha).
    destruct (ended (base o)); [eauto|].
    destruct (negb (started (base o))); [eauto|]. cbv zeta.
    destruct (forEach _ _) as [evs ok]. destruct ok; cbn [fst snd trace];
      eauto.
  - unfold BaseSpan_end, bind, get. rewrite Ha. exists []. simpl.
    by rewrite app_nil_r.
Qed.

Lemma BaseSpan_end_frame (a c : addr) (w : World) :
  c ≠ a → heap (BaseSpan_end clock stack a w).2 !! c = heap w !! c.
Proof.
  intros Hne. destruct (heap w !! a) as [o|] eqn:Ha.
  - rewrite (BaseSpan_end_eq clock stack a w o Ha).
    destruct (ended (base o)); [reflexivity|].
    destruct (negb (started (base o))); [reflexivity|]. cbv zeta.
    destruct (forEach _ _) as [evs ok]. destruct ok; cbn [fst snd heap].
    + by rewrite !lookup_insert_ne.
    + by rewrite lookup_insert_ne.
  - unfold BaseSpan_end, bind, get. by rewrite Ha.
Qed.

(** One turn of the loop. *)
Lemma truncate_open_child_eq (c : addr) (w : World) (s : BaseSpan) :
  heap w !! c = Some (ChildSpan s) →
  forallb (relays_ok stack (heap w)) (listeners s) = true →
  let s' := forced_end (clock (reads w)) s in
  ∃ evs,
    truncate_open_child clock stack c w =
    (Some tt,
     if open s then
       mkWorld (<[c := ChildSpan s']> (heap w)) (trace w ++ evs)
         (S (reads w)) (draws w)
     else w)
    ∧ hook_calls evs = map (λ l, (c, l, OnEndSpan, data s')) (listeners s).
Proof.
  intros Hc Hrel s'. unfold truncate_open_child.
  rewrite (bind_eq _ _ w (Some (ChildSpan s)) w)
    by (unfold get; by rewrite Hc).
  unfold open. destruct (negb (ended s) && started s) eqn:Hopen.
  2:{ exists (forEach (invoke stack (heap w) c 0 OnEndSpan (data s'))
                (listeners s)).1.
      split; [reflexivity|].
      by apply round_hook_calls. }
  apply andb_true_iff in Hopen as [He Hs]. apply negb_true_iff in He.
  set (h1 := <[c := ChildSpan (with_data (set_endTime (clock (reads w)))
                                 (with_truncated true s))]> (heap w)).
  destruct (round_hook_calls stack h1 c OnEndSpan (data s') (listeners s))
    as [Hok Hcalls].
  { rewrite <- Hrel. apply forallb_pointwise. intros l. apply relays_ok_ext.
    subst h1. apply (relay_view_insert _ _ (ChildSpan s)); done. }
  set (evs := (forEach (invoke stack h1 c 0 OnEndSpan (data s'))
                 (listeners s)).1) in *.
  assert (BaseSpan_end clock stack c
            (set_heap (<[c := ChildSpan (with_truncated true s)]> (heap w)) w)
          = (Some tt,
             mkWorld (<[c := ChildSpan s']> (heap w)) (trace w ++ evs)
               (S (reads w)) (draws w))) as Hend.
  { erewrite BaseSpan_end_eq
      by (cbn [heap set_heap]; apply lookup_insert_eq).
    cbn [base with_base].
    assert (ended (with_truncated true s) = false) as -> by exact He.
    assert (started (with_truncated true s) = true) as -> by exact Hs.
    cbn [negb]. cbv zeta.
    cbn [heap set_heap trace reads draws base with_base listeners
         with_data].
    rewrite !insert_insert_eq. fold h1.
    change (data (with_data (set_endTime (clock (reads w)))
                    (with_truncated true s))) with (data s').
    change (listeners (with_truncated true s)) with (listeners s).
    fold evs. rewrite Hok. reflexivity. }
  exists (evs ++ [Log c DEBUG Truncating]).
  split.
  - unfold truncate_with.
    erewrite bind_eq by (apply modify_eq; exact Hc). cbv beta iota.
    rewrite (bind_eq _ _ _ _ _ Hend).
    unfold log, emit. cbn [heap trace reads draws].
    by rewrite <- app_assoc.
  - rewrite hook_calls_app, Hcalls. apply app_nil_r.
Qed.

End RootEffects.

Section RootLoop.

Variable clock : nat → Z.
Variable stack : nat.

(** The loop truncates the open children, in the order of the list, and
    touches nothing else. *)
Lemma truncate_loop (kids : list addr) (w : World) :
  NoDup kids →
  (∀ c, c ∈ kids →
     ∃ s, heap w !! c = Some (ChildSpan s)
          ∧ forallb (relays_ok stack (heap w)) (listeners s) = true) →
  ∃ wm evs,
    forM kids (truncate_open_child clock stack) w = (Some tt, wm)
    ∧ trace wm = trace w ++ evs
    ∧ hook_calls evs = flat_map (end_hooks_of w wm) kids
    ∧ (∀ a, a ∉ kids → heap wm !! a = heap w !! a)
    ∧ (∀ c s, c ∈ kids → heap w !! c = Some (ChildSpan s) →
         ∃ n, heap wm !! c
              = Some (ChildSpan (if open s then forced_end (clock n) s
                                 else s))).
Proof.
  revert w. induction kids as [|c0 rest IH]; intros w Hnd Hkids.
  { exists w, []. simpl. rewrite app_nil_r.
    repeat split; auto. intros c s Hc. by apply elem_of_nil in Hc. }
  apply NoDup_cons in Hnd as [Hc0 Hnd].
  destruct (Hkids c0 ltac:(left)) as (s0 & Hs0 & Hrel0).
  destruct (truncate_open_child_eq clock stack c0 w s0 Hs0 Hrel0)
    as (evs0 & Hstep & Hcalls0).
  set (s0' := forced_end (clock (reads w)) s0) in *.
  set (w' := if open s0 then
               mkWorld (<[c0 := ChildSpan s0']> (heap w)) (trace w ++ evs0)
                 (S (reads w)) (draws w)
             else w) in *.
  assert (∀ a, a ≠ c0 → heap w' !! a = heap w !! a) as F1.
  { intros a Ha. subst w'. destruct (open s0); [|reflexivity].
    cbn [heap]. by rewrite lookup_insert_ne. }
  assert (∀ a, relay_view (heap w') a = relay_view (heap w) a) as F2.
  { subst w'. destruct (open s0); [|reflexivity]. cbn [heap].
    by apply (relay_view_insert _ _ (ChildSpan s0)). }
  assert (heap w' !! c0 = Some (ChildSpan (if open s0 then s0' else s0)))
    as F3.
  { subst w'. destruct (open s0); [|exact Hs0].
    cbn [heap]. apply lookup_insert_eq. }
  assert (trace w' = trace w ++ (if open s0 then evs0 else [])) as F4.
  { subst w'. destruct (open s0); [reflexivity|]. by rewrite app_nil_r. }
  destruct (IH w' Hnd) as (wm & evs' & Hloop & Htrace & Hcalls & Hframe & Hch).
  { intros c Hc. destruct (Hkids c ltac:(by right)) as (s & Hs & Hrel).
    assert (c ≠ c0) as Hne by (intros ->; contradiction).
    exists s. rewrite F1 by exact Hne. split; [exact Hs|].
    rewrite <- Hrel. apply forallb_pointwise. intros l.
    by apply relays_ok_ext. }
  exists wm, ((if open s0 then evs0 else []) ++ evs').
  assert (heap wm !! c0 = Some (ChildSpan (if open s0 then s0' else s0)))
    as Hm0.
  { rewrite Hframe by exact Hc0. exact F3. }
  split; [|split; [|split; [|split]]].
  - cbn [forM]. rewrite (bind_eq _ _ _ _ _ Hstep). exact Hloop.
  - rewrite Htrace, F4. by rewrite app_assoc.
  - rewrite hook_calls_app, Hcalls. cbn [flat_map]. f_equal.
    + unfold end_hooks_of. rewrite Hs0, Hm0.
      destruct (open s0); [exact Hcalls0|reflexivity].
    + apply flat_map_pointwise. intros c Hc.
      assert (c ≠ c0) as Hne by (intros ->; contradiction).
      unfold end_hooks_of. by rewrite F1.
  - intros a Ha. apply not_elem_of_cons in Ha as [Ha0 Ha].
    rewrite Hframe by exact Ha. by apply F1.
  - intros c s Hc Hs. apply elem_of_cons in Hc as [->|Hc].
    + assert (s = s0) as -> by congruence.
      exists (reads w). exact Hm0.
    + assert (c ≠ c0) as Hne by (intros ->; contradiction).
      apply (Hch c s Hc). by rewrite F1.
Qed.

End RootLoop.

(** ** The interface keeps the heap well formed *)

Lemma wf_heap_insert (h : gmap addr Span) (a : addr) (o o' : Span) :
  wf_heap h →
  h !! a = Some o →
  match o, o' with
  | RootSpan b kids, RootSpan b' kids' =>
      kids' = kids
      ∧ (started b = true → started b' = true)
      ∧ (ended b' = true →
         ended b = true
         ∨ ∀ c, c ∈ kids → ∃ s, h !! c = Some (ChildSpan s) ∧ ended s = true)
  | ChildSpan s, ChildSpan s' =>
      (started s = true → started s' = true)
      ∧ (ended s = true → ended s' = true)
  | _, _ => False
  end →
  wf_heap (<[a := o']> h).
Proof.
  intros Hwf Ha Hstep r b kids Hr.
  destruct (decide (a = r)) as [->|Hne].
  - rewrite lookup_insert_eq in Hr. injection Hr as ->.
    destruct o as [b0 kids0|s0]; [|contradiction].
    destruct Hstep as (-> & Hst & Hen).
    destruct (Hwf r b0 kids0 Ha) as (Hnd & Hempty & Hkids).
    split; [exact Hnd|]. split.
    + intros Hs. apply Hempty. destruct (started b0); [|reflexivity].
      rewrite Hst in Hs; [discriminate|reflexivity].
    + intros c Hc. destruct (Hkids c Hc) as (s & Hs & Hss & Hse).
      assert (r ≠ c) as Hrc by (intros ->; congruence).
      exists s. rewrite lookup_insert_ne by exact Hrc.
      split; [exact Hs|]. split; [exact Hss|].
      intros Hb. destruct (Hen Hb) as [Hb0|Hall]; [auto|].
      destruct (Hall c Hc) as (s' & Hs' & He'). congruence.
  - rewrite lookup_insert_ne in Hr by exact Hne.
    destruct (Hwf r b kids Hr) as (Hnd & Hempty & Hkids).
    split; [exact Hnd|]. split; [exact Hempty|].
    intros c Hc. destruct (Hkids c Hc) as (s & Hs & Hss & Hse).
    destruct (decide (a = c)) as [->|Hac].
    + rewrite lookup_insert_eq.
      assert (o = ChildSpan s) as -> by congruence.
      destruct o' as [?|s']; [contradiction|].
      destruct Hstep as [Hst Hen]. exists s'. auto.
    + rewrite lookup_insert_ne by exact Hac. eauto.
Qed.

Lemma wf_heap_alloc (h : gmap addr Span) (c : addr) (o : Span) :
  wf_heap h →
  h !! c = None →
  match o with
  | RootSpan _ kids => kids = []
  | ChildSpan _ => True
  end →
  wf_heap (<[c := o]> h).
Proof.
  intros Hwf Hc Ho r b kids Hr.
  destruct (decide (c = r)) as [->|Hne].
  - rewrite lookup_insert_eq in Hr. injection Hr as ->. subst kids.
    split; [apply NoDup_nil_2|]. split; [reflexivity|].
    intros x Hx. by apply elem_of_nil in Hx.
  - rewrite lookup_insert_ne in Hr by exact Hne.
    destruct (Hwf r b kids Hr) as (Hnd & Hempty & Hkids).
    split; [exact Hnd|]. split; [exact Hempty|].
    intros x Hx. destruct (Hkids x Hx) as (s & Hs & Hrest).
    assert (c ≠ x) as Hcx by (intros ->; congruence).
    exists s. by rewrite lookup_insert_ne.
Qed.

Lemma wf_heap_push (h : gmap addr Span) (r c : addr) (b s : BaseSpan)
    (kids : list addr) :
  wf_heap h →
  h !! r = Some (RootSpan b kids) →
  started b = true →
  ended b = false →
  h !! c = Some (ChildSpan s) →
  started s = true →
  c ∉ kids →
  wf_heap (<[r := RootSpan b (kids ++ [c])]> h).
Proof.
  intros Hwf Hr Hsb Heb Hc Hss Hnew r' b' kids' Hr'.
  assert (∀ x s', h !! x = Some (ChildSpan s') →
                  <[r := RootSpan b (kids ++ [c])]> h !! x
                  = Some (ChildSpan s')) as Hkeep.
  { intros x s' Hx. rewrite lookup_insert_ne; [exact Hx|].
    intros ->. congruence. }
  destruct (decide (r = r')) as [<-|Hne].
  - rewrite lookup_insert_eq in Hr'. injection Hr' as <- <-.
    destruct (Hwf r b kids Hr) as (Hnd & _ & Hkids).
    split.
    { apply NoDup_app. split; [exact Hnd|]. split; [|apply NoDup_singleton].
      intros x Hx Hx'. apply list_elem_of_singleton in Hx' as ->.
      contradiction. }
    split; [congruence|].
    intros x Hx. apply elem_of_app in Hx as [Hx|Hx].
    + destruct (Hkids x Hx) as (s' & Hs' & Hrest).
      exists s'. split; [by apply Hkeep|exact Hrest].
    + apply list_elem_of_singleton in Hx as ->.
      exists s. split; [by apply Hkeep|]. split; [exact Hss|congruence].
  - rewrite lookup_insert_ne in Hr' by exact Hne.
    destruct (Hwf r' b' kids' Hr') as (Hnd & Hempty & Hkids).
    split; [exact Hnd|]. split; [exact Hempty|].
    intros x Hx. destruct (Hkids x Hx) as (s' & Hs' & Hrest).
    exists s'. split; [by apply Hkeep|exact Hrest].
Qed.

Section WellFormed.

Variable clock : nat → Z.
Variable randomSpanId : nat → string.
Variable uuid_v4 : nat → string.
Variable stack : nat.
Hypothesis clock_set : ∀ n, clock n ≠ UNINITIALIZED_DATE.

Lemma started_set_startTime (s : BaseSpan) (n : nat) :
  started (with_data (set_startTime (clock n)) s) = true.
Proof.
  unfold started. simpl. apply negb_true_iff, Z.eqb_neq, clock_set.
Qed.

Lemma ended_set_endTime (s : BaseSpan) (n : nat) :
  ended (with_data (set_endTime (clock n)) s) = true.
Proof.
  unfold ended. simpl. apply negb_true_iff, Z.eqb_neq, clock_set.
Qed.

Lemma wf_method (a : addr) (f : BaseSpan → BaseSpan) (w : World) :
  (∀ b, started (f b) = started b ∧ ended (f b) = ended b) →
  well_formed w →
  well_formed (modify a (with_base f) w).2.
Proof.
  intros Hf Hwf. unfold modify, bind, get, put.
  destruct (heap w !! a) as [o|] eqn:Ha; [|exact Hwf].
  apply (wf_heap_insert _ _ o); [exact Hwf|exact Ha|].
  destruct o as [b kids|s]; simpl; destruct (Hf b) as [-> ->] || idtac.
  - auto.
  - destruct (Hf s) as [-> ->]. auto.
Qed.

Lemma wf_BaseSpan_start (a : addr) (w : World) :
  well_formed w → well_formed (BaseSpan_start clock stack a w).2.
Proof.
  intros Hwf. destruct (heap w !! a) as [o|] eqn:Ha.
  - rewrite (BaseSpan_start_eq clock stack a w o Ha).
    destruct (started (base o)) eqn:Hs; [exact Hwf|].
    apply (wf_heap_insert _ _ o); [exact Hwf|exact Ha|].
    destruct o as [b kids|s]; simpl in *.
    + split; [reflexivity|]. split; [congruence|]. auto.
    + split; [congruence|]. auto.
  - unfold BaseSpan_start, bind, get. rewrite Ha. exact Hwf.
Qed.

Lemma wf_BaseSpan_end_child (a : addr) (w : World) (s : BaseSpan) :
  well_formed w →
  heap w !! a = Some (ChildSpan s) →
  well_formed (BaseSpan_end clock stack a w).2.
Proof.
  intros Hwf Ha.
  rewrite (BaseSpan_end_eq clock stack a w _ Ha). cbn [base].
  destruct (ended s) eqn:He; [exact Hwf|].
  destruct (started s) eqn:Hs; [|exact Hwf]. cbn [negb]. cbv zeta.
  destruct (forEach _ _) as [evs ok]. destruct ok; cbn [fst snd].
  - unfold well_formed. cbn [heap]. rewrite insert_insert_eq.
    apply (wf_heap_insert _ _ (ChildSpan s)); [exact Hwf|exact Ha|].
    simpl. split; [by rewrite Hs|congruence].
  - apply (wf_heap_insert _ _ (ChildSpan s)); [exact Hwf|exact Ha|].
    simpl. split; [by rewrite Hs|congruence].
Qed.

Lemma wf_BaseSpan_end_root (r : addr) (w : World) (b : BaseSpan)
    (kids : list addr) :
  well_formed w →
  heap w !! r = Some (RootSpan b kids) →
  (∀ c, c ∈ kids → ∃ s, heap w !! c = Some (ChildSpan s) ∧ ended s = true) →
  well_formed (BaseSpan_end clock stack r w).2.
Proof.
  intros Hwf Hr Hkids.
  rewrite (BaseSpan_end_eq clock stack r w _ Hr). cbn [base].
  destruct (ended b) eqn:He; [exact Hwf|].
  destruct (started b) eqn:Hs; [|exact Hwf]. cbn [negb]. cbv zeta.
  destruct (forEach _ _) as [evs ok]. destruct ok; cbn [fst snd].
  - unfold well_formed. cbn [heap]. rewrite insert_insert_eq.
    apply (wf_heap_insert _ _ (RootSpan b kids)); [exact Hwf|exact Hr|].
    simpl. split; [reflexivity|]. split; [by rewrite Hs|]. auto.
  - apply (wf_heap_insert _ _ (RootSpan b kids)); [exact Hwf|exact Hr|].
    simpl. split; [reflexivity|]. split; [by rewrite Hs|]. auto.
Qed.

Lemma wf_log (a : addr) (lvl : Level) (msg : Message) (w : World) :
  well_formed w → well_formed (log a lvl msg w).2.
Proof. auto. Qed.

Lemma wf_truncate_with (e : addr → M unit) (a : addr) (w : World) :
  (∀ w', well_formed w' →
         heap w' !! a = with_base (with_truncated true) <$> heap w !! a →
         well_formed (e a w').2) →
  well_formed w →
  well_formed (truncate_with e a w).2.
Proof.
  intros He Hwf. unfold truncate_with.
  destruct (heap w !! a) as [o|] eqn:Ha.
  - erewrite bind_eq by (apply modify_eq; exact Ha). cbv beta iota.
    unfold bind.
    assert (well_formed
              (e a (set_heap (<[a := with_base (with_truncated true) o]>
                                (heap w)) w)).2) as Hwf'.
    { apply He.
      - pose proof (wf_method a (with_truncated true) w) as H.
        rewrite (modify_eq a _ w o Ha) in H. apply H; auto.
      - cbn [heap set_heap]. rewrite lookup_insert_eq. reflexivity. }
    destruct (e a _) as [[x|] w2]; exact Hwf'.
  - unfold bind at 1, modify, bind, get. rewrite Ha. exact Hwf.
Qed.

Lemma wf_truncate_open_child (c : addr) (w : World) :
  well_formed w → well_formed (truncate_open_child clock stack c w).2.
Proof.
  intros Hwf. unfold truncate_open_child, bind at 1, get.
  destruct (heap w !! c) as [[b kids|s]|] eqn:Hc; try exact Hwf.
  destruct (negb (ended s) && started s); [|exact Hwf].
  apply wf_truncate_with; [|exact Hwf].
  intros w' Hwf' Hc'. rewrite Hc in Hc'.
  by apply (wf_BaseSpan_end_child c w' (with_truncated true s)).
Qed.

Lemma wf_loop (kids : list addr) (w : World) :
  well_formed w →
  well_formed (forM kids (truncate_open_child clock stack) w).2.
Proof.
  intros Hwf.
  apply (keeps_forM well_formed (λ _ _, True)); auto.
  intros c w' Hw'. split; [|exact Logic.I].
  by apply wf_truncate_open_child.
Qed.

Lemma grows_truncate_open_child (c : addr) :
  grows (truncate_open_child clock stack c).
Proof.
  unfold truncate_open_child.
  apply grows_bind; [apply grows_get|]. intros [b kids|s];
    [apply grows_throw|].
  destruct (negb (ended s) && started s); [|apply grows_ret].
  apply grows_truncate_with, grows_BaseSpan_end.
Qed.

(** A turn of the loop does not touch the root spans. *)
Lemma truncate_open_child_root (c r : addr) (w : World) (b : BaseSpan)
    (kids : list addr) :
  heap w !! r = Some (RootSpan b kids) →
  heap (truncate_open_child clock stack c w).2 !! r
  = Some (RootSpan b kids).
Proof.
  intros Hr. unfold truncate_open_child, bind at 1, get.
  destruct (heap w !! c) as [[b' kids'|s]|] eqn:Hc; try exact Hr.
  destruct (negb (ended s) && started s); [|exact Hr].
  assert (r ≠ c) as Hne by (intros ->; congruence).
  unfold truncate_with.
  erewrite bind_eq by (apply modify_eq; exact Hc). cbv beta iota.
  unfold bind.
  pose proof (BaseSpan_end_frame clock stack c r
                (set_heap (<[c := with_base (with_truncated true)
                                    (ChildSpan s)]> (heap w)) w) Hne) as Hf.
  cbn [heap set_heap] in Hf. rewrite lookup_insert_ne in Hf by done.
  destruct (BaseSpan_end clock stack c _) as [[x|] w2]; cbn [snd] in *;
    unfold log, emit; cbn [snd heap]; congruence.
Qed.

Lemma loop_root (kids0 : list addr) (r : addr) (w : World) (b : BaseSpan)
    (kids : list addr) :
  heap w !! r = Some (RootSpan b kids) →
  heap (forM kids0 (truncate_open_child clock stack) w).2 !! r
  = Some (RootSpan b kids).
Proof.
  revert w. induction kids0 as [|c rest IH]; intros w Hr; [exact Hr|].
  cbn [forM]. unfold bind.
  pose proof (truncate_open_child_root c r w b kids Hr) as Hstep.
  destruct (truncate_open_child clock stack c w) as [[x|] w'];
    cbn [snd] in *; [by apply IH|exact Hstep].
Qed.

(** A turn of the loop that returns leaves a started child ended. *)
Lemma truncate_open_child_ended (c : addr) (w w' : World) (s : BaseSpan) :
  heap w !! c = Some (ChildSpan s) →
  started s = true →
  truncate_open_child clock stack c w = (Some tt, w') →
  ∃ s', heap w' !! c = Some (ChildSpan s') ∧ ended s' = true.
Proof.
  intros Hc Hs. unfold truncate_open_child.
  rewrite (bind_eq _ _ w (Some (ChildSpan s)) w)
    by (unfold get; by rewrite Hc).
  rewrite Hs, andb_true_r.
  destruct (ended s) eqn:He; cbn [negb].
  { intros [= <-]. eauto. }
  unfold truncate_with.
  erewrite bind_eq by (apply modify_eq; exact Hc). cbv beta iota.
  unfold bind.
  erewrite BaseSpan_end_eq
    by (cbn [heap set_heap]; apply lookup_insert_eq).
  cbn [base with_base].
  assert (ended (with_truncated true s) = false) as -> by exact He.
  assert (started (with_truncated true s) = true) as -> by exact Hs.
  cbn [negb]. cbv zeta.
  destruct (forEach _ _) as [evs ok]. destruct ok; cbn [fst snd];
    [|discriminate].
  unfold log, emit. intros [= <-]. cbn [heap set_heap].
  rewrite lookup_insert_eq. eexists. split; [reflexivity|].
  unfold ended. simpl. apply negb_true_iff, Z.eqb_neq, clock_set.
Qed.

Lemma loop_ended (kids : list addr) (w wm : World) :
  (∀ c, c ∈ kids →
     ∃ s, heap w !! c = Some (ChildSpan s) ∧ started s = true) →
  forM kids (truncate_open_child clock stack) w = (Some tt, wm) →
  ∀ c, c ∈ kids → ∃ s, heap wm !! c = Some (ChildSpan s) ∧ ended s = true.
Proof.
  revert w. induction kids as [|c0 rest IH]; intros w Hkids Hloop c Hc.
  { by apply elem_of_nil in Hc. }
  cbn [forM] in Hloop. unfold bind in Hloop.
  destruct (truncate_open_child clock stack c0 w) as [[[]|] w'] eqn:Hstep;
    [|discriminate].
  assert (heap_evolves (heap w) (heap w')) as Hev.
  { pose proof (grows_truncate_open_child c0 w Logic.I) as [_ H].
    by rewrite Hstep in H. }
  assert (heap_evolves (heap w') (heap wm)) as Hev'.
  { pose proof (grows_forM rest (truncate_open_child clock stack)
                  grows_truncate_open_child w' Logic.I) as [_ H].
    by rewrite Hloop in H. }
  apply elem_of_cons in Hc as [->|Hc].
  - destruct (Hkids c0 ltac:(left)) as (s & Hs & Hss).
    destruct (truncate_open_child_ended c0 w w' s Hs Hss Hstep)
      as (s' & Hs' & He').
    destruct (Hev' c0 _ Hs') as (o & Ho & Hevo).
    destruct o as [?|s'']; [contradiction|].
    exists s''. split; [exact Ho|].
    destruct Hevo as (_ & _ & _ & _ & _ & H).
    rewrite (ended_same s' s''); auto.
  - apply (IH w'); [|exact Hloop|exact Hc].
    intros x Hx. destruct (Hkids x ltac:(by right)) as (s & Hs & Hss).
    destruct (Hev x _ Hs) as (o & Ho & Hevo).
    destruct o as [?|s']; [contradiction|].
    exists s'. split; [exact Ho|].
    destruct Hevo as (_ & _ & _ & _ & H & _).
    rewrite (started_same s s'); auto.
Qed.

Lemma wf_RootSpan_end (r : addr) (w : World) :
  well_formed w → well_formed (RootSpan_end clock stack r w).2.
Proof.
  intros Hwf.
  destruct (heap w !! r) as [[b kids|s]|] eqn:Hr.
  - rewrite (RootSpan_end_loop clock stack r w b kids Hr). unfold bind.
    pose proof (wf_loop kids w Hwf) as Hwfm.
    pose proof (loop_root kids r w b kids Hr) as Hrm.
    pose proof (loop_ended kids w) as Hend.
    destruct (forM kids _ w) as [[[]|] wm]; cbn [snd] in *; [|exact Hwfm].
    apply (wf_BaseSpan_end_root r wm b kids Hwfm Hrm).
    apply (Hend wm); [|reflexivity].
    intros c Hc. destruct (Hwf r b kids Hr) as (_ & _ & Hkids).
    destruct (Hkids c Hc) as (s & Hs & Hss & _). eauto.
  - unfold RootSpan_end, bind, get. rewrite Hr. exact Hwf.
  - unfold RootSpan_end, bind, get. rewrite Hr. exact Hwf.
Qed.

Lemma wf_end_ (a : addr) (w : World) :
  well_formed w → well_formed (end_ clock stack a w).2.
Proof.
  intros Hwf. unfold end_, bind at 1, get.
  destruct (heap w !! a) as [[b kids|s]|] eqn:Ha.
  - by apply wf_RootSpan_end.
  - by apply (wf_BaseSpan_end_child a w s).
  - exact Hwf.
Qed.

Lemma wf_truncate (a : addr) (w : World) :
  well_formed w → well_formed (truncate clock stack a w).2.
Proof.
  intros Hwf. apply wf_truncate_with; [|exact Hwf].
  intros w' Hwf'. intros _. by apply wf_end_.
Qed.

Lemma wf_startChildSpan (r : addr) (nm : string) (k : option SpanKind)
    (w : World) :
  well_formed w →
  well_formed (startChildSpan clock randomSpanId stack r nm k w).2.
Proof.
  intros Hwf.
  destruct (heap w !! r) as [[b kids|s]|] eqn:Hr.
  - rewrite (startChildSpan_eq clock randomSpanId stack r w b kids nm k Hr).
    destruct (ended b) eqn:He; [exact Hwf|].
    destruct (started b) eqn:Hs; [|exact Hwf]. cbn [negb]. cbv zeta.
    set (c := fresh (dom (heap w))).
    set (s := started_child clock randomSpanId r b nm k w).
    assert (heap w !! c = None) as Hc by apply fresh_unallocated.
    assert (wf_heap (<[c := ChildSpan s]> (heap w))) as Hwf1.
    { by apply wf_heap_alloc. }
    destruct (forEach _ _) as [evs ok]. destruct ok; cbn [fst snd];
      [|exact Hwf1].
    unfold well_formed. cbn [heap].
    apply (wf_heap_push _ r c b s kids); auto.
    + rewrite lookup_insert_ne; [exact Hr|]. intros E. congruence.
    + apply lookup_insert_eq.
    + unfold started, s. simpl. apply negb_true_iff, Z.eqb_neq, clock_set.
    + intros Hin. destruct (Hwf r b kids Hr) as (_ & _ & Hkids).
      destruct (Hkids c Hin) as (s' & Hs' & _). congruence.
  - unfold startChildSpan, bind, get. rewrite Hr. exact Hwf.
  - unfold startChildSpan, bind, get. rewrite Hr. exact Hwf.
Qed.

Lemma wf_exec (op : Op) (w : World) :
  well_formed w →
  well_formed (exec clock randomSpanId uuid_v4 stack op w).2.
Proof.
  intros Hwf. destruct op; simpl; try (apply wf_method; by auto).
  - unfold bind, draw, alloc, ret. cbn [snd heap set_heap].
    apply wf_heap_alloc; [exact Hwf|apply fresh_unallocated|reflexivity].
  - unfold bind, draw, alloc, ret. cbn [snd heap set_heap].
    apply wf_heap_alloc; [exact Hwf|apply fresh_unallocated|exact Logic.I].
  - by apply wf_BaseSpan_start.
  - by apply wf_end_.
  - by apply wf_truncate.
  - unfold bind.
    pose proof (wf_startChildSpan r nm k w Hwf) as H.
    destruct (startChildSpan _ _ _ _ _ _ w) as [[x|] w']; exact H.
Qed.

(** Every world that the interface can reach is well formed. *)
Lemma run_well_formed (ops : list Op) (w : World) :
  well_formed w →
  well_formed (run clock randomSpanId uuid_v4 stack ops w).
Proof.
  revert w. induction ops as [|op ops IH]; intros w Hwf; [exact Hwf|].
  simpl. apply IH. by apply wf_exec.
Qed.

Lemma empty_world_well_formed : well_formed empty_world.
Proof. intros r b kids Hr. simpl in Hr. by rewrite lookup_empty in Hr. Qed.

End WellFormed.

(** * The claims on the life cycle of spans *)

Section LifeCycle.

Variable clock : nat → Z.
Variable randomSpanId : nat → string.
Variable uuid_v4 : nat → string.
Variable stack : nat.

(** [span.end()] runs the method of the class of the object. *)
Lemma end__dispatch (a : addr) (w : World) (o : Span) :
  heap w !! a = Some o →
  end_ clock stack a w =
  match o with
  | RootSpan _ _ => RootSpan_end clock stack a w
  | ChildSpan _ => BaseSpan_end clock stack a w
  end.
Proof.
  intros Ha. unfold end_.
  rewrite (bind_eq _ _ w (Some o) w) by (unfold get; by rewrite Ha).
  by destruct o.
Qed.

(** C6. [end()] on a span that is not started, or is already ended,
    returns normally; the heap is unchanged (no time stamp is set or
    changed, the start time of an unstarted span stays unset, no data
    changes), and the only thing handed to the environment is one warning:
    no hook of any listener runs. The heap is well formed, as it is in
    every world that the interface reaches. *)
Theorem end_rejected (a : addr) (w : World) (o : Span) :
  well_formed w →
  heap w !! a = Some o →
  started (base o) = false ∨ ended (base o) = true →
  ∃ msg,
    end_ clock stack a w =
    (Some tt,
     mkWorld (heap w) (trace w ++ [Log a WARN msg]) (reads w) (draws w))
    ∧ BaseSpan_end clock stack a w = end_ clock stack a w
    ∧ hook_calls [Log a WARN msg] = []
    ∧ (started (base o) = false →
       startTime (data (base o)) = UNINITIALIZED_DATE).
Proof.
  intros Hwf Ha Hst.
  destruct (BaseSpan_end_rejected clock stack a w o Ha Hst) as [msg Hmsg].
  assert (end_ clock stack a w = BaseSpan_end clock stack a w) as Hdisp.
  { rewrite (end__dispatch a w o Ha).
    destruct o as [b kids|b]; [|reflexivity].
    rewrite (RootSpan_end_loop clock stack a w b kids Ha).
    rewrite (bind_eq _ _ w (Some tt) w); [reflexivity|].
    apply forM_skip. intros c Hc.
    destruct (Hwf a b kids Ha) as (_ & Hempty & Hkids).
    destruct (Hkids c Hc) as (s & Hs & _ & Hended).
    unfold truncate_open_child, bind, get. rewrite Hs.
    destruct Hst as [Hunstarted|Hend].
    - rewrite (Hempty Hunstarted) in Hc. by apply elem_of_nil in Hc.
    - by rewrite (Hended Hend). }
  exists msg. rewrite Hdisp.
  split; [exact Hmsg|]. split; [reflexivity|]. split; [reflexivity|].
  unfold started. intros H. apply negb_false_iff in H.
  by apply Z.eqb_eq in H.
Qed.

(** C5. The first [start()] of a span returns normally, sets [startTime]
    to the reading of the clock and nothing else in the heap, and runs the
    start hook of every registered listener, in the order of
    registration, with the updated record. Whatever is called
    afterwards, [startTime] keeps that value, and a later [start()]
    changes nothing in the heap and hands the environment one warning and
    no hook call. The clock does not read [UNINITIALIZED_DATE], and the
    hooks of the listeners return. *)
Theorem start_once (a : addr) (w : World) (o : Span) :
  heap w !! a = Some o →
  started (base o) = false →
  clock (reads w) ≠ UNINITIALIZED_DATE →
  forallb (relays_ok stack (heap w)) (listeners (base o)) = true →
  let t := clock (reads w) in
  let o1 := with_base (with_data (set_startTime t)) o in
  let w1 := (BaseSpan_start clock stack a w).2 in
  (BaseSpan_start clock stack a w).1 = Some tt
  ∧ heap w1 = <[a := o1]> (heap w)
  ∧ (∃ evs, trace w1 = trace w ++ evs
            ∧ hook_calls evs
              = map (λ l, (a, l, OnStartSpan, data (base o1)))
                  (listeners (base o)))
  ∧ ∀ ops,
      let w2 := run clock randomSpanId uuid_v4 stack ops w1 in
      ∃ o2, heap w2 !! a = Some o2
            ∧ startTime (data (base o2)) = t
            ∧ BaseSpan_start clock stack a w2 =
              (Some tt,
               mkWorld (heap w2)
                 (trace w2 ++ [Log a WARN StartAlreadyStarted])
                 (reads w2) (draws w2))
            ∧ hook_calls [Log a WARN StartAlreadyStarted] = [].
Proof.
  intros Ha Hs Hclock Hrel t o1 w1.
  assert (listeners (base o1) = listeners (base o)) as Hls
    by (by destruct o).
  pose proof (BaseSpan_start_eq clock stack a w o Ha) as Heq.
  rewrite Hs in Heq. cbv zeta in Heq. fold t o1 in Heq. rewrite Hls in Heq.
  destruct (round_hook_calls stack (<[a := o1]> (heap w)) a OnStartSpan
              (data (base o1)) (listeners (base o))) as [Hok Hcalls].
  { rewrite <- Hrel. apply forallb_pointwise. intros l. apply relays_ok_ext.
    apply relay_view_with_data. exact Ha. }
  rewrite Hok in Heq.
  subst w1. rewrite Heq. cbn [fst snd heap trace].
  split; [reflexivity|]. split; [reflexivity|]. split; [eauto|].
  intros ops.
  match goal with
  | |- context [run ?c ?r ?u ?s ops ?W] => set (w2 := run c r u s ops W)
  end.
  destruct (run_evolves clock randomSpanId uuid_v4 stack ops
              (mkWorld (<[a := o1]> (heap w))
                 (trace w ++
                  (forEach (invoke stack (<[a := o1]> (heap w)) a 0
                              OnStartSpan (data (base o1)))
                     (listeners (base o))).1)
                 (S (reads w)) (draws w)) a o1) as (o2 & Ha2 & Hev).
  { simpl. apply lookup_insert_eq. }
  fold w2 in Ha2.
  assert (started (base o1) = true) as Hs1.
  { unfold started. destruct o; simpl; apply negb_true_iff;
      by apply Z.eqb_neq. }
  assert (startTime (data (base o2)) = t) as Ht.
  { apply evolves_stable in Hev as (_ & _ & _ & _ & H & _).
    rewrite H by exact Hs1. subst o1. by destruct o. }
  exists o2. split; [exact Ha2|]. split; [exact Ht|].
  split; [|reflexivity].
  rewrite (BaseSpan_start_eq clock stack a w2 o2 Ha2).
  assert (started (base o2) = true) as ->; [|reflexivity].
  unfold started. rewrite Ht. apply negb_true_iff. by apply Z.eqb_neq.
Qed.

End LifeCycle.

(** C9. [end()] on a started span that is not ended returns normally, sets
    [endTime] to the reading of the clock, runs the end hook of every
    registered listener in the order of registration, and leaves the
    listener list empty. Whatever is called afterwards on any span, short
    of registering a listener on this span again, the list stays empty,
    [endTime] keeps its value and the span runs no hook any more. The clock
    does not read [UNINITIALIZED_DATE], and the hooks of the listeners
    return. *)
Theorem end_releases_listeners (clock : nat → Z)
    (randomSpanId uuid_v4 : nat → string) (stack : nat)
    (a : addr) (w : World) (o : Span) :
  heap w !! a = Some o →
  open (base o) = true →
  clock (reads w) ≠ UNINITIALIZED_DATE →
  forallb (relays_ok stack (heap w)) (listeners (base o)) = true →
  let t := clock (reads w) in
  let o1 := with_base (with_data (set_endTime t)) o in
  let w1 := (BaseSpan_end clock stack a w).2 in
  (BaseSpan_end clock stack a w).1 = Some tt
  ∧ heap w1 = <[a := with_base (with_listeners []) o1]> (heap w)
  ∧ (∃ evs, trace w1 = trace w ++ evs
            ∧ hook_calls evs
              = map (λ l, (a, l, OnEndSpan, data (base o1)))
                  (listeners (base o)))
  ∧ ∀ ops,
      Forall (λ op, ¬ registers_on a op) ops →
      let w2 := run clock randomSpanId uuid_v4 stack ops w1 in
      (∃ o2, heap w2 !! a = Some o2
             ∧ listeners (base o2) = []
             ∧ endTime (data (base o2)) = t)
      ∧ ∃ evs, trace w2 = trace w1 ++ evs ∧ calls_by a evs = [].
Proof.
  intros Ha Hopen Hclock Hrel t o1 w1.
  unfold open in Hopen. apply andb_true_iff in Hopen as [He Hs].
  apply negb_true_iff in He.
  assert (listeners (base o1) = listeners (base o)) as Hls
    by (by destruct o).
  pose proof (BaseSpan_end_eq clock stack a w o Ha) as Heq.
  rewrite He, Hs in Heq. cbv zeta in Heq. fold t o1 in Heq.
  rewrite Hls in Heq. simpl negb in Heq. cbv iota in Heq.
  destruct (round_hook_calls stack (<[a := o1]> (heap w)) a OnEndSpan
              (data (base o1)) (listeners (base o))) as [Hok Hcalls].
  { rewrite <- Hrel. apply forallb_pointwise. intros l. apply relays_ok_ext.
    apply relay_view_with_data. exact Ha. }
  rewrite Hok in Heq. rewrite insert_insert_eq in Heq.
  subst w1. rewrite Heq. cbn [fst snd heap trace].
  split; [reflexivity|]. split; [reflexivity|]. split; [eauto|].
  intros ops Hops.
  match goal with
  | |- context [run ?c ?r ?u ?s ops ?W] =>
      set (W1 := W); set (w2 := run c r u s ops W1)
  end.
  assert (heap W1 !! a = Some (with_base (with_listeners []) o1)) as Ha1.
  { simpl. apply lookup_insert_eq. }
  destruct (run_quiet clock randomSpanId uuid_v4 stack a ops W1 Hops)
    as [(o2 & Ha2 & Hl2) Hsil].
  { eexists. split; [exact Ha1|]. by destruct o. }
  fold w2 in Ha2, Hsil.
  split; [|exact Hsil].
  exists o2. split; [exact Ha2|]. split; [exact Hl2|].
  destruct (run_evolves clock randomSpanId uuid_v4 stack ops W1 a _ Ha1)
    as (o2' & Ha2' & Hev).
  fold w2 in Ha2'. assert (o2' = o2) as -> by congruence.
  apply evolves_stable in Hev as (_ & _ & _ & _ & _ & H).
  rewrite H.
  - subst o1. by destruct o.
  - unfold ended. subst o1. destruct o; simpl; apply negb_true_iff;
      by apply Z.eqb_neq.
Qed.

(** ** Children of a root span *)

Section Children.

Variable clock : nat → Z.
Variable randomSpanId : nat → string.
Variable uuid_v4 : nat → string.
Variable stack : nat.

(** C7. On a root span that is ended or not started, [startChildSpan]
    returns [null] normally, hands the environment one warning and leaves
    the heap as it is: no child is created or registered. On a started
    root span that is not ended it returns a new object, a child span that
    is started, has the root as its only listener and carries the name and
    kind asked for, and appends it to the child list of the root; whatever
    is called afterwards, the children created so far stay at the front of
    the list, in the order of their creation. The clock does not read
    [UNINITIALIZED_DATE], and the hooks of the root return. *)
Theorem startChildSpan_spec (r : addr) (w : World) (b : BaseSpan)
    (kids : list addr) (nm : string) (k : option SpanKind) :
  heap w !! r = Some (RootSpan b kids) →
  (open b = true →
   clock (reads w) ≠ UNINITIALIZED_DATE
   ∧ relays_ok stack (heap w) (Relay r) = true) →
  if open b then
    ∃ c s evs,
      let w' :=
        mkWorld (<[r := RootSpan b (kids ++ [c])]>
                   (<[c := ChildSpan s]> (heap w)))
          (trace w ++ evs) (S (reads w)) (S (draws w)) in
      startChildSpan clock randomSpanId stack r nm k w = (Some (Some c), w')
      ∧ heap w !! c = None
      ∧ started s = true
      ∧ ended s = false
      ∧ listeners s = [Relay r]
      ∧ name (data s) = nm
      ∧ kind (data s) = Some (default CLIENT k)
      ∧ hook_calls evs = [(c, Relay r, OnStartSpan, data s)]
      ∧ ∀ ops,
          ∃ b' kids',
            heap (run clock randomSpanId uuid_v4 stack ops w') !! r
            = Some (RootSpan b' kids')
            ∧ kids ++ [c] `prefix_of` kids'
  else
    ∃ msg,
      startChildSpan clock randomSpanId stack r nm k w =
      (Some None,
       mkWorld (heap w) (trace w ++ [Log r WARN msg]) (reads w) (draws w)).
Proof.
  intros Hr Hpre.
  rewrite (startChildSpan_eq clock randomSpanId stack r w b kids nm k Hr).
  unfold open in *.
  destruct (ended b); cbn [negb andb]; [eauto|].
  destruct (started b); cbn [negb andb]; [|eauto].
  destruct (Hpre eq_refl) as [Hclock Hrel]. cbv zeta.
  set (c := fresh (dom (heap w))).
  set (s := started_child clock randomSpanId r b nm k w).
  assert (heap w !! c = None) as Hc by apply fresh_unallocated.
  assert (relays_ok stack (<[c := ChildSpan s]> (heap w)) (Relay r) = true)
    as Hrel'.
  { rewrite <- Hrel. apply relays_ok_ext.
    by apply relay_view_alloc_child. }
  destruct (round_hook_calls stack (<[c := ChildSpan s]> (heap w)) c
              OnStartSpan (data s) [Relay r]) as [Hok Hcalls].
  { cbn [forallb]. by rewrite Hrel'. }
  rewrite Hok.
  exists c, s. eexists. cbv zeta. split; [reflexivity|].
  split; [exact Hc|].
  split.
  { unfold started, s. simpl. apply negb_true_iff. by apply Z.eqb_neq. }
  do 4 (split; [reflexivity|]). split; [exact Hcalls|].
  intros ops.
  match goal with
  | |- context [run _ _ _ _ ops ?W] =>
      destruct (run_evolves clock randomSpanId uuid_v4 stack ops W r
                  (RootSpan b (kids ++ [c]))) as (o' & Ho' & Hev)
  end.
  { cbn [heap]. apply lookup_insert_eq. }
  destruct o' as [b' kids'|?]; [|contradiction].
  exists b', kids'. split; [exact Ho'|]. by destruct Hev.
Qed.

(** C8. When [startChildSpan] has returned a child, then after any
    further calls, on these two spans or on others, the child has the
    trace identifier of the root, has the span identifier of the root as
    its parent, and is flagged as in the process of its parent, and both
    spans have the span identifiers they had at that moment. *)
Theorem child_identity (r : addr) (w : World) (b : BaseSpan)
    (kids : list addr) (nm : string) (k : option SpanKind) (c : addr)
    (w1 : World) :
  heap w !! r = Some (RootSpan b kids) →
  startChildSpan clock randomSpanId stack r nm k w = (Some (Some c), w1) →
  ∀ ops,
    let w2 := run clock randomSpanId uuid_v4 stack ops w1 in
    ∃ b2 kids2 s2,
      heap w2 !! r = Some (RootSpan b2 kids2)
      ∧ heap w2 !! c = Some (ChildSpan s2)
      ∧ traceId (data s2) = traceId (data b2)
      ∧ parentSpanId (data s2) = spanId (data b2)
      ∧ sameProcessAsParentSpan (data s2) = Some true
      ∧ traceId (data b2) = traceId (data b)
      ∧ spanId (data b2) = spanId (data b)
      ∧ spanId (data s2) = randomSpanId (draws w).
Proof.
  intros Hr Hcall ops w2.
  rewrite (startChildSpan_eq clock randomSpanId stack r w b kids nm k Hr) in Hcall.
  destruct (ended b); [discriminate|].
  destruct (started b); [|discriminate]. cbn [negb] in Hcall.
  cbv zeta in Hcall.
  set (s := started_child clock randomSpanId r b nm k w) in *.
  assert (fresh (dom (heap w)) ≠ r) as Hne.
  { intros E. pose proof (fresh_unallocated (heap w)) as F.
    rewrite E in F. congruence. }
  destruct (forEach _ _) as [evs ok]. cbn [fst snd] in Hcall.
  destruct ok; [|discriminate].
  injection Hcall as <- Hw1.
  destruct (run_evolves clock randomSpanId uuid_v4 stack ops w1 r
              (RootSpan b (kids ++ [fresh (dom (heap w))])))
    as (or & Hr2 & Er).
  { rewrite <- Hw1. cbn [heap]. apply lookup_insert_eq. }
  destruct (run_evolves clock randomSpanId uuid_v4 stack ops w1
              (fresh (dom (heap w))) (ChildSpan s))
    as (oc & Hc2 & Ec).
  { rewrite <- Hw1. cbn [heap]. rewrite lookup_insert_ne by done.
    apply lookup_insert_eq. }
  fold w2 in Hr2, Hc2.
  destruct or as [b2 kids2|?]; [|contradiction].
  destruct oc as [?|s2]; [contradiction|].
  destruct Er as [(T1 & S1 & _) _].
  destruct Ec as (T2 & S2 & P2 & F2 & _).
  exists b2, kids2, s2.
  split; [exact Hr2|]. split; [exact Hc2|].
  rewrite T1, S1, T2, S2, P2, F2. repeat split.
Qed.

(** C4. [end()] on a root span first goes through the children: every
    child that is started and not ended is truncated (its [truncated]
    flag is set, it gets an [endTime], it runs the end hook of each of its
    listeners and releases them), in the order of the child list; every
    other child, in particular one that is already ended, is left as it
    is, and so is the root. Then the root runs its own [end] from the
    world so reached, which does not touch the children and adds its
    events after theirs. The heap is well formed, the clock never reads
    [UNINITIALIZED_DATE], and the hooks of the children's listeners
    return. *)
Theorem RootSpan_end_truncates_open_children (r : addr) (w : World)
    (b : BaseSpan) (kids : list addr) :
  well_formed w →
  heap w !! r = Some (RootSpan b kids) →
  (∀ c s, c ∈ kids → heap w !! c = Some (ChildSpan s) →
          forallb (relays_ok stack (heap w)) (listeners s) = true) →
  (∀ n, clock n ≠ UNINITIALIZED_DATE) →
  ∃ wm evs,
    RootSpan_end clock stack r w = BaseSpan_end clock stack r wm
    ∧ trace wm = trace w ++ evs
    ∧ hook_calls evs = flat_map (end_hooks_of w wm) kids
    ∧ heap wm !! r = Some (RootSpan b kids)
    ∧ (∀ c, c ∈ kids →
         ∃ s, heap w !! c = Some (ChildSpan s)
              ∧ if open s then
                  ∃ t, t ≠ UNINITIALIZED_DATE
                       ∧ heap wm !! c = Some (ChildSpan (forced_end t s))
                       ∧ endTime (data (forced_end t s)) = t
                       ∧ truncated (forced_end t s) = true
                       ∧ listeners (forced_end t s) = []
                else heap wm !! c = Some (ChildSpan s))
    ∧ (∀ c, c ∈ kids →
         heap (BaseSpan_end clock stack r wm).2 !! c = heap wm !! c)
    ∧ ∃ evs',
        trace (RootSpan_end clock stack r w).2 = trace w ++ evs ++ evs'.
Proof.
  intros Hwf Hr Hrel Hclock.
  destruct (Hwf r b kids Hr) as (Hnd & _ & Hkids).
  destruct (truncate_loop clock stack kids w Hnd)
    as (wm & evs & Hloop & Htrace & Hcalls & Hframe & Hch).
  { intros c Hc. destruct (Hkids c Hc) as (s & Hs & _). eauto. }
  assert (r ∉ kids) as Hrk.
  { intros Hin. destruct (Hkids r Hin) as (s & Hs & _). congruence. }
  assert (RootSpan_end clock stack r w = BaseSpan_end clock stack r wm)
    as Hend.
  { rewrite (RootSpan_end_loop clock stack r w b kids Hr).
    by rewrite (bind_eq _ _ _ _ _ Hloop). }
  exists wm, evs.
  split; [exact Hend|].
  split; [exact Htrace|].
  split; [exact Hcalls|].
  split; [by rewrite Hframe|].
  split; [|split].
  - intros c Hc. destruct (Hkids c Hc) as (s & Hs & _).
    exists s. split; [exact Hs|].
    destruct (Hch c s Hc Hs) as [n Hn].
    destruct (open s); [|exact Hn].
    exists (clock n). repeat split; [apply Hclock|exact Hn].
  - intros c Hc. apply BaseSpan_end_frame. intros ->. contradiction.
  - destruct (BaseSpan_end_appends clock stack r wm) as [evs' Hevs'].
    exists evs'. by rewrite Hend, Hevs', Htrace, app_assoc.
Qed.

End Children.

(** Every world that a program reaches from the empty world is well
    formed, when the clock never reads [UNINITIALIZED_DATE]. *)
Lemma reachable_well_formed (clock : nat → Z)
    (randomSpanId uuid_v4 : nat → string) (stack : nat) (ops : list Op) :
  (∀ n, clock n ≠ UNINITIALIZED_DATE) →
  well_formed (run clock randomSpanId uuid_v4 stack ops empty_world).
Proof.
  intros Hclock. apply run_well_formed; [exact Hclock|].
  apply empty_world_well_formed.
Qed.

(** * The statements at work on a small trace *)

Lemma demo_clock_set (n : nat) : demo_clock n ≠ UNINITIALIZED_DATE.
Proof. unfold demo_clock, UNINITIALIZED_DATE. lia. Qed.

Lemma lone_root_well_formed (b : BaseSpan) (evs : list Event) (n m : nat) :
  well_formed (mkWorld {[0%nat := RootSpan b []]} evs n m).
Proof.
  intros r b' kids Hr. simpl in Hr.
  apply lookup_singleton_Some in Hr as [_ [= <- <-]].
  split; [constructor|]. split; [done|].
  intros c Hc. by apply elem_of_nil in Hc.
Qed.

Lemma demo_world_children_well_formed : well_formed demo_world_children.
Proof.
  intros r b kids Hr. simpl in Hr.
  rewrite !lookup_insert_Some, lookup_singleton_Some in Hr.
  destruct Hr as [[_ [=]]|[_ [[_ [=]]|[_ [_ [= <- <-]]]]]].
  split.
  { apply NoDup_cons. split; [|apply NoDup_singleton].
    intros H. apply list_elem_of_singleton in H. discriminate. }
  split; [discriminate|].
  intros c Hc. apply elem_of_cons in Hc as [->|Hc].
  - exists demo_child_open. repeat split. discriminate.
  - apply list_elem_of_singleton in Hc as ->.
    exists demo_child_ended. repeat split.
Qed.

Lemma end_rejected_witness :
  ∃ msg,
    end_ demo_clock 1 0 demo_world_unstarted =
    (Some tt,
     mkWorld (heap demo_world_unstarted) [Log 0 WARN msg] 0 2).
Proof.
  destruct (end_rejected demo_clock 1 0 demo_world_unstarted
              (RootSpan demo_root_unstarted []))
    as (msg & Hend & _).
  - apply lone_root_well_formed.
  - reflexivity.
  - left. reflexivity.
  - exists msg. exact Hend.
Defined.

Lemma start_once_witness :
  (BaseSpan_start demo_clock 1 0 demo_world_unstarted).1 = Some tt
  ∧ ∃ o2,
      heap (run demo_clock demo_ids demo_ids 1 demo_ops
              (BaseSpan_start demo_clock 1 0 demo_world_unstarted).2) !! 0%nat
      = Some o2
      ∧ startTime (data (base o2)) = 1000.
Proof.
  destruct (start_once demo_clock demo_ids demo_ids 1 0 demo_world_unstarted
              (RootSpan demo_root_unstarted []))
    as (Hret & _ & _ & Hlater).
  - reflexivity.
  - reflexivity.
  - apply demo_clock_set.
  - reflexivity.
  - split; [exact Hret|].
    destruct (Hlater demo_ops) as (o2 & Ho2 & Ht & _).
    exists o2. split; [exact Ho2|exact Ht].
Defined.

Lemma end_releases_listeners_witness :
  (BaseSpan_end demo_clock 1 0 demo_world_started).1 = Some tt
  ∧ ∃ evs,
      trace (run demo_clock demo_ids demo_ids 1 demo_ops
               (BaseSpan_end demo_clock 1 0 demo_world_started).2)
      = trace (BaseSpan_end demo_clock 1 0 demo_world_started).2 ++ evs
      ∧ calls_by 0 evs = [].
Proof.
  destruct (end_releases_listeners demo_clock demo_ids demo_ids 1 0
              demo_world_started (RootSpan demo_root_started []))
    as (Hret & _ & _ & Hlater).
  - reflexivity.
  - reflexivity.
  - apply demo_clock_set.
  - reflexivity.
  - split; [exact Hret|].
    destruct (Hlater demo_ops) as [_ Hsilent]; [|exact Hsilent].
    unfold demo_ops. repeat constructor; simpl; try tauto. discriminate.
Defined.

Lemma startChildSpan_spec_witness :
  (∃ c s evs,
     startChildSpan demo_clock demo_ids 1 0 "child" None demo_world_started =
     (Some (Some c),
      mkWorld (<[0%nat := RootSpan demo_root_started ([] ++ [c])]>
                 (<[c := ChildSpan s]> (heap demo_world_started)))
        (trace demo_world_started ++ evs) 1 3)
     ∧ started s = true
     ∧ listeners s = [Relay 0])
  ∧ ∃ msg,
      startChildSpan demo_clock demo_ids 1 0 "child" None
        demo_world_unstarted =
      (Some None,
       mkWorld (heap demo_world_unstarted) [Log 0 WARN msg] 0 2).
Proof.
  split.
  - pose proof (startChildSpan_spec demo_clock demo_ids demo_ids 1 0
                  demo_world_started demo_root_started [] "child" None)
      as H.
    change (open demo_root_started) with true in H. cbv zeta in H.
    destruct H as (c & s & evs & Heq & _ & Hs & _ & Hl & _).
    + reflexivity.
    + intros _. split; [apply demo_clock_set|reflexivity].
    + exists c, s, evs. auto.
  - pose proof (startChildSpan_spec demo_clock demo_ids demo_ids 1 0
                  demo_world_unstarted demo_root_unstarted [] "child" None)
      as H.
    change (open demo_root_unstarted) with false in H.
    apply H; [reflexivity|discriminate].
Defined.

Lemma child_identity_witness :
  ∃ b2 kids2 s2,
    heap (run demo_clock demo_ids demo_ids 1 demo_ops
            (startChildSpan demo_clock demo_ids 1 0 "child" None
               demo_world_started).2) !! 0%nat
    = Some (RootSpan b2 kids2)
    ∧ heap (run demo_clock demo_ids demo_ids 1 demo_ops
              (startChildSpan demo_clock demo_ids 1 0 "child" None
                 demo_world_started).2) !! 1%nat
      = Some (ChildSpan s2)
    ∧ traceId (data s2) = traceId (data b2)
    ∧ parentSpanId (data s2) = spanId (data b2)
    ∧ sameProcessAsParentSpan (data s2) = Some true
    ∧ traceId (data b2) = traceId (data demo_root_started)
    ∧ spanId (data b2) = spanId (data demo_root_started)
    ∧ spanId (data s2) = demo_ids 2.
Proof.
  apply (child_identity demo_clock demo_ids demo_ids 1 0 demo_world_started
           demo_root_started [] "child" None 1
           (startChildSpan demo_clock demo_ids 1 0 "child" None
              demo_world_started).2).
  - reflexivity.
  - vm_compute. reflexivity.
Defined.

Lemma RootSpan_end_truncates_open_children_witness :
  ∃ wm evs,
    RootSpan_end demo_clock 1 0 demo_world_children
    = BaseSpan_end demo_clock 1 0 wm
    ∧ trace wm = trace demo_world_children ++ evs
    ∧ hook_calls evs
      = flat_map (end_hooks_of demo_world_children wm) [1%nat; 2%nat]
    ∧ heap wm !! 0%nat = Some (RootSpan demo_root_started [1%nat; 2%nat]).
Proof.
  destruct (RootSpan_end_truncates_open_children demo_clock 1 0
              demo_world_children demo_root_started [1%nat; 2%nat])
    as (wm & evs & Heq & Htrace & Hcalls & Hroot & _).
  - apply demo_world_children_well_formed.
  - reflexivity.
  - intros c s Hc Hs. apply elem_of_cons in Hc as [->|Hc].
    + vm_compute in Hs. injection Hs as <-. reflexivity.
    + apply list_elem_of_singleton in Hc as ->.
      vm_compute in Hs. injection Hs as <-. reflexivity.
  - apply demo_clock_set.
  - exists wm, evs. auto.
Defined.

(** The root of the small trace is ended while the child at address 1 is
    open: the child is truncated and reports to the root, which forwards
    the event to its external listener; then the root itself ends. *)
Example demo_root_end_trace :
  map seen (trace (end_ demo_clock 1 0 demo_world_children).2)
  = [ SeenHook 1 0 (Relay 0) OnEndSpan "" 1000;
      SeenHook 0 1 (External 7) OnEndSpan "" 1000;
      SeenLog 1 DEBUG Truncating;
      SeenHook 0 0 (External 7) OnEndSpan "root" 1001 ]
  ∧ (end_ demo_clock 1 0 demo_world_children).1 = Some tt.
Proof. split; vm_compute; reflexivity. Qed.

(** With a call stack too short for the relay, the same call throws in the
    child's round of notifications, and the root is not ended. *)
Example demo_root_end_stack_exhausted :
  (end_ demo_clock 0 0 demo_world_children).1 = None
  ∧ (ended ∘ base <$> heap (end_ demo_clock 0 0 demo_world_children).2 !! 0%nat)
    = Some false.
Proof. split; vm_compute; reflexivity. Qed.

(** A second [start()] and an [end()] before [start()] only warn. *)
Example demo_misuse_trace :
  map seen
    (trace (run demo_clock demo_ids demo_ids 1 [End 0; Start 0; Start 0]
              demo_world_unstarted))
  = [ SeenLog 0 WARN EndNotStarted;
      SeenHook 0 0 (External 7) OnStartSpan "root" 0;
      SeenLog 0 WARN StartAlreadyStarted ].
Proof. vm_compute. reflexivity. Qed.

(** Why the clock is taken not to read [UNINITIALIZED_DATE]: a span that is
    started at that very reading does not count as started, and a second
    [start()] notifies the listeners again. *)
Example demo_start_at_sentinel_time :
  let w := run (λ _, UNINITIALIZED_DATE) demo_ids demo_ids 1
             [Start 0; Start 0] demo_world_unstarted in
  map seen (trace w)
  = [ SeenHook 0 0 (External 7) OnStartSpan "root" 0;
      SeenHook 0 0 (External 7) OnStartSpan "root" 0 ]
  ∧ (started ∘ base <$> heap w !! 0%nat) = Some false.
Proof. split; vm_compute; reflexivity. Qed.

(** * Exporters *)

(** ** Stackdriver: the grouping of spans into traces *)

Lemma indexOf_lower (xs : list string) (x : string) :
  (-1 <= indexOf xs x)%Z.
Proof.
  induction xs as [|y ys IH]; simpl; [lia|].
  destruct (String.eqb y x); [lia|].
  destruct (Z.eqb_spec (indexOf ys x) (-1)); lia.
Qed.

Lemma indexOf_absent (xs : list string) (x : string) :
  indexOf xs x = -1 ↔ x ∉ xs.
Proof.
  induction xs as [|y ys IH]; simpl.
  - split; [intros _; apply not_elem_of_nil|done].
  - rewrite not_elem_of_cons.
    destruct (String.eqb_spec y x) as [->|Hne].
    + split; [lia|intros [? _]; done].
    + destruct (Z.eqb_spec (indexOf ys x) (-1)) as [He|Hn].
      * split; [intros _; split; [congruence|by apply IH]|done].
      * pose proof (indexOf_lower ys x) as Hlow.
        split; [lia|]. intros [_ H]. apply IH in H. done.
Qed.

Lemma indexOf_absent_b (xs : list string) (x : string) :
  Z.eqb (indexOf xs x) (-1) = bool_decide (x ∉ xs).
Proof.
  destruct (Z.eqb_spec (indexOf xs x) (-1)) as [H|H].
  - symmetry. apply bool_decide_eq_true. by apply indexOf_absent.
  - symmetry. apply bool_decide_eq_false. by rewrite <- indexOf_absent.
Qed.

Lemma Stackdriver_traceIds_fold (spans : list SpanData) (acc : list string) :
  let ids :=
    fold_left
      (λ knownIds span,
         if Z.eqb (indexOf knownIds (traceId span)) (-1)
         then knownIds ++ [traceId span]
         else knownIds)
      spans acc in
  NoDup acc →
  NoDup ids ∧ ∀ t, t ∈ ids ↔ t ∈ acc ∨ ∃ s, s ∈ spans ∧ traceId s = t.
Proof.
  revert acc. induction spans as [|s spans IH]; intros acc ids Hnd.
  - split; [exact Hnd|]. intros t. split; [auto|].
    intros [H|(s & Hs & _)]; [exact H|]. by apply elem_of_nil in Hs.
  - subst ids. cbn [fold_left]. rewrite indexOf_absent_b.
    destruct (bool_decide_reflect (traceId s ∉ acc)) as [Hout|Hin].
    + destruct (IH (acc ++ [traceId s])) as [H1 H2].
      { apply NoDup_app. split; [exact Hnd|]. split; [|apply NoDup_singleton].
        intros x Hx Hx'. apply list_elem_of_singleton in Hx'. by subst. }
      split; [exact H1|]. intros t. rewrite H2, elem_of_app,
        list_elem_of_singleton.
      split.
      * intros [[H| ->]|(s' & Hs' & Ht)]; [auto| |].
        -- right. exists s. split; [apply elem_of_cons; auto|done].
        -- right. exists s'. split; [apply elem_of_cons; auto|done].
      * intros [H|(s' & Hs' & Ht)]; [auto|].
        apply elem_of_cons in Hs' as [ ->|Hs']; [auto|]. right. eauto.
    + destruct (IH acc Hnd) as [H1 H2].
      split; [exact H1|]. intros t. rewrite H2. split.
      * intros [H|(s' & Hs' & Ht)]; [auto|].
        right. exists s'. split; [apply elem_of_cons; auto|done].
      * intros [H|(s' & Hs' & Ht)]; [auto|].
        apply elem_of_cons in Hs' as [ ->|Hs']; [|right; eauto].
        left. subst t. by apply dec_stable.
Qed.

Lemma Stackdriver_traceIds_spec (spans : list SpanData) :
  NoDup (Stackdriver_traceIds spans)
  ∧ ∀ t, t ∈ Stackdriver_traceIds spans ↔ ∃ s, s ∈ spans ∧ traceId s = t.
Proof.
  destruct (Stackdriver_traceIds_fold spans [] (NoDup_nil_2 (A:=string))) as [H1 H2].
  split; [exact H1|]. intros t. unfold Stackdriver_traceIds. rewrite H2.
  split; [|auto]. intros [H|H]; [|exact H]. by apply elem_of_nil in H.
Qed.

Lemma Stackdriver_translateSpans_ids (projectId : string)
    (spans : list SpanData) :
  map Stackdriver.traceId (Stackdriver_translateSpans projectId spans) =
  Stackdriver_traceIds spans.
Proof.
  unfold Stackdriver_translateSpans. rewrite map_map. simpl. apply map_id.
Qed.

(** X1. [translateSpans] returns one trace per trace id: the trace ids of
    the result are pairwise distinct, and they are the trace ids that occur
    in the spans. *)
Theorem Stackdriver_translateSpans_one_trace_per_id (projectId : string)
    (spans : list SpanData) :
  let ids :=
    map Stackdriver.traceId (Stackdriver_translateSpans projectId spans) in
  NoDup ids ∧ ∀ t, t ∈ ids ↔ ∃ s, s ∈ spans ∧ traceId s = t.
Proof.
  cbv zeta. rewrite Stackdriver_translateSpans_ids.
  apply Stackdriver_traceIds_spec.
Qed.

Lemma concat_map_nil {A B} (ids : list A) :
  concat (map (λ _, @nil B) ids) = [].
Proof. induction ids; simpl; auto. Qed.

Lemma concat_map_insert {A} (k : string) (x : A) (g : string → list A)
    (ids : list string) :
  NoDup ids → k ∈ ids →
  concat (map (λ id, if String.eqb k id then x :: g id else g id) ids)
  ≡ₚ x :: concat (map g ids).
Proof.
  induction ids as [|i ids IH]; intros Hnd Hk.
  - by apply elem_of_nil in Hk.
  - apply NoDup_cons in Hnd as [Hi Hnd]. simpl.
    destruct (String.eqb_spec k i) as [->|Hne].
    + simpl. constructor. apply Permutation_app_head.
      erewrite map_ext_in; [reflexivity|].
      intros j Hj. apply list_elem_of_In in Hj.
      destruct (String.eqb_spec i j) as [->|]; [done|reflexivity].
    + apply elem_of_cons in Hk as [?|Hk]; [done|].
      rewrite (IH Hnd Hk). symmetry. apply Permutation_middle.
Qed.

Lemma partition_by_key {A} (key : A → string) (ids : list string)
    (l : list A) :
  NoDup ids → (∀ x, x ∈ l → key x ∈ ids) →
  concat (map (λ id, List.filter (λ x, String.eqb (key x) id) l) ids) ≡ₚ l.
Proof.
  intros Hnd. induction l as [|x l IH]; intros Hin.
  - simpl. by rewrite concat_map_nil.
  - simpl. rewrite (concat_map_insert (key x) x
                      (λ id, List.filter (λ y, String.eqb (key y) id) l)
                      ids Hnd).
    + constructor. apply IH. intros y Hy. apply Hin, elem_of_cons. auto.
    + apply Hin, elem_of_cons. auto.
Qed.

(** X2. [translateSpans] loses and repeats no span: the spans of the
    traces it returns, taken together, are the translations of the spans
    it received, each one once. *)
Theorem Stackdriver_translateSpans_partition (projectId : string)
    (spans : list SpanData) :
  concat (map Stackdriver.spans (Stackdriver_translateSpans projectId spans))
  ≡ₚ map Stackdriver_translateSpan spans.
Proof.
  unfold Stackdriver_translateSpans. rewrite map_map. cbn [Stackdriver.spans].
  rewrite <- (map_map (λ id, List.filter
                              (λ span, String.eqb (traceId span) id) spans)
                (map Stackdriver_translateSpan)).
  rewrite <- concat_map. apply Permutation_map.
  destruct (Stackdriver_traceIds_spec spans) as [Hnd Hin].
  apply partition_by_key; [exact Hnd|].
  intros s Hs. apply Hin. eauto.
Qed.

Lemma filter_filter {A} (f g : A → bool) (l : list A) :
  List.filter f (List.filter g l) = List.filter (λ x, g x && f x) l.
Proof.
  induction l as [|x l IH]; simpl; [reflexivity|].
  destruct (g x); simpl; [destruct (f x)|]; by rewrite IH.
Qed.

Lemma Stackdriver_traceIds_acc (spans : list SpanData) (acc : list string) :
  let step :=
    λ (knownIds : list string) (span : SpanData),
      if Z.eqb (indexOf knownIds (traceId span)) (-1)
      then knownIds ++ [traceId span]
      else knownIds in
  fold_left step spans acc =
  acc ++ List.filter (λ t, bool_decide (t ∉ acc)) (fold_left step spans []).
Proof.
  intros step. revert acc.
  induction spans as [|s spans IH]; intros acc.
  - simpl. by rewrite app_nil_r.
  - cbn [fold_left].
    assert (Hnil : step [] s = [traceId s]) by reflexivity.
    assert (Hacc : step acc s =
                   if bool_decide (traceId s ∉ acc)
                   then acc ++ [traceId s] else acc).
    { unfold step. by rewrite indexOf_absent_b. }
    rewrite Hnil, (IH [traceId s]), Hacc.
    destruct (bool_decide_reflect (traceId s ∉ acc)) as [Hout|Hin].
    + rewrite (IH (acc ++ [traceId s])), <- app_assoc. f_equal.
      cbn [app List.filter]. rewrite (bool_decide_eq_true_2 _ Hout).
      f_equal. rewrite filter_filter. apply List.filter_ext. intros t.
      rewrite <- bool_decide_and. apply bool_decide_ext.
      rewrite not_elem_of_app. tauto.
    + rewrite (IH acc). f_equal.
      cbn [app List.filter]. rewrite (bool_decide_eq_false_2 _ Hin).
      rewrite filter_filter. apply List.filter_ext. intros t.
      rewrite <- bool_decide_and. apply bool_decide_ext.
      rewrite list_elem_of_singleton. split; [|tauto].
      intros Ht. split; [|exact Ht]. intros ->. by apply Hin.
Qed.

(** X3. [translateSpans] lists the traces in the order in which their
    trace ids first occur in the spans: the first trace is the one of the
    first span, and the others follow as they would without it. *)
Theorem Stackdriver_translateSpans_first_occurrence (projectId : string)
    (s : SpanData) (spans : list SpanData) :
  map Stackdriver.traceId (Stackdriver_translateSpans projectId (s :: spans))
  = traceId s
    :: List.filter (λ t, negb (String.eqb t (traceId s)))
         (map Stackdriver.traceId
            (Stackdriver_translateSpans projectId spans)).
Proof.
  rewrite !Stackdriver_translateSpans_ids. unfold Stackdriver_traceIds.
  cbn [fold_left indexOf].
  change (if Z.eqb (-1) (-1) then [] ++ [traceId s] else [])
    with [traceId s].
  rewrite (Stackdriver_traceIds_acc spans [traceId s]). cbn [app]. f_equal.
  apply List.filter_ext. intros t.
  destruct (String.eqb_spec t (traceId s)) as [->|Hne]; simpl.
  - apply bool_decide_eq_false_2. intros H. apply H, list_elem_of_singleton.
    reflexivity.
  - apply bool_decide_eq_true_2. by rewrite list_elem_of_singleton.
Qed.

(** ** Instana: the translation of a span *)

Lemma to_int32_range (x : Z) : (- 2 ^ 31 <= to_int32 x < 2 ^ 31)%Z.
Proof.
  unfold to_int32.
  pose proof (Z.mod_pos_bound (x + 2 ^ 31) (2 ^ 32) ltac:(lia)). lia.
Qed.

Lemma to_int32_small (x : Z) :
  (- 2 ^ 31 <= x < 2 ^ 31)%Z → to_int32 x = x.
Proof. intros H. unfold to_int32. rewrite Z.mod_small; lia. Qed.

Lemma to_int32_congruent (x : Z) : ((to_int32 x - x) mod 2 ^ 32 = 0)%Z.
Proof.
  unfold to_int32.
  pose proof (Z.div_mod (x + 2 ^ 31) (2 ^ 32) ltac:(lia)) as H.
  replace ((x + 2 ^ 31) mod 2 ^ 32 - 2 ^ 31 - x)%Z
    with (- ((x + 2 ^ 31) / 2 ^ 32) * 2 ^ 32)%Z by lia.
  apply Z.mod_mul. lia.
Qed.

(** X4. The duration that the Instana exporter reports is a signed 32-bit
    integer congruent to [endTime - startTime] modulo [2^32]; it is
    [endTime - startTime] exactly when that difference is itself a signed
    32-bit integer (a span of [2^31] milliseconds or more is reported with
    another duration). *)
Theorem Instana_translateSpan_duration (span : SpanData) :
  let d := (endTime span - startTime span)%Z in
  let reported := InstanaSpan.duration (Instana_translateSpan span) in
  (- 2 ^ 31 <= reported < 2 ^ 31)%Z
  ∧ ((reported - d) mod 2 ^ 32 = 0)%Z
  ∧ (reported = d ↔ (- 2 ^ 31 <= d < 2 ^ 31)%Z).
Proof.
  cbv zeta. cbn [Instana_translateSpan InstanaSpan.duration].
  split; [apply to_int32_range|]. split; [apply to_int32_congruent|].
  split.
  - intros <-. apply to_int32_range.
  - apply to_int32_small.
Qed.

Lemma substring_0_spec (n : nat) (s : string) :
  ∃ rest, s = substring 0 n s +:+ rest
          ∧ String.length (substring 0 n s) = Nat.min n (String.length s).
Proof.
  revert s. induction n as [|n IH]; intros s.
  - exists s. by destruct s.
  - destruct s as [|c s]; [by exists EmptyString|].
    destruct (IH s) as (rest & Hs & Hlen). exists rest. simpl.
    split; [|by rewrite Hlen].
    change (String c s = String c (substring 0 n s +:+ rest)). congruence.
Qed.

(** X5. The trace id that the Instana exporter reports is the trace id of
    the span cut after its first eight characters: a prefix of it, of
    length eight or of the length of the trace id when that is shorter. *)
Theorem Instana_translateSpan_traceId (span : SpanData) :
  let reported := InstanaSpan.traceId (Instana_translateSpan span) in
  (∃ rest, traceId span = reported +:+ rest)
  ∧ String.length reported = Nat.min 8 (String.length (traceId span)).
Proof.
  cbv zeta. cbn [Instana_translateSpan InstanaSpan.traceId].
  destruct (substring_0_spec 8 (traceId span)) as (rest & H1 & H2).
  split; [by exists rest|exact H2].
Qed.

(** X6. The Instana exporter never reports an empty parent id: the field
    is absent exactly when the span has the parent id [''], and holds the
    parent id of the span otherwise. *)
Theorem Instana_translateSpan_parentId (span : SpanData) :
  let reported := InstanaSpan.parentId (Instana_translateSpan span) in
  reported ≠ Some ""
  ∧ (reported = None ↔ parentSpanId span = "")
  ∧ ∀ p, reported = Some p → p = parentSpanId span.
Proof.
  cbv zeta. cbn [Instana_translateSpan InstanaSpan.parentId].
  unfold truthy_string.
  destruct (String.eqb_spec (parentSpanId span) "") as [->|Hne]; simpl.
  - split; [discriminate|]. split; [done|]. discriminate.
  - split; [congruence|]. split; [split; [discriminate|done]|]. congruence.
Qed.




(** ** Zpages: the lists of spans by name *)

Lemma Zpages_update_None (span : SpanData) (spans : list ZpagesEntry) :
  Zpages_update span spans = None ↔
  spanId span ∉ omap ZpagesEntry_spanId spans.
Proof.
  induction spans as [|e spans IH]; simpl.
  - split; [intros _; apply not_elem_of_nil|done].
  - destruct (bool_decide_reflect
                (ZpagesEntry_spanId e = Some (spanId span))) as [He|He].
    + rewrite He. split; [done|]. intros H. exfalso. apply H.
      apply elem_of_cons. auto.
    + destruct (Zpages_update span spans) as [l|] eqn:Hu; simpl.
      * split; [done|]. intros H. exfalso.
        assert (spanId span ∈ omap ZpagesEntry_spanId spans) as Hin.
        { apply dec_stable. intros Hn. apply IH in Hn. done. }
        apply H. destruct (ZpagesEntry_spanId e);
          [apply elem_of_cons; auto|exact Hin].
      * split; [|done]. intros _.
        assert (spanId span ∉ omap ZpagesEntry_spanId spans) as Hout
          by by apply IH.
        destruct (ZpagesEntry_spanId e) as [i|]; [|exact Hout].
        rewrite not_elem_of_cons. split; [congruence|exact Hout].
Qed.

Lemma Zpages_update_Some (span : SpanData) (spans spans' : list ZpagesEntry) :
  Zpages_update span spans = Some spans' →
  omap ZpagesEntry_spanId spans' = omap ZpagesEntry_spanId spans
  ∧ Recorded span ∈ spans'
  ∧ length spans' = length spans.
Proof.
  revert spans'. induction spans as [|e spans IH]; intros spans'; simpl;
    [done|].
  destruct (bool_decide_reflect
              (ZpagesEntry_spanId e = Some (spanId span))) as [He|He].
  - intros [= <-]. simpl. rewrite He. split; [reflexivity|].
    split; [apply elem_of_cons; auto|reflexivity].
  - destruct (Zpages_update span spans) as [l|]; simpl; [|done].
    intros [= <-]. destruct (IH l eq_refl) as (H1 & H2 & H3).
    unfold omap in H1 |- *. simpl. rewrite H1, H3. split; [reflexivity|].
    split; [apply elem_of_cons; auto|reflexivity].
Qed.

(** X9. After [pushSpan(span)] the list under the name of the span holds
    the span, and the lists under the other names are what they were. *)
Theorem Zpages_pushSpan_records (span : SpanData)
    (traces : gmap string (list ZpagesEntry)) :
  (∃ spans, Zpages_pushSpan span traces !! name span = Some spans
            ∧ Recorded span ∈ spans)
  ∧ ∀ other, other ≠ name span →
      Zpages_pushSpan span traces !! other = traces !! other.
Proof.
  unfold Zpages_pushSpan.
  destruct (traces !! name span) as [spans|] eqn:Hn.
  - destruct (Zpages_update span spans) as [spans'|] eqn:Hu.
    + split.
      * exists spans'. rewrite lookup_insert_eq. split; [reflexivity|].
        by apply Zpages_update_Some in Hu as (_ & H & _).
      * intros other Hne. by rewrite lookup_insert_ne.
    + split.
      * exists (spans ++ [Recorded span]). rewrite lookup_insert_eq.
        split; [reflexivity|]. apply elem_of_app. right.
        apply list_elem_of_singleton. reflexivity.
      * intros other Hne. by rewrite lookup_insert_ne.
  - split.
    + exists [Recorded span]. rewrite lookup_insert_eq.
      split; [reflexivity|]. apply list_elem_of_singleton. reflexivity.
    + intros other Hne. by rewrite lookup_insert_ne.
Qed.

Lemma Zpages_update_again (s1 s2 : SpanData) (spans spans' : list ZpagesEntry) :
  spanId s1 = spanId s2 →
  Zpages_update s1 spans = Some spans' →
  Zpages_update s2 spans' = Zpages_update s2 spans.
Proof.
  intros Hid. revert spans'.
  induction spans as [|e spans IH]; intros spans'; simpl; [done|].
  rewrite Hid.
  destruct (bool_decide_reflect
              (ZpagesEntry_spanId e = Some (spanId s2))) as [He|He].
  - intros [= <-]. simpl. rewrite Hid.
    by rewrite bool_decide_eq_true_2.
  - destruct (Zpages_update s1 spans) as [l|]; simpl; [|done].
    intros [= <-]. simpl. rewrite bool_decide_eq_false_2 by exact He.
    by rewrite (IH l eq_refl).
Qed.

Lemma Zpages_update_appended (s1 s2 : SpanData) (spans : list ZpagesEntry) :
  spanId s1 = spanId s2 →
  Zpages_update s1 spans = None →
  Zpages_update s2 spans = None
  ∧ Zpages_update s2 (spans ++ [Recorded s1]) =
    Some (spans ++ [Recorded s2]).
Proof.
  intros Hid.
  induction spans as [|e spans IH]; simpl.
  - intros _. split; [reflexivity|].
    by rewrite Hid, bool_decide_eq_true_2.
  - rewrite Hid.
    destruct (bool_decide_reflect
                (ZpagesEntry_spanId e = Some (spanId s2))) as [He|He];
      [done|].
    destruct (Zpages_update s1 spans) as [l|]; simpl; [done|].
    intros _. destruct (IH eq_refl) as [H1 H2]. by rewrite H1, H2.
Qed.

(** X10. An event for a span overwrites what an earlier event for the same
    span left: [pushSpan] of a record, then of a record with the same name
    and [spanId], leaves the exporter as the second [pushSpan] alone does.
    So a span that starts and ends is listed once, with the record of its
    end, and an event that is repeated changes nothing. *)
Theorem Zpages_pushSpan_absorbs (s1 s2 : SpanData)
    (traces : gmap string (list ZpagesEntry)) :
  name s1 = name s2 → spanId s1 = spanId s2 →
  Zpages_pushSpan s2 (Zpages_pushSpan s1 traces) = Zpages_pushSpan s2 traces.
Proof.
  intros Hname Hid. unfold Zpages_pushSpan. rewrite Hname.
  destruct (traces !! name s2) as [spans|] eqn:Hn.
  - destruct (Zpages_update s1 spans) as [spans'|] eqn:Hu.
    + rewrite lookup_insert_eq.
      rewrite (Zpages_update_again s1 s2 spans spans' Hid Hu).
      destruct (Zpages_update s2 spans) as [l|] eqn:Hu2.
      * by rewrite insert_insert_eq.
      * apply Zpages_update_None in Hu2. rewrite <- Hid in Hu2.
        apply Zpages_update_None in Hu2. congruence.
    + rewrite lookup_insert_eq.
      destruct (Zpages_update_appended s1 s2 spans Hid Hu) as [H1 H2].
      rewrite H1, H2. by rewrite insert_insert_eq.
  - rewrite lookup_insert_eq. simpl. rewrite Hid.
    rewrite bool_decide_eq_true_2 by reflexivity.
    by rewrite insert_insert_eq.
Qed.

Lemma Zpages_pushSpan_absorbs_witness :
  let at_start := set_name "GET /users" (data demo_child_open) in
  let at_end := set_endTime 999 at_start in
  Zpages_pushSpan at_end
    (Zpages_pushSpan at_start (Zpages_new (Some ["GET /users"])))
  = Zpages_pushSpan at_end (Zpages_new (Some ["GET /users"])).
Proof.
  apply (Zpages_pushSpan_absorbs
           (set_name "GET /users" (data demo_child_open))
           (set_endTime 999 (set_name "GET /users" (data demo_child_open))));
    reflexivity.
Defined.

Lemma Zpages_pushSpan_distinct (span : SpanData)
    (traces : gmap string (list ZpagesEntry)) :
  Zpages_distinct traces → Zpages_distinct (Zpages_pushSpan span traces).
Proof.
  intros Hd n l. unfold Zpages_pushSpan.
  destruct (traces !! name span) as [spans|] eqn:Hn.
  - destruct (Zpages_update span spans) as [spans'|] eqn:Hu.
    + intros [[_ <-]|[_ H]]%lookup_insert_Some; [|by apply (Hd n)].
      apply Zpages_update_Some in Hu as (-> & _ & _). by apply (Hd (name span)).
    + intros [[_ <-]|[_ H]]%lookup_insert_Some; [|by apply (Hd n)].
      rewrite omap_app. apply NoDup_app.
      split; [by apply (Hd (name span))|].
      split; [|apply NoDup_singleton].
      intros x Hx Hx'. apply list_elem_of_singleton in Hx' as ->.
      by apply Zpages_update_None in Hu.
  - intros [[_ <-]|[_ H]]%lookup_insert_Some; [|by apply (Hd n)].
    apply NoDup_singleton.
Qed.

Lemma Zpages_registerSpanNames_distinct (spanNames : list string)
    (traces : gmap string (list ZpagesEntry)) :
  Zpages_distinct traces →
  Zpages_distinct (Zpages_registerSpanNames spanNames traces).
Proof.
  revert traces. unfold Zpages_registerSpanNames.
  induction spanNames as [|n names IH]; intros traces Hd; [exact Hd|].
  cbn [fold_left]. apply IH. intros m l.
  intros [[_ <-]|[_ H]]%lookup_insert_Some; [apply NoDup_nil_2|].
  by apply (Hd m).
Qed.

(** X11. The exporter never lists a span twice under a name: whatever
    names it was constructed with and whatever events it has received, no
    list of [traces] holds two records with the same [spanId]. *)
Theorem Zpages_spanIds_distinct (spanNames : option (list string))
    (events : list SpanData) :
  Zpages_distinct (Zpages_receive events (Zpages_new spanNames)).
Proof.
  assert (Zpages_distinct (Zpages_new spanNames)) as Hnew.
  { destruct spanNames as [names|]; simpl.
    - apply Zpages_registerSpanNames_distinct. intros n l H.
      by rewrite lookup_empty in H.
    - intros n l H. by rewrite lookup_empty in H. }
  revert Hnew. generalize (Zpages_new spanNames). unfold Zpages_receive.
  induction events as [|span events IH]; intros traces Hd; [exact Hd|].
  cbn [fold_left]. apply IH. by apply Zpages_pushSpan_distinct.
Qed.

Lemma Zpages_registerSpanNames_lookup (spanNames : list string)
    (traces : gmap string (list ZpagesEntry)) (n : string) :
  n ∈ spanNames →
  Zpages_registerSpanNames spanNames traces !! n = Some [NameOnly n].
Proof.
  unfold Zpages_registerSpanNames.
  induction spanNames as [|m names IH] using rev_ind; intros Hin.
  - by apply elem_of_nil in Hin.
  - rewrite fold_left_app. cbn [fold_left].
    destruct (decide (m = n)) as [->|Hne]; [by rewrite lookup_insert_eq|].
    rewrite lookup_insert_ne by exact Hne. apply IH.
    apply elem_of_app in Hin as [Hin|Hin]; [exact Hin|].
    apply list_elem_of_singleton in Hin. congruence.
Qed.

Lemma Zpages_pushSpan_head (span : SpanData)
    (traces : gmap string (list ZpagesEntry)) (n : string)
    (l : list ZpagesEntry) :
  traces !! n = Some (NameOnly n :: l) →
  ∃ l', Zpages_pushSpan span traces !! n = Some (NameOnly n :: l').
Proof.
  intros Hn. unfold Zpages_pushSpan.
  destruct (decide (name span = n)) as [<-|Hne].
  - rewrite Hn. simpl.
    destruct (Zpages_update span l) as [l'|]; simpl;
      rewrite lookup_insert_eq; eauto.
  - destruct (traces !! name span) as [spans|];
      [destruct (Zpages_update span spans)|];
      rewrite lookup_insert_ne by exact Hne; eauto.
Qed.

(** X12. The object [{name}] that the constructor stores for a predefined
    span name is never replaced nor removed: whatever events the exporter
    has received, the list under a predefined name starts with that
    object, which has no [spanId] and no time stamps. *)
Theorem Zpages_predefined_name_entry (spanNames : list string)
    (events : list SpanData) (n : string) :
  n ∈ spanNames →
  ∃ l, Zpages_receive events (Zpages_new (Some spanNames)) !! n =
       Some (NameOnly n :: l).
Proof.
  intros Hin.
  assert (∃ l, Zpages_new (Some spanNames) !! n = Some (NameOnly n :: l))
    as Hnew.
  { exists []. by apply Zpages_registerSpanNames_lookup. }
  revert Hnew. generalize (Zpages_new (Some spanNames)).
  unfold Zpages_receive.
  induction events as [|span events IH]; intros traces Hd; [exact Hd|].
  cbn [fold_left]. apply IH. destruct Hd as [l Hl].
  by apply (Zpages_pushSpan_head span traces n l).
Qed.

Lemma Zpages_predefined_name_entry_witness :
  ∃ l,
    Zpages_receive
      [set_name "GET /users" (data demo_child_open);
       set_endTime 999 (set_name "GET /users" (data demo_child_open))]
      (Zpages_new (Some ["GET /users"])) !! "GET /users"
    = Some (NameOnly "GET /users" :: l).
Proof.
  apply (Zpages_predefined_name_entry ["GET /users"]
           [set_name "GET /users" (data demo_child_open);
            set_endTime 999 (set_name "GET /users" (data demo_child_open))]
           "GET /users").
  apply list_elem_of_singleton. reflexivity.
Defined.

(** * What every program maintains *)

(** ** From the primitive steps to programs *)

Section Kept.

Variable clock : nat → Z.
Variable randomSpanId : nat → string.
Variable uuid_v4 : nat → string.
Variable stack : nat.

Variable I : World → Prop.
Variable R : World → World → Prop.
Variable New : Span → Prop.

Hypothesis R_refl : ∀ w, R w w.
Hypothesis R_trans : ∀ w1 w2 w3, R w1 w2 → R w2 w3 → R w1 w3.

Hypothesis kept_log : ∀ a lvl msg, keeps I R (log a lvl msg).
Hypothesis kept_draw : ∀ generator, keeps I R (draw generator).
Hypothesis kept_update : ∀ a f, update f → keeps I R (modify a f).
Hypothesis kept_new : ∀ o, New o → keeps I R (alloc o).
Hypothesis kept_BaseSpan_start : ∀ a, keeps I R (BaseSpan_start clock stack a).
Hypothesis kept_BaseSpan_end : ∀ a, keeps I R (BaseSpan_end clock stack a).
Hypothesis kept_startChildSpan :
  ∀ r nm k, keeps I R (startChildSpan clock randomSpanId stack r nm k).

Lemma kept_bind {A B} (m : M A) (k : A → M B) :
  keeps I R m → (∀ x, keeps I R (k x)) → keeps I R (bind m k).
Proof. apply keeps_bind, R_trans. Qed.

Lemma kept_get (a : addr) : keeps I R (get a).
Proof. apply keeps_get, R_refl. Qed.

Lemma kept_ret {A} (x : A) : keeps I R (ret x).
Proof. apply keeps_ret, R_refl. Qed.

Lemma kept_throw {A} : keeps I R (@throw A).
Proof. apply keeps_throw, R_refl. Qed.

Lemma kept_truncate_with (e : addr → M unit) (a : addr) :
  keeps I R (e a) → keeps I R (truncate_with e a).
Proof.
  intros He. unfold truncate_with.
  apply kept_bind; [apply kept_update, update_truncated|].
  intros _. apply kept_bind; [exact He|]. intros _. apply kept_log.
Qed.

Lemma kept_truncate_open_child (c : addr) :
  keeps I R (truncate_open_child clock stack c).
Proof.
  unfold truncate_open_child.
  apply kept_bind; [apply kept_get|]. intros [b kids|s].
  - apply kept_throw.
  - destruct (negb (ended s) && started s).
    + apply kept_truncate_with, kept_BaseSpan_end.
    + apply kept_ret.
Qed.

Lemma kept_RootSpan_end (r : addr) : keeps I R (RootSpan_end clock stack r).
Proof.
  unfold RootSpan_end.
  apply kept_bind; [apply kept_get|]. intros [b kids|s].
  - apply kept_bind; [|intros _; apply kept_BaseSpan_end].
    apply keeps_forM; [exact R_refl|exact R_trans|].
    apply kept_truncate_open_child.
  - apply kept_throw.
Qed.

Lemma kept_end_ (a : addr) : keeps I R (end_ clock stack a).
Proof.
  unfold end_.
  apply kept_bind; [apply kept_get|]. intros [b kids|s].
  - apply kept_RootSpan_end.
  - apply kept_BaseSpan_end.
Qed.

Lemma kept_truncate (a : addr) : keeps I R (truncate clock stack a).
Proof. apply kept_truncate_with, kept_end_. Qed.

Lemma kept_exec (op : Op) :
  constructs New op → keeps I R (exec clock randomSpanId uuid_v4 stack op).
Proof.
  intros Hop. destruct op; simpl in *.
  - apply kept_bind; [apply kept_draw|]. intros rnd.
    apply kept_bind; [apply kept_draw|]. intros uuid.
    apply kept_bind; [by apply kept_new|]. intros _. apply kept_ret.
  - apply kept_bind; [apply kept_draw|]. intros rnd.
    apply kept_bind; [by apply kept_new|]. intros _. apply kept_ret.
  - apply kept_BaseSpan_start.
  - apply kept_end_.
  - apply kept_truncate.
  - apply kept_bind; [apply kept_startChildSpan|]. intros _. apply kept_ret.
  - apply kept_update. constructor.
  - apply kept_update. constructor.
  - apply kept_update. constructor.
  - apply kept_update. constructor.
  - apply kept_update. constructor.
  - apply kept_update. constructor.
  - apply kept_update. constructor.
Qed.

Lemma run_kept (ops : list Op) (w : World) :
  Forall (constructs New) ops →
  I w →
  I (run clock randomSpanId uuid_v4 stack ops w)
  ∧ R w (run clock randomSpanId uuid_v4 stack ops w).
Proof.
  intros Hops. revert w.
  induction Hops as [|op ops Hop _ IH]; intros w Hw; simpl; [auto|].
  destruct (kept_exec op Hop w Hw) as [H1 H2].
  destruct (IH _ H1) as [H3 H4]. split; [exact H3|].
  eapply R_trans; [exact H2|exact H4].
Qed.

End Kept.

(** ** Properties of the heap *)

Section Maintained.

Variable clock : nat → Z.
Variable randomSpanId : nat → string.
Variable uuid_v4 : nat → string.
Variable stack : nat.

Variable I : gmap addr Span → Prop.
Variable R : gmap addr Span → gmap addr Span → Prop.
Variable New : Span → Prop.

Hypothesis R_refl : ∀ h, R h h.
Hypothesis R_trans : ∀ h1 h2 h3, R h1 h2 → R h2 h3 → R h1 h3.

Hypothesis on_start :
  ∀ h a o t,
    I h → h !! a = Some o → started (base o) = false →
    let h' := <[a := with_base (with_data (set_startTime t)) o]> h in
    I h' ∧ R h h'.

Hypothesis on_end :
  ∀ h a o t,
    I h → h !! a = Some o →
    ended (base o) = false → started (base o) = true →
    let h' := <[a := with_base (with_data (set_endTime t)) o]> h in
    I h' ∧ R h h'.

Hypothesis on_update :
  ∀ h a o f,
    update f → I h → h !! a = Some o →
    I (<[a := f o]> h) ∧ R h (<[a := f o]> h).

Hypothesis on_new :
  ∀ h o,
    New o → I h →
    I (<[fresh (dom h) := o]> h) ∧ R h (<[fresh (dom h) := o]> h).

Hypothesis on_child :
  ∀ w r b kids nm k,
    I (heap w) → heap w !! r = Some (RootSpan b kids) →
    ended b = false → started b = true →
    let c := fresh (dom (heap w)) in
    let s := started_child clock randomSpanId r b nm k w in
    let h1 := <[c := ChildSpan s]> (heap w) in
    let h2 := <[r := RootSpan b (kids ++ [c])]> h1 in
    I h1 ∧ R (heap w) h1 ∧ I h2 ∧ R (heap w) h2.

Lemma maintains_same_heap {A} (m : M A) :
  (∀ w, heap (m w).2 = heap w) → maintains I R m.
Proof. intros H w Hw. rewrite H. auto. Qed.

Lemma maintains_log (a : addr) (lvl : Level) (msg : Message) :
  maintains I R (log a lvl msg).
Proof. by apply maintains_same_heap. Qed.

Lemma maintains_update (a : addr) (f : Span → Span) :
  update f → maintains I R (modify a f).
Proof.
  intros Hf w Hw. unfold modify, bind, get, put.
  destruct (heap w !! a) as [o|] eqn:Ha; simpl; [|auto].
  by apply on_update.
Qed.

Lemma maintains_BaseSpan_start (a : addr) :
  maintains I R (BaseSpan_start clock stack a).
Proof.
  intros w Hw. destruct (heap w !! a) as [o|] eqn:Ha.
  - rewrite (BaseSpan_start_eq clock stack a w o Ha).
    destruct (started (base o)) eqn:Hst; [simpl; auto|].
    cbv zeta. cbn [snd heap]. by apply on_start.
  - unfold BaseSpan_start, bind, get. rewrite Ha. simpl. auto.
Qed.

Lemma maintains_BaseSpan_end (a : addr) :
  maintains I R (BaseSpan_end clock stack a).
Proof.
  intros w Hw. destruct (heap w !! a) as [o|] eqn:Ha.
  - rewrite (BaseSpan_end_eq clock stack a w o Ha).
    destruct (ended (base o)) eqn:Hen; [simpl; auto|].
    destruct (started (base o)) eqn:Hst; [|simpl; auto].
    cbv zeta. cbn [negb].
    destruct (on_end (heap w) a o (clock (reads w)) Hw Ha Hen Hst)
      as [HI HR].
    destruct (forEach _ _) as [evs ok]. destruct ok; cbn [fst snd heap];
      [|auto].
    destruct (on_update _ a
                (with_base (with_data (set_endTime (clock (reads w)))) o)
                _ update_release HI (lookup_insert_eq _ _ _)) as [HI' HR'].
    split; [exact HI'|]. eapply R_trans; [exact HR|exact HR'].
  - unfold BaseSpan_end, bind, get. rewrite Ha. simpl. auto.
Qed.

Lemma maintains_startChildSpan (r : addr) (nm : string)
    (k : option SpanKind) :
  maintains I R (startChildSpan clock randomSpanId stack r nm k).
Proof.
  intros w Hw. destruct (heap w !! r) as [[b kids|s]|] eqn:Hr.
  - rewrite (startChildSpan_eq clock randomSpanId stack r w b kids nm k Hr).
    destruct (ended b) eqn:Hen; [simpl; auto|].
    destruct (started b) eqn:Hst; [|simpl; auto].
    cbv zeta. cbn [negb].
    destruct (on_child w r b kids nm k Hw Hr Hen Hst)
      as (H1 & H2 & H3 & H4).
    destruct (forEach _ _) as [evs ok]. destruct ok; cbn [fst snd heap];
      auto.
  - unfold startChildSpan, bind, get. rewrite Hr. simpl. auto.
  - unfold startChildSpan, bind, get. rewrite Hr. simpl. auto.
Qed.

Lemma maintains_new (o : Span) : New o → maintains I R (alloc o).
Proof. intros Ho w Hw. unfold alloc. simpl. by apply on_new. Qed.

Lemma run_maintains (ops : list Op) (w : World) :
  Forall (constructs New) ops →
  I (heap w) →
  I (heap (run clock randomSpanId uuid_v4 stack ops w))
  ∧ R (heap w) (heap (run clock randomSpanId uuid_v4 stack ops w)).
Proof.
  apply (run_kept clock randomSpanId uuid_v4 stack
           (λ w, I (heap w)) (λ w w', R (heap w) (heap w')) New).
  - intros w1. apply R_refl.
  - intros w1 w2 w3. apply R_trans.
  - apply maintains_log.
  - intros generator. by apply maintains_same_heap.
  - apply maintains_update.
  - apply maintains_new.
  - apply maintains_BaseSpan_start.
  - apply maintains_BaseSpan_end.
  - apply maintains_startChildSpan.
Qed.

End Maintained.

Section Objects.

Variable clock : nat → Z.
Variable randomSpanId : nat → string.
Variable uuid_v4 : nat → string.
Variable stack : nat.

Variable P : Span → Prop.
Variable Rel : Span → Span → Prop.

Hypothesis Rel_refl : ∀ o, Rel o o.
Hypothesis Rel_trans : ∀ o1 o2 o3, Rel o1 o2 → Rel o2 o3 → Rel o1 o3.

Hypothesis step_start :
  ∀ o t,
    P o → started (base o) = false →
    P (with_base (with_data (set_startTime t)) o)
    ∧ Rel o (with_base (with_data (set_startTime t)) o).

Hypothesis step_end :
  ∀ o t,
    P o → ended (base o) = false → started (base o) = true →
    P (with_base (with_data (set_endTime t)) o)
    ∧ Rel o (with_base (with_data (set_endTime t)) o).

Hypothesis step_update : ∀ o f, update f → P o → P (f o) ∧ Rel o (f o).

Hypothesis step_child :
  ∀ r b nm k w, P (ChildSpan (started_child clock randomSpanId r b nm k w)).

Hypothesis step_push :
  ∀ b kids c,
    P (RootSpan b kids) →
    P (RootSpan b (kids ++ [c]))
    ∧ Rel (RootSpan b kids) (RootSpan b (kids ++ [c])).

Lemma heap_rel_refl (h : gmap addr Span) : heap_rel Rel h h.
Proof. intros a o Ha. eauto. Qed.

Lemma heap_rel_trans (h1 h2 h3 : gmap addr Span) :
  heap_rel Rel h1 h2 → heap_rel Rel h2 h3 → heap_rel Rel h1 h3.
Proof.
  intros H12 H23 a o Ha.
  destruct (H12 a o Ha) as (o2 & Ha2 & Ho2).
  destruct (H23 a o2 Ha2) as (o3 & Ha3 & Ho3). eauto.
Qed.

Lemma heap_all_rel_insert (h : gmap addr Span) (a : addr) (o o' : Span) :
  heap_all P h → h !! a = Some o → P o' → Rel o o' →
  heap_all P (<[a := o']> h) ∧ heap_rel Rel h (<[a := o']> h).
Proof.
  intros Hall Ha HP HR. split.
  - intros c oc [[_ <-]|[_ Hc]]%lookup_insert_Some; [exact HP|].
    by apply (Hall c).
  - intros c oc Hc. destruct (decide (c = a)) as [->|Hne].
    + rewrite lookup_insert_eq. assert (oc = o) as -> by congruence. eauto.
    + rewrite lookup_insert_ne by done. eauto.
Qed.

Lemma heap_all_rel_fresh (h : gmap addr Span) (o : Span) :
  heap_all P h → P o →
  heap_all P (<[fresh (dom h) := o]> h)
  ∧ heap_rel Rel h (<[fresh (dom h) := o]> h).
Proof.
  intros Hall HP. split.
  - intros c oc [[_ <-]|[_ Hc]]%lookup_insert_Some; [exact HP|].
    by apply (Hall c).
  - intros c oc Hc. exists oc. split; [|apply Rel_refl].
    rewrite lookup_insert_ne; [exact Hc|]. intros <-.
    rewrite fresh_unallocated in Hc. discriminate.
Qed.

Lemma run_objects (ops : list Op) (w : World) :
  Forall (constructs P) ops →
  heap_all P (heap w) →
  heap_all P (heap (run clock randomSpanId uuid_v4 stack ops w))
  ∧ heap_rel Rel (heap w)
      (heap (run clock randomSpanId uuid_v4 stack ops w)).
Proof.
  apply (run_maintains clock randomSpanId uuid_v4 stack
           (heap_all P) (heap_rel Rel) P).
  - apply heap_rel_refl.
  - apply heap_rel_trans.
  - intros h a o t Hh Ha Hst. cbv zeta.
    destruct (step_start o t (Hh a o Ha) Hst) as [H1 H2].
    by apply (heap_all_rel_insert h a o).
  - intros h a o t Hh Ha Hen Hst. cbv zeta.
    destruct (step_end o t (Hh a o Ha) Hen Hst) as [H1 H2].
    by apply (heap_all_rel_insert h a o).
  - intros h a o f Hf Hh Ha.
    destruct (step_update o f Hf (Hh a o Ha)) as [H1 H2].
    by apply (heap_all_rel_insert h a o).
  - intros h o Ho Hh. by apply heap_all_rel_fresh.
  - intros w' r b kids nm k Hh Hr Hen Hst. cbv zeta.
    destruct (heap_all_rel_fresh (heap w')
                (ChildSpan (started_child clock randomSpanId r b nm k w'))
                Hh (step_child r b nm k w')) as [H1 H2].
    split; [exact H1|]. split; [exact H2|].
    destruct (step_push b kids (fresh (dom (heap w'))) (Hh r _ Hr))
      as [H3 H4].
    destruct (heap_all_rel_insert _ r (RootSpan b kids)
                (RootSpan b (kids ++ [fresh (dom (heap w'))])) H1)
      as [H5 H6]; [|exact H3|exact H4|].
    { rewrite lookup_insert_ne; [exact Hr|]. intros <-.
      rewrite fresh_unallocated in Hr. discriminate. }
    split; [exact H5|]. eapply heap_rel_trans; [exact H2|exact H6].
Qed.

End Objects.

(** ** The flag that tells root spans from child spans *)

Lemma constructs_flagged (op : Op) : constructs flagged op.
Proof.
  destruct op; simpl; auto.
  - intros rnd uuid. destruct options as [[nm [ctx|] k]|]; reflexivity.
  - intros rnd. reflexivity.
Qed.

Lemma update_flagged (o : Span) (f : Span → Span) :
  update f → flagged o → flagged (f o).
Proof. intros Hf. destruct Hf, o; simpl; auto. Qed.

(** X13. In every world that a program reaches from the empty world,
    [sameProcessAsParentSpan] is [false] in the record of every root span
    and [true] in the record of every child span: no method changes the
    flag that the constructors set. *)
Theorem reachable_flagged (clock : nat → Z)
    (randomSpanId uuid_v4 : nat → string) (stack : nat) (ops : list Op)
    (a : addr) (o : Span) :
  heap (run clock randomSpanId uuid_v4 stack ops empty_world) !! a = Some o →
  flagged o.
Proof.
  intros Ha.
  assert (heap_all flagged
            (heap (run clock randomSpanId uuid_v4 stack ops empty_world)))
    as H; [|by apply (H a)].
  apply (run_objects clock randomSpanId uuid_v4 stack flagged (λ _ _, True)).
  - done.
  - done.
  - intros [] t; simpl; auto.
  - intros [] t; simpl; auto.
  - intros o' f Hf Ho. split; [by apply update_flagged|done].
  - intros r b nm k w. reflexivity.
  - intros b kids c Hb. split; [exact Hb|done].
  - apply Forall_forall. intros op _. apply constructs_flagged.
  - intros c oc Hc. simpl in Hc. by rewrite lookup_empty in Hc.
Qed.

Lemma reachable_flagged_witness :
  ∃ o, heap (demo_run demo_program) !! 1%nat = Some o ∧ flagged o.
Proof.
  eexists. split; [vm_compute; reflexivity|].
  apply (reachable_flagged demo_clock demo_ids demo_ids 3 demo_program 1).
  vm_compute. reflexivity.
Defined.

(** ** Ended spans have been started *)

(** X14. In every world that a program reaches from the empty world, a
    span that is ended has been started, provided that this holds of every
    span that the program constructs with preset time stamps at the time
    of its construction. The clock may read any value. *)
Theorem reachable_timely (clock : nat → Z)
    (randomSpanId uuid_v4 : nat → string) (stack : nat) (ops : list Op)
    (a : addr) (o : Span) :
  Forall (constructs timely) ops →
  heap (run clock randomSpanId uuid_v4 stack ops empty_world) !! a = Some o →
  ended (base o) = true → started (base o) = true.
Proof.
  intros Hops Ha.
  assert (heap_all timely
            (heap (run clock randomSpanId uuid_v4 stack ops empty_world)))
    as H; [|by apply (H a)].
  apply (run_objects clock randomSpanId uuid_v4 stack timely (λ _ _, True)).
  - done.
  - done.
  - intros o' t Ho Hst. split; [|done]. intros Hen.
    assert (ended (base o') = true) as Hen' by (by destruct o').
    rewrite (Ho Hen') in Hst. discriminate.
  - intros o' t Ho Hen Hst. split; [|done]. intros _. by destruct o'.
  - intros o' f Hf Ho. split; [|done]. by destruct Hf, o'.
  - intros r b nm k w. intros H. discriminate H.
  - intros b kids c Hb. split; [exact Hb|done].
  - exact Hops.
  - intros c oc Hc. simpl in Hc. by rewrite lookup_empty in Hc.
Qed.

Lemma reachable_timely_witness :
  ∃ o, heap (demo_run demo_program) !! 1%nat = Some o
       ∧ ended (base o) = true ∧ started (base o) = true.
Proof.
  eexists. split; [vm_compute; reflexivity|]. split; [reflexivity|].
  apply (reachable_timely demo_clock demo_ids demo_ids 3 demo_program 1).
  - repeat constructor. intros rnd uuid H. discriminate H.
  - vm_compute. reflexivity.
  - reflexivity.
Defined.

(** ** What a span accumulates *)

Lemma accumulates_refl (o : Span) : accumulates o o.
Proof. unfold accumulates. repeat split; auto. Qed.

Lemma accumulates_trans (o1 o2 o3 : Span) :
  accumulates o1 o2 → accumulates o2 o3 → accumulates o1 o3.
Proof.
  intros (A1 & A2 & A3 & A4 & A5 & A6 & A7) (B1 & B2 & B3 & B4 & B5 & B6 & B7).
  unfold accumulates. repeat split; try congruence; try (by etrans); auto.
Qed.

Lemma accumulates_update (o : Span) (f : Span → Span) :
  update f → accumulates o (f o).
Proof.
  intros Hf. unfold accumulates.
  destruct Hf, o; simpl; repeat split; auto;
    try (by apply prefix_app_r); try apply dom_insert_subseteq;
    try (intros _; by eexists).
Qed.

(** X15. Whatever calls a program makes, a span keeps its name and its
    kind, its events and its links are only added to, at the end of the
    lists, no attribute and no status is removed, and [truncated] is not
    reset. *)
Theorem run_accumulates (clock : nat → Z)
    (randomSpanId uuid_v4 : nat → string) (stack : nat) (ops : list Op)
    (w : World) (a : addr) (o : Span) :
  heap w !! a = Some o →
  ∃ o', heap (run clock randomSpanId uuid_v4 stack ops w) !! a = Some o'
        ∧ accumulates o o'.
Proof.
  intros Ha.
  assert (heap_rel accumulates (heap w)
            (heap (run clock randomSpanId uuid_v4 stack ops w)))
    as H; [|by apply (H a)].
  apply (run_objects clock randomSpanId uuid_v4 stack (λ _, True)
           accumulates).
  - apply accumulates_refl.
  - apply accumulates_trans.
  - intros o' t _ _. split; [done|].
    destruct o'; unfold accumulates; simpl; repeat split; auto.
  - intros o' t _ _ _. split; [done|].
    destruct o'; unfold accumulates; simpl; repeat split; auto.
  - intros o' f Hf _. split; [done|]. by apply accumulates_update.
  - done.
  - intros b kids c _. split; [done|].
    unfold accumulates; simpl; repeat split; auto.
  - apply Forall_forall. intros [] _; simpl; auto.
  - done.
Qed.

Lemma run_accumulates_witness :
  ∃ o', heap (run demo_clock demo_ids demo_ids 3 demo_ops
                demo_world_children) !! 1%nat = Some o'
        ∧ accumulates (ChildSpan demo_child_open) o'.
Proof.
  apply (run_accumulates demo_clock demo_ids demo_ids 3 demo_ops
           demo_world_children 1 (ChildSpan demo_child_open)).
  reflexivity.
Defined.

(** ** Children stay the children of their root span *)

Lemma alike_update (o : Span) (f : Span → Span) : update f → alike o (f o).
Proof. intros Hf. unfold alike. by destruct Hf, o. Qed.

Lemma kin_insert (h : gmap addr Span) (a : addr) (o o' : Span) :
  kin h → h !! a = Some o → alike o o' → kin (<[a := o']> h).
Proof.
  intros Hkin Ha (Ht & Hs & Hp & Hc) r b kids c Hr Hin.
  assert (∃ b0, h !! r = Some (RootSpan b0 kids)
                ∧ traceId (data b) = traceId (data b0)
                ∧ spanId (data b) = spanId (data b0)) as (b0 & Hr0 & Ht0 & Hs0).
  { apply lookup_insert_Some in Hr as [[Hra Heq]|[_ Hr]]; [|eauto].
    subst r o'. destruct o as [b0 kids0|]; [|done]. simpl in *. subst.
    eauto. }
  destruct (Hkin r b0 kids c Hr0 Hin) as (s & Hcs & Hts & Hps).
  destruct (decide (c = a)) as [->|Hne].
  - rewrite lookup_insert_eq.
    assert (o = ChildSpan s) as -> by congruence.
    destruct o' as [|s']; [done|]. exists s'. simpl in *.
    split; [reflexivity|]. split; congruence.
  - exists s. rewrite lookup_insert_ne by done.
    split; [exact Hcs|]. split; congruence.
Qed.

Lemma kin_fresh (h : gmap addr Span) (o : Span) :
  kin h → childless o → kin (<[fresh (dom h) := o]> h).
Proof.
  intros Hkin Ho r b kids c Hr Hin.
  apply lookup_insert_Some in Hr as [[_ ->]|[_ Hr]].
  - simpl in Ho. subst. by apply elem_of_nil in Hin.
  - destruct (Hkin r b kids c Hr Hin) as (s & Hcs & Hts & Hps).
    exists s. split; [|auto]. rewrite lookup_insert_ne; [exact Hcs|].
    intros <-. rewrite fresh_unallocated in Hcs. discriminate.
Qed.

Lemma kin_push (h : gmap addr Span) (r c : addr) (b s : BaseSpan)
    (kids : list addr) :
  kin h → h !! r = Some (RootSpan b kids) → h !! c = Some (ChildSpan s) →
  traceId (data s) = traceId (data b) →
  parentSpanId (data s) = spanId (data b) →
  kin (<[r := RootSpan b (kids ++ [c])]> h).
Proof.
  intros Hkin Hr Hc Ht Hp r' b' kids' c' Hr' Hin.
  assert (∀ x sx, h !! x = Some (ChildSpan sx) →
                  <[r := RootSpan b (kids ++ [c])]> h !! x
                  = Some (ChildSpan sx)) as Hkeep.
  { intros x sx Hx. rewrite lookup_insert_ne; [exact Hx|].
    intros <-. congruence. }
  apply lookup_insert_Some in Hr' as [[<- [= <- <-]]|[_ Hr']].
  - apply elem_of_app in Hin as [Hin|Hin].
    + destruct (Hkin r b kids c' Hr Hin) as (s' & Hcs & Hts & Hps).
      exists s'. split; [by apply Hkeep|auto].
    + apply list_elem_of_singleton in Hin as ->.
      exists s. split; [by apply Hkeep|auto].
  - destruct (Hkin r' b' kids' c' Hr' Hin) as (s' & Hcs & Hts & Hps).
    exists s'. split; [by apply Hkeep|auto].
Qed.

Lemma constructs_childless (op : Op) : constructs childless op.
Proof. destruct op; simpl; auto. Qed.

Lemma run_kin (clock : nat → Z) (randomSpanId uuid_v4 : nat → string)
    (stack : nat) (ops : list Op) :
  kin (heap (run clock randomSpanId uuid_v4 stack ops empty_world)).
Proof.
  apply (run_maintains clock randomSpanId uuid_v4 stack kin (λ _ _, True)
           childless).
  - done.
  - done.
  - intros h a o t Hh Ha _. split; [|done].
    apply (kin_insert h a o); [exact Hh|exact Ha|]. unfold alike.
    by destruct o.
  - intros h a o t Hh Ha _ _. split; [|done].
    apply (kin_insert h a o); [exact Hh|exact Ha|]. unfold alike.
    by destruct o.
  - intros h a o f Hf Hh Ha. split; [|done].
    apply (kin_insert h a o); [exact Hh|exact Ha|by apply alike_update].
  - intros h o Ho Hh. split; [|done]. by apply kin_fresh.
  - intros w r' b' kids' nm k Hh Hr _ _. cbv zeta.
    assert (kin (<[fresh (dom (heap w)) :=
                    ChildSpan (started_child clock randomSpanId r' b' nm k w)]>
                   (heap w))) as H1 by (by apply kin_fresh).
    split; [exact H1|]. split; [done|]. split; [|done].
    eapply kin_push; [exact H1| |apply lookup_insert_eq|reflexivity
                     |reflexivity].
    rewrite lookup_insert_ne; [exact Hr|]. intros <-.
    rewrite fresh_unallocated in Hr. discriminate.
  - apply Forall_forall. intros op _. apply constructs_childless.
  - intros r' b' kids' c' Hr'. simpl in Hr'. by rewrite lookup_empty in Hr'.
Qed.

(** X16. In every world that a program reaches from the empty world, every
    element of the child list of a root span is a child span that has the
    [traceId] of the root span and the [spanId] of the root span as its
    [parentSpanId]. *)
Theorem reachable_kin (clock : nat → Z)
    (randomSpanId uuid_v4 : nat → string) (stack : nat) (ops : list Op)
    (r c : addr) (b : BaseSpan) (kids : list addr) :
  heap (run clock randomSpanId uuid_v4 stack ops empty_world) !! r
  = Some (RootSpan b kids) →
  c ∈ kids →
  ∃ s, heap (run clock randomSpanId uuid_v4 stack ops empty_world) !! c
       = Some (ChildSpan s)
       ∧ traceId (data s) = traceId (data b)
       ∧ parentSpanId (data s) = spanId (data b).
Proof. apply run_kin. Qed.

Lemma reachable_kin_witness :
  ∃ s,
    heap (demo_run demo_program) !! 0%nat
    = Some (RootSpan demo_program_root [1%nat])
    ∧ heap (demo_run demo_program) !! 1%nat = Some (ChildSpan s)
    ∧ traceId (data s) = traceId (data demo_program_root)
    ∧ parentSpanId (data s) = spanId (data demo_program_root).
Proof.
  destruct (reachable_kin demo_clock demo_ids demo_ids 3 demo_program 0 1
              demo_program_root [1%nat])
    as (s & Hs & Ht & Hp).
  - vm_compute. reflexivity.
  - apply list_elem_of_singleton. reflexivity.
  - exists s. split; [vm_compute; reflexivity|]. auto.
Defined.

(** ** What stays as it is *)

(** X17. Whatever calls a program makes, a span keeps its class and its
    span context (its [traceId], its [spanId] and the options), and its
    [parentSpanId]; a start time and an end time that are set are never
    written again. *)
Theorem run_keeps_context_and_times (clock : nat → Z)
    (randomSpanId uuid_v4 : nat → string) (stack : nat) (ops : list Op)
    (w : World) (a : addr) (o : Span) :
  heap w !! a = Some o →
  ∃ o', heap (run clock randomSpanId uuid_v4 stack ops w) !! a = Some o'
        ∧ match o, o' with
          | RootSpan _ _, RootSpan _ _ | ChildSpan _, ChildSpan _ => True
          | _, _ => False
          end
        ∧ getSpanContext (base o') = getSpanContext (base o)
        ∧ parentSpanId (data (base o')) = parentSpanId (data (base o))
        ∧ (started (base o) = true →
           startTime (data (base o')) = startTime (data (base o)))
        ∧ (ended (base o) = true →
           endTime (data (base o')) = endTime (data (base o))).
Proof.
  intros Ha.
  destruct (run_evolves clock randomSpanId uuid_v4 stack ops w a o Ha)
    as (o' & Ha' & Hev).
  exists o'. split; [exact Ha'|].
  destruct (evolves_stable o o' Hev) as (Ht & Hs & Hp & _ & Hst & Hen).
  split; [by destruct o, o'|].
  split; [unfold getSpanContext; by rewrite Ht, Hs|]. auto.
Qed.

Lemma run_keeps_context_and_times_witness :
  ∃ o', heap (run demo_clock demo_ids demo_ids 3 demo_ops
                demo_world_children) !! 2%nat = Some o'
        ∧ getSpanContext (base o') = getSpanContext demo_child_ended
        ∧ startTime (data (base o')) = 996
        ∧ endTime (data (base o')) = 998.
Proof.
  destruct (run_keeps_context_and_times demo_clock demo_ids demo_ids 3
              demo_ops demo_world_children 2 (ChildSpan demo_child_ended))
    as (o' & Ho' & _ & Hc & _ & Hs & He); [reflexivity|].
  exists o'. split; [exact Ho'|]. split; [exact Hc|].
  split; [by apply Hs|by apply He].
Defined.

(** X18. In every world that a program reaches from the empty world, when
    the clock never reads [UNINITIALIZED_DATE]: the child list of a root
    span has no duplicates, it is empty as long as the root span is not
    started, its elements are started child spans, and they are all ended
    once the root span is ended. *)
Theorem reachable_root_children (clock : nat → Z)
    (randomSpanId uuid_v4 : nat → string) (stack : nat) (ops : list Op)
    (r : addr) (b : BaseSpan) (kids : list addr) :
  (∀ n, clock n ≠ UNINITIALIZED_DATE) →
  heap (run clock randomSpanId uuid_v4 stack ops empty_world) !! r
  = Some (RootSpan b kids) →
  NoDup kids
  ∧ (started b = false → kids = [])
  ∧ ∀ c, c ∈ kids →
      ∃ s, heap (run clock randomSpanId uuid_v4 stack ops empty_world) !! c
           = Some (ChildSpan s)
           ∧ started s = true
           ∧ (ended b = true → ended s = true).
Proof.
  intros Hclock Hr.
  apply (run_well_formed clock randomSpanId uuid_v4 stack Hclock ops
           empty_world (empty_world_well_formed) r b kids Hr).
Qed.

Lemma reachable_root_children_witness :
  ∃ s,
    heap (demo_run demo_program) !! 0%nat
    = Some (RootSpan demo_program_root [1%nat])
    ∧ heap (demo_run demo_program) !! 1%nat = Some (ChildSpan s)
    ∧ ended demo_program_root = true ∧ ended s = true.
Proof.
  destruct (reachable_root_children demo_clock demo_ids demo_ids 3
              demo_program 0 demo_program_root [1%nat] demo_clock_set)
    as (_ & _ & Hkids); [vm_compute; reflexivity|].
  destruct (Hkids 1%nat) as (s & Hs & _ & He).
  { apply list_elem_of_singleton. reflexivity. }
  exists s. split; [vm_compute; reflexivity|]. split; [exact Hs|].
  split; [reflexivity|]. apply He. reflexivity.
Defined.

(** ** The trace id of a root span *)

Lemma split_join_dash_no_dash (s : string) :
  "-"%char ∉ list_ascii_of_string (split_join_dash s).
Proof.
  induction s as [|c s IH]; simpl; [apply not_elem_of_nil|].
  destruct (Ascii.eqb_spec c "-"%char) as [->|Hne]; [exact IH|].
  simpl. rewrite not_elem_of_cons. split; [congruence|exact IH].
Qed.

Lemma split_join_dash_fixed (s : string) :
  "-"%char ∉ list_ascii_of_string s → split_join_dash s = s.
Proof.
  induction s as [|c s IH]; simpl; [reflexivity|].
  rewrite not_elem_of_cons. intros [Hc Hs].
  destruct (Ascii.eqb_spec c "-"%char) as [->|Hne]; [done|].
  by rewrite IH.
Qed.

Lemma split_join_dash_length (s : string) :
  (String.length (split_join_dash s) ≤ String.length s)%nat.
Proof.
  induction s as [|c s IH]; simpl; [lia|].
  destruct (Ascii.eqb c "-"%char); simpl; lia.
Qed.

(** X19. A root span that is constructed without a trace id (no options,
    no span context, or a span context with the empty trace id) gets the
    identifier that [uuid.v4()] returns without its dashes: the trace id
    holds no dash, is not longer than the identifier, and is the
    identifier itself when that holds no dash. *)
Theorem RootSpan_new_generated_traceId (rnd uuid : string)
    (options : option SpanOptions.t) :
  (∀ c, options ≫= SpanOptions.spanContext = Some c →
        SpanContext.traceId c = "") →
  (let t := traceId (data (base (RootSpan_new rnd uuid options))) in
   ("-"%char ∉ list_ascii_of_string t)
   ∧ (String.length t ≤ String.length uuid)%nat
   ∧ ("-"%char ∉ list_ascii_of_string uuid → t = uuid)).
Proof.
  intros Hctx. cbv zeta.
  assert (traceId (data (base (RootSpan_new rnd uuid options)))
          = split_join_dash uuid) as ->.
  { destruct options as [[nm [c|] k]|]; try reflexivity.
    simpl. rewrite (Hctx c eq_refl). reflexivity. }
  split; [apply split_join_dash_no_dash|].
  split; [apply split_join_dash_length|apply split_join_dash_fixed].
Qed.

Lemma RootSpan_new_generated_traceId_witness :
  let t :=
    traceId (data (base (RootSpan_new "b7ad6b7169203331"
                           "0af76519-16cd-43dd-8448-eb211c80319c"
                           (Some (SpanOptions.mk (Some "root")
                                    (Some (SpanContext.mk "" "00f067aa0ba902b7"
                                             None))
                                    None))))) in
  t = "0af7651916cd43dd8448eb211c80319c"
  ∧ "-"%char ∉ list_ascii_of_string t.
Proof.
  split; [reflexivity|].
  apply (RootSpan_new_generated_traceId "b7ad6b7169203331"
           "0af76519-16cd-43dd-8448-eb211c80319c"
           (Some (SpanOptions.mk (Some "root")
                    (Some (SpanContext.mk "" "00f067aa0ba902b7" None))
                    None))).
  intros c [= <-]. reflexivity.
Defined.

(** * Forced ends *)

Lemma alter_present (h : gmap addr Span) (a : addr) (o : Span)
    (f : Span → Span) :
  h !! a = Some o → alter f a h = <[a := f o]> h.
Proof.
  intros Ha. apply map_eq. intros i. destruct (decide (i = a)) as [->|Hne].
  - by rewrite lookup_alter_eq, lookup_insert_eq, Ha.
  - by rewrite lookup_alter_ne, lookup_insert_ne.
Qed.

Section Truncation.

Variable clock : nat → Z.
Variable stack : nat.

(** X20. On a child span, [truncate()] does what [end()] does, sets
    [truncated], and logs: it returns or throws as [end()] does, makes the
    same calls and leaves the same world, but for the flag and for the
    debug message that follows when [end()] returns. *)
Theorem truncate_child_as_end (a : addr) (w : World) (s : BaseSpan) :
  heap w !! a = Some (ChildSpan s) →
  truncate clock stack a w =
  let res := end_ clock stack a w in
  (res.1,
   mkWorld (alter (with_base (with_truncated true)) a (heap res.2))
     (trace res.2 ++ match res.1 with
                     | Some _ => [Log a DEBUG Truncating]
                     | None => []
                     end)
     (reads res.2) (draws res.2)).
Proof.
  intros Ha.
  set (w0 := set_heap (<[a := ChildSpan (with_truncated true s)]> (heap w)) w).
  assert (heap w0 !! a = Some (ChildSpan (with_truncated true s))) as H0
    by apply lookup_insert_eq.
  unfold truncate, truncate_with.
  rewrite (bind_eq _ _ w (Some tt) w0)
    by exact (modify_eq a (with_base (with_truncated true)) w (ChildSpan s)
                Ha).
  rewrite (end__dispatch clock stack a w _ Ha).
  pose proof (BaseSpan_end_eq clock stack a w _ Ha) as E.
  pose proof (BaseSpan_end_eq clock stack a w0 _ H0) as E0.
  rewrite <- (end__dispatch clock stack a w0 _ H0) in E0.
  change (ended (base (ChildSpan (with_truncated true s)))) with (ended s)
    in E0.
  change (started (base (ChildSpan (with_truncated true s))))
    with (started s) in E0.
  change (ended (base (ChildSpan s))) with (ended s) in E.
  change (started (base (ChildSpan s))) with (started s) in E.
  cbv zeta in E, E0 |- *. subst w0.
  cbn [base with_base with_data with_truncated with_listeners data listeners
       truncated set_heap heap trace reads draws] in E, E0.
  clear H0.
  destruct (ended s).
  { rewrite (bind_eq _ _ _ _ _ E0), E.
    unfold log, emit; cbn [fst snd heap trace reads draws].
    rewrite (alter_present _ _ _ _ Ha), <- app_assoc. reflexivity. }
  destruct (started s); cbn [negb] in E, E0.
  2:{ rewrite (bind_eq _ _ _ _ _ E0), E.
      unfold log, emit; cbn [fst snd heap trace reads draws].
      rewrite (alter_present _ _ _ _ Ha), <- app_assoc. reflexivity. }
  rewrite !insert_insert_eq in E0. rewrite insert_insert_eq in E.
  match type of E0 with
  | context [forEach ?f0 ?ls] =>
      match type of E with
      | context [forEach ?f1 ls] =>
          assert (forEach f0 ls = forEach f1 ls) as Hsame
      end
  end.
  { apply forEach_ext. intros l _. apply invoke_ext. intros r.
    unfold relay_view. destruct (decide (r = a)) as [->|Hne].
    - by rewrite !lookup_insert_eq.
    - by rewrite !lookup_insert_ne. }
  rewrite Hsame in E0. clear Hsame.
  destruct (forEach _ _) as [evs [|]]; cbn [fst snd] in E, E0;
    rewrite (bind_eq _ _ _ _ _ E0), E;
    unfold log, emit; cbn [fst snd heap trace reads draws].
  - rewrite alter_insert_eq, <- app_assoc. reflexivity.
  - rewrite alter_insert_eq, app_nil_r. reflexivity.
Qed.

Lemma end__rejected_eq (a : addr) (w : World) (o : Span) :
  well_formed w →
  heap w !! a = Some o →
  started (base o) = false ∨ ended (base o) = true →
  end_ clock stack a w =
  (Some tt,
   mkWorld (heap w)
     (trace w ++ [Log a WARN (if ended (base o) then EndAlreadyEnded
                              else EndNotStarted)])
     (reads w) (draws w)).
Proof.
  intros Hwf Ha Hst.
  assert (end_ clock stack a w = BaseSpan_end clock stack a w) as ->.
  { rewrite (end__dispatch clock stack a w o Ha).
    destruct o as [b kids|b]; [|reflexivity].
    rewrite (RootSpan_end_loop clock stack a w b kids Ha).
    rewrite (bind_eq _ _ w (Some tt) w); [reflexivity|].
    apply forM_skip. intros c Hc.
    destruct (Hwf a b kids Ha) as (_ & Hempty & Hkids).
    destruct (Hkids c Hc) as (s & Hs & _ & Hended).
    unfold truncate_open_child, bind, get. rewrite Hs.
    destruct Hst as [Hunstarted|Hend].
    - rewrite (Hempty Hunstarted) in Hc. by apply elem_of_nil in Hc.
    - by rewrite (Hended Hend). }
  rewrite (BaseSpan_end_eq clock stack a w o Ha).
  destruct (ended (base o)); [reflexivity|].
  destruct Hst as [->|?]; [reflexivity|discriminate].
Qed.

(** X21. [truncate()] on a span that is not started, or that is ended,
    does not end it: the call sets [truncated], sends the warning of the
    rejected [end()] and the debug message, runs no hook and reads no
    clock. *)
Theorem truncate_rejected (a : addr) (w : World) (o : Span) :
  well_formed w →
  heap w !! a = Some o →
  started (base o) = false ∨ ended (base o) = true →
  truncate clock stack a w =
  (Some tt,
   mkWorld (<[a := with_base (with_truncated true) o]> (heap w))
     (trace w ++ [Log a WARN (if ended (base o) then EndAlreadyEnded
                              else EndNotStarted);
                  Log a DEBUG Truncating])
     (reads w) (draws w)).
Proof.
  intros Hwf Ha Hst.
  set (o0 := with_base (with_truncated true) o).
  set (w0 := set_heap (<[a := o0]> (heap w)) w).
  assert (well_formed w0) as Hwf0.
  { apply (wf_heap_insert _ _ o); [exact Hwf|exact Ha|].
    destruct o as [b kids|s]; simpl; auto. }
  assert (heap w0 !! a = Some o0) as H0 by apply lookup_insert_eq.
  unfold truncate, truncate_with.
  rewrite (bind_eq _ _ w (Some tt) w0)
    by exact (modify_eq a (with_base (with_truncated true)) w o Ha).
  rewrite (bind_eq _ _ w0 _ _ (end__rejected_eq a w0 o0 Hwf0 H0
                                 ltac:(by destruct o))).
  unfold log, emit. cbn [heap trace reads draws w0 set_heap].
  rewrite <- app_assoc. by destruct o.
Qed.

End Truncation.

Lemma truncate_child_as_end_witness :
  truncate demo_clock 3 1 demo_world_children =
  let res := end_ demo_clock 3 1 demo_world_children in
  (res.1,
   mkWorld (alter (with_base (with_truncated true)) 1%nat (heap res.2))
     (trace res.2 ++ match res.1 with
                     | Some _ => [Log 1%nat DEBUG Truncating]
                     | None => []
                     end)
     (reads res.2) (draws res.2)).
Proof.
  apply (truncate_child_as_end demo_clock 3 1 demo_world_children
           demo_child_open).
  reflexivity.
Defined.

Lemma truncate_rejected_witness :
  truncate demo_clock 3 2 demo_world_children =
  (Some tt,
   mkWorld
     (<[2%nat := ChildSpan (with_truncated true demo_child_ended)]>
        (heap demo_world_children))
     [Log 2%nat WARN EndAlreadyEnded; Log 2%nat DEBUG Truncating] 0 4).
Proof.
  apply (truncate_rejected demo_clock 3 2 demo_world_children
           (ChildSpan demo_child_ended)).
  - apply demo_world_children_well_formed.
  - reflexivity.
  - right. reflexivity.
Defined.

(** * Root spans as listeners *)

Lemma calls_at_app (k : nat) (xs ys : list Event) :
  calls_at k (xs ++ ys) = calls_at k xs ++ calls_at k ys.
Proof. unfold calls_at. apply flat_map_app. Qed.

Lemma calls_at_deeper (k : nat) (evs : list Event) :
  Forall (λ e, match e with
               | Invoke _ k' _ _ _ => (S k ≤ k')%nat
               | Log _ _ _ => False
               end) evs →
  calls_at k evs = [].
Proof.
  induction 1 as [|e es He _ IH]; [reflexivity|].
  destruct e as [c k' l hk d|]; [|contradiction]. simpl.
  destruct (Nat.eqb_spec k' k); [lia|]. exact IH.
Qed.

Lemma forEach_flag {A} (f : A → list Event * bool) (xs : list A) :
  (forEach f xs).2 = forallb (λ x, (f x).2) xs.
Proof.
  induction xs as [|x xs IH]; simpl; [reflexivity|].
  destruct (f x) as [e ok]. destruct ok; simpl; [|reflexivity].
  destruct (forEach f xs) as [es ok']. exact IH.
Qed.

(** A hook of a listener returns exactly when every chain of root spans
    that forward the event ends in other listeners within the depth of the
    call stack; otherwise the call throws. *)
Lemma invoke_flag (fuel : nat) (h : gmap addr Span) (caller : addr)
    (depth : nat) (hook : Hook) (d : SpanData) (l : Listener) :
  (invoke fuel h caller depth hook d l).2 = relays_ok fuel h l.
Proof.
  revert caller depth l.
  induction fuel as [|n IH]; intros caller depth [i|r]; simpl;
    try reflexivity.
  - by destruct (h !! r) as [[b kids|b]|].
  - destruct (h !! r) as [[b kids|b]|]; try reflexivity.
    pose proof (forEach_flag (invoke n h r (S depth) hook d) (listeners b))
      as Hflag.
    destruct (forEach _ _) as [es ok]. simpl in *. rewrite Hflag.
    apply forallb_pointwise. intros x. apply IH.
Qed.

Lemma invoke_calls_at (fuel : nat) (h : gmap addr Span) (caller : addr)
    (depth : nat) (hook : Hook) (d : SpanData) (l : Listener) :
  relays_ok fuel h l = true →
  calls_at depth (invoke fuel h caller depth hook d l).1
  = [(caller, l, hook, d)].
Proof.
  destruct l as [i|r]; simpl.
  - intros _. destruct fuel; simpl; by rewrite Nat.eqb_refl.
  - destruct fuel as [|n]; simpl;
      destruct (h !! r) as [[b kids|b]|]; try discriminate.
    intros _.
    pose proof (forEach_Forall
                  (λ e, match e with
                        | Invoke _ k _ _ _ => (S depth ≤ k)%nat
                        | Log _ _ _ => False
                        end)
                  (invoke n h r (S depth) hook d) (listeners b)) as Hall.
    destruct (forEach _ _) as [es ok]. simpl in *.
    rewrite Nat.eqb_refl. simpl. f_equal.
    apply calls_at_deeper, Hall. intros x _. apply invoke_depth.
Qed.

Lemma round_calls_at (fuel : nat) (h : gmap addr Span) (a : addr)
    (depth : nat) (hook : Hook) (d : SpanData) (ls : list Listener) :
  forallb (relays_ok fuel h) ls = true →
  calls_at depth (forEach (invoke fuel h a depth hook d) ls).1
  = map (λ l, (a, l, hook, d)) ls.
Proof.
  induction ls as [|l ls IH]; simpl; [reflexivity|].
  intros [Hl Hls]%andb_true_iff.
  pose proof (invoke_calls_at fuel h a depth hook d l Hl) as Hc.
  pose proof (invoke_completes fuel h a depth hook d l Hl) as Hok.
  destruct (invoke fuel h a depth hook d l) as [e ok]. simpl in *.
  subst ok. specialize (IH Hls).
  destruct (forEach _ ls) as [es ok']. simpl in *.
  by rewrite calls_at_app, Hc, IH.
Qed.

(** X22. A root span that receives an event forwards it to its own
    listeners: the hook of the root span is called once, and the root span
    calls the same hook of each of its listeners once, in the order of
    their registration and with the record it received. *)
Theorem RootSpan_forwards (fuel : nat) (h : gmap addr Span)
    (caller r : addr) (b : BaseSpan) (kids : list addr) (depth : nat)
    (hook : Hook) (d : SpanData) :
  h !! r = Some (RootSpan b kids) →
  forallb (relays_ok fuel h) (listeners b) = true →
  let res := invoke (S fuel) h caller depth hook d (Relay r) in
  res.2 = true
  ∧ calls_at depth res.1 = [(caller, Relay r, hook, d)]
  ∧ calls_at (S depth) res.1 = map (λ l, (r, l, hook, d)) (listeners b).
Proof.
  intros Hr Hls res.
  assert (relays_ok (S fuel) h (Relay r) = true) as Hok
    by (simpl; by rewrite Hr).
  split; [by apply invoke_completes|].
  split; [by apply invoke_calls_at|].
  subst res. simpl. rewrite Hr.
  pose proof (round_calls_at fuel h r (S depth) hook d (listeners b) Hls)
    as Hround.
  destruct (forEach _ _) as [es ok]. simpl in *.
  destruct (Nat.eqb_spec depth (S depth)); [lia|]. exact Hround.
Qed.

Lemma RootSpan_forwards_witness :
  let res :=
    invoke 1 (heap demo_world_children) 1 0 OnEndSpan (data demo_child_open)
      (Relay 0) in
  res.2 = true
  ∧ calls_at 0 res.1 = [(1%nat, Relay 0, OnEndSpan, data demo_child_open)]
  ∧ calls_at 1 res.1
    = [(0%nat, External 7, OnEndSpan, data demo_child_open)].
Proof.
  apply (RootSpan_forwards 0 (heap demo_world_children) 1 0
           demo_root_started [1%nat; 2%nat] 0 OnEndSpan
           (data demo_child_open)); reflexivity.
Defined.

Section Start.

Variable clock : nat → Z.
Variable stack : nat.

(** X23. [start()] on a span that is not started returns exactly when the
    hooks of all its listeners return, and throws otherwise; in both cases
    the span has its start time, so that a call that threw cannot be
    repeated. *)
Theorem BaseSpan_start_returns_iff (a : addr) (w : World) (o : Span) :
  heap w !! a = Some o →
  started (base o) = false →
  let res := BaseSpan_start clock stack a w in
  (res.1 = Some tt ↔
   forallb (relays_ok stack (heap w)) (listeners (base o)) = true)
  ∧ ∃ o', heap res.2 !! a = Some o'
          ∧ startTime (data (base o')) = clock (reads w)
          ∧ endTime (data (base o')) = endTime (data (base o)).
Proof.
  intros Ha Hst res. subst res.
  rewrite (BaseSpan_start_eq clock stack a w o Ha), Hst. cbv zeta.
  cbn [fst snd heap]. split.
  - rewrite forEach_flag.
    assert (listeners (base (with_base
                               (with_data (set_startTime (clock (reads w))))
                               o)) = listeners (base o)) as ->
      by (by destruct o).
    erewrite forallb_pointwise.
    2:{ intros l. rewrite invoke_flag.
        apply relays_ok_ext, (relay_view_with_data _ _ _ _ Ha). }
    destruct (forallb _ _); split; congruence.
  - eexists. split; [apply lookup_insert_eq|]. by destruct o.
Qed.

(** X24. [end()] on an open span returns exactly when the hooks of all
    its listeners return, and throws otherwise. In both cases the span has
    its end time; the listeners are released only when the call returns. *)
Theorem BaseSpan_end_returns_iff (a : addr) (w : World) (o : Span) :
  heap w !! a = Some o →
  ended (base o) = false → started (base o) = true →
  let res := BaseSpan_end clock stack a w in
  (res.1 = Some tt ↔
   forallb (relays_ok stack (heap w)) (listeners (base o)) = true)
  ∧ ∃ o', heap res.2 !! a = Some o'
          ∧ endTime (data (base o')) = clock (reads w)
          ∧ listeners (base o') =
            match res.1 with
            | Some _ => []
            | None => listeners (base o)
            end.
Proof.
  intros Ha Hen Hst res. subst res.
  rewrite (BaseSpan_end_eq clock stack a w o Ha), Hen, Hst. cbv zeta.
  cbn [negb].
  assert (listeners (base (with_base
                             (with_data (set_endTime (clock (reads w))))
                             o)) = listeners (base o)) as Hls
    by (by destruct o).
  rewrite Hls.
  match goal with
  | |- context [forEach ?f ?ls] =>
      assert ((forEach f ls).2
              = forallb (relays_ok stack (heap w)) ls) as Hflag
  end.
  { rewrite forEach_flag. apply forallb_pointwise. intros l.
    rewrite invoke_flag.
    apply relays_ok_ext, (relay_view_with_data _ _ _ _ Ha). }
  destruct (forEach _ _) as [evs ok]. cbn [fst snd] in *. rewrite <- Hflag.
  destruct ok; cbn [fst snd heap].
  - split; [done|]. eexists. split; [apply lookup_insert_eq|].
    by destruct o.
  - split; [split; discriminate|]. eexists.
    split; [apply lookup_insert_eq|]. by destruct o.
Qed.

End Start.

Lemma BaseSpan_end_returns_iff_witness :
  let res := BaseSpan_end demo_clock 3 1 demo_world_children in
  (res.1 = Some tt ↔
   forallb (relays_ok 3 (heap demo_world_children))
     (listeners demo_child_open) = true)
  ∧ ∃ o', heap res.2 !! 1%nat = Some o'
          ∧ endTime (data (base o')) = 1000
          ∧ listeners (base o') =
            match res.1 with
            | Some _ => []
            | None => listeners demo_child_open
            end.
Proof.
  apply (BaseSpan_end_returns_iff demo_clock 3 1 demo_world_children
           (ChildSpan demo_child_open)); reflexivity.
Defined.

Lemma BaseSpan_start_returns_iff_witness :
  let res := BaseSpan_start demo_clock 3 0 demo_world_unstarted in
  (res.1 = Some tt ↔
   forallb (relays_ok 3 (heap demo_world_unstarted))
     (listeners demo_root_unstarted) = true)
  ∧ ∃ o', heap res.2 !! 0%nat = Some o'
          ∧ startTime (data (base o')) = 1000
          ∧ endTime (data (base o')) = 0.
Proof.
  apply (BaseSpan_start_returns_iff demo_clock 3 0 demo_world_unstarted
           (RootSpan demo_root_unstarted [])); reflexivity.
Defined.

(** * A span that has ended stays silent *)

Lemma invoke_own (fuel : nat) (h : gmap addr Span) (caller : addr)
    (depth : nat) (hook : Hook) (d : SpanData) (l : Listener) :
  Forall (λ e, match e with
               | Invoke c k _ _ _ => k = depth → c = caller
               | Log _ _ _ => True
               end) (invoke fuel h caller depth hook d l).1.
Proof.
  destruct l as [i|r]; simpl.
  - destruct fuel; simpl; by repeat constructor.
  - destruct fuel as [|n]; simpl;
      destruct (h !! r) as [[b kids|b]|]; try constructor.
    pose proof (forEach_Forall
                  (λ e, match e with
                        | Invoke _ k _ _ _ => (S depth ≤ k)%nat
                        | Log _ _ _ => False
                        end)
                  (invoke n h r (S depth) hook d) (listeners b)) as Hall.
    destruct (forEach _ _) as [es ok]. simpl in *.
    constructor; [done|].
    eapply Forall_impl; [apply Hall; intros x _; apply invoke_depth|].
    intros [c k l' hk d'|]; [|done]. simpl. lia.
Qed.

Lemma round_not_about (a : addr) (fuel : nat) (h : gmap addr Span)
    (c : addr) (hook : Hook) (d : SpanData) (ls : list Listener) :
  c ≠ a →
  Forall (not_about a) (forEach (invoke fuel h c 0 hook d) ls).1.
Proof.
  intros Hne. apply forEach_Forall. intros l _.
  eapply Forall_impl; [apply invoke_own|].
  intros [c' [|k] l' hk d'|]; simpl; auto. intros H. by rewrite H.
Qed.

Lemma update_times (f : Span → Span) (o : Span) :
  update f →
  started (base (f o)) = started (base o)
  ∧ ended (base (f o)) = ended (base o).
Proof. intros Hf. by destruct Hf, o. Qed.

Section Finished.

Variable clock : nat → Z.
Variable randomSpanId : nat → string.
Variable uuid_v4 : nat → string.
Variable stack : nat.
Variable a : addr.

Lemma unannounced_refl (w : World) : unannounced a w w.
Proof. exists []. by rewrite app_nil_r. Qed.

Lemma unannounced_trans (w1 w2 w3 : World) :
  unannounced a w1 w2 → unannounced a w2 w3 → unannounced a w1 w3.
Proof.
  intros (e1 & H1 & F1) (e2 & H2 & F2). exists (e1 ++ e2).
  split; [by rewrite H2, H1, app_assoc|]. by apply Forall_app.
Qed.

Lemma finished_same_trace {A} (m : M A) :
  (∀ w, heap (m w).2 = heap w ∧ trace (m w).2 = trace w) →
  keeps (finished a) (unannounced a) m.
Proof.
  intros H w (o & Ha & Hst & Hen). destruct (H w) as [Hh Ht]. split.
  - exists o. by rewrite Hh.
  - exists []. by rewrite Ht, app_nil_r.
Qed.

Lemma finished_log (c : addr) (lvl : Level) (msg : Message) :
  keeps (finished a) (unannounced a) (log c lvl msg).
Proof.
  intros w Hw. split; [exact Hw|].
  exists [Log c lvl msg]. split; [reflexivity|]. by repeat constructor.
Qed.

Lemma finished_insert (w : World) (c : addr) (o o' : Span)
    (evs : list Event) (n m : nat) :
  finished a w → heap w !! c = Some o →
  (c = a → started (base o') = true ∧ ended (base o') = true) →
  finished a (mkWorld (<[c := o']> (heap w)) evs n m).
Proof.
  intros (oa & Ha & Hst & Hen) Hc Ho'. unfold finished. simpl.
  destruct (decide (c = a)) as [->|Hne].
  - exists o'. rewrite lookup_insert_eq. destruct (Ho' eq_refl). auto.
  - exists oa. by rewrite lookup_insert_ne.
Qed.

Lemma finished_update (c : addr) (f : Span → Span) :
  (∀ o, started (base (f o)) = started (base o)
        ∧ ended (base (f o)) = ended (base o)) →
  keeps (finished a) (unannounced a) (modify c f).
Proof.
  intros Hf w Hw. unfold modify, bind, get, put.
  destruct (heap w !! c) as [o|] eqn:Hc; simpl;
    [|split; [exact Hw|apply unannounced_refl]].
  split; [|exists []; by rewrite app_nil_r].
  apply (finished_insert w c o); [exact Hw|exact Hc|].
  intros ->. destruct Hw as (oa & Ha & Hst & Hen).
  assert (oa = o) as -> by congruence. destruct (Hf o) as [-> ->]. auto.
Qed.

Lemma finished_new (o : Span) :
  keeps (finished a) (unannounced a) (alloc o).
Proof.
  intros w (oa & Ha & Hst & Hen). unfold alloc. simpl.
  split; [|exists []; by rewrite app_nil_r].
  exists oa. simpl. split; [|auto]. rewrite lookup_insert_ne; [exact Ha|].
  intros Heq. rewrite <- Heq, fresh_unallocated in Ha. discriminate.
Qed.

Lemma finished_BaseSpan_start (c : addr) :
  keeps (finished a) (unannounced a) (BaseSpan_start clock stack c).
Proof.
  intros w Hw. destruct (heap w !! c) as [o|] eqn:Hc.
  - rewrite (BaseSpan_start_eq clock stack c w o Hc).
    destruct (started (base o)) eqn:Hst.
    { apply (finished_log c WARN StartAlreadyStarted w Hw). }
    assert (c ≠ a) as Hne.
    { intros ->. destruct Hw as (oa & Ha & Hsa & _). congruence. }
    cbv zeta. cbn [snd]. split.
    + by apply (finished_insert w c o).
    + eexists. split; [reflexivity|]. by apply round_not_about.
  - unfold BaseSpan_start, bind, get. rewrite Hc. simpl.
    split; [exact Hw|apply unannounced_refl].
Qed.

Lemma finished_BaseSpan_end (c : addr) :
  keeps (finished a) (unannounced a) (BaseSpan_end clock stack c).
Proof.
  intros w Hw. destruct (heap w !! c) as [o|] eqn:Hc.
  - rewrite (BaseSpan_end_eq clock stack c w o Hc).
    destruct (ended (base o)) eqn:Hen.
    { apply (finished_log c WARN EndAlreadyEnded w Hw). }
    destruct (started (base o)) eqn:Hst; cbn [negb].
    2:{ apply (finished_log c WARN EndNotStarted w Hw). }
    assert (c ≠ a) as Hne.
    { intros ->. destruct Hw as (oa & Ha & _ & Hea). congruence. }
    cbv zeta.
    pose proof (round_not_about a stack
                  (<[c := with_base (with_data
                                       (set_endTime (clock (reads w)))) o]>
                     (heap w))
                  c OnEndSpan
                  (data (base (with_base
                                 (with_data (set_endTime (clock (reads w))))
                                 o)))
                  (listeners (base (with_base
                                      (with_data
                                         (set_endTime (clock (reads w))))
                                      o)))
                  Hne) as Hall.
    destruct (forEach _ _) as [evs ok]. destruct ok; cbn [fst snd] in *.
    + split; [|by exists evs].
      destruct Hw as (oa & Ha & Hsa & Hea). exists oa.
      simpl. by rewrite !lookup_insert_ne.
    + split; [|by exists evs].
      by apply (finished_insert w c o).
  - unfold BaseSpan_end, bind, get. rewrite Hc. simpl.
    split; [exact Hw|apply unannounced_refl].
Qed.

Lemma finished_startChildSpan (r : addr) (nm : string)
    (k : option SpanKind) :
  keeps (finished a) (unannounced a)
    (startChildSpan clock randomSpanId stack r nm k).
Proof.
  assert (∀ A B (m : M A) (f : A → M B),
            keeps (finished a) (unannounced a) m →
            (∀ x, keeps (finished a) (unannounced a) (f x)) →
            keeps (finished a) (unannounced a) (bind m f)) as Hbind.
  { intros A B. apply keeps_bind, unannounced_trans. }
  unfold startChildSpan.
  apply Hbind; [by apply finished_same_trace|]. intros [b kids|s];
    [|by apply finished_same_trace].
  destruct (ended b).
  { apply Hbind; [apply finished_log|]. intros _.
    by apply finished_same_trace. }
  destruct (negb (started b)).
  { apply Hbind; [apply finished_log|]. intros _.
    by apply finished_same_trace. }
  apply Hbind; [by apply finished_same_trace|]. intros rnd.
  apply Hbind; [apply finished_new|]. intros c.
  apply Hbind; [apply finished_update; intros o; by destruct o|]. intros _.
  apply Hbind; [apply finished_BaseSpan_start|]. intros _.
  apply Hbind; [apply finished_update; intros o; by destruct o|]. intros _.
  by apply finished_same_trace.
Qed.

(** X25. A span that has been started and ended announces nothing any
    more: whatever calls a program makes, also calls that register
    listeners on the span, the span never again runs a hook on a start or
    an end of its own. *)
Theorem finished_span_stays_silent (ops : list Op) (w : World) (o : Span) :
  heap w !! a = Some o →
  started (base o) = true → ended (base o) = true →
  ∃ evs,
    trace (run clock randomSpanId uuid_v4 stack ops w) = trace w ++ evs
    ∧ ∀ l hook d, (a, l, hook, d) ∉ hook_calls evs.
Proof.
  intros Ha Hst Hen.
  destruct (run_kept clock randomSpanId uuid_v4 stack
              (finished a) (unannounced a) (λ _, True)) with
    (ops := ops) (w := w) as [_ (evs & Htr & Hall)].
  - apply unannounced_refl.
  - apply unannounced_trans.
  - apply finished_log.
  - intros generator. by apply finished_same_trace.
  - intros c f Hf. apply finished_update. intros o'. by apply update_times.
  - intros o' _. apply finished_new.
  - apply finished_BaseSpan_start.
  - apply finished_BaseSpan_end.
  - apply finished_startChildSpan.
  - apply Forall_forall. intros [] _; simpl; auto.
  - by exists o.
  - exists evs. split; [exact Htr|]. intros l hook d Hin.
    unfold hook_calls in Hin. apply list_elem_of_In, in_flat_map in Hin
      as (e & He & Hin).
    rewrite Forall_forall in Hall. apply (proj2 (list_elem_of_In _ _)) in He.
    specialize (Hall e He).
    destruct e as [c [|k] l' hk d'|]; simpl in Hin; try done.
    destruct Hin as [[= -> _ _ _]|[]]. by apply Hall.
Qed.

End Finished.

Lemma finished_span_stays_silent_witness :
  ∃ evs,
    trace (run demo_clock demo_ids demo_ids 3
             (RegisterSpanEventListener 2 (External 9) :: demo_ops)
             demo_world_children) = trace demo_world_children ++ evs
    ∧ ∀ l hook d, (2%nat, l, hook, d) ∉ hook_calls evs.
Proof.
  apply (finished_span_stays_silent demo_clock demo_ids demo_ids 3 2
           (RegisterSpanEventListener 2 (External 9) :: demo_ops)
           demo_world_children (ChildSpan demo_child_ended));
    reflexivity.
Defined.

(** * A span from its start to its end *)

Section RoundTrip.

Variable clock : nat → Z.
Variable randomSpanId : nat → string.
Variable uuid_v4 : nat → string.
Variable stack : nat.

(** X26. [start()] and then [end()] on a span that is neither started nor
    ended and has no children, when the clock does not read
    [UNINITIALIZED_DATE] at the start and the hooks of the listeners
    return: every listener gets [onStartSpan] once, with the record that
    has the start time and no end time, and then [onEndSpan] once, with the
    same record and the end time, each time in the order of registration;
    the span is left with that last record and without listeners, and the
    clock has been read twice. *)
Theorem start_then_end (a : addr) (w : World) (o : Span) :
  heap w !! a = Some o →
  childless o →
  started (base o) = false → ended (base o) = false →
  clock (reads w) ≠ UNINITIALIZED_DATE →
  forallb (relays_ok stack (heap w)) (listeners (base o)) = true →
  let d0 := set_startTime (clock (reads w)) (data (base o)) in
  let d1 := set_endTime (clock (S (reads w))) d0 in
  let w' := run clock randomSpanId uuid_v4 stack [Start a; End a] w in
  (∃ evs,
     trace w' = trace w ++ evs
     ∧ hook_calls evs =
       map (λ l, (a, l, OnStartSpan, d0)) (listeners (base o))
       ++ map (λ l, (a, l, OnEndSpan, d1)) (listeners (base o)))
  ∧ (∃ o', heap w' !! a = Some o'
           ∧ data (base o') = d1 ∧ listeners (base o') = [])
  ∧ reads w' = S (S (reads w)).
Proof.
  intros Ha Hkids Hst Hen Hclock Hls d0 d1 w'.
  set (o1 := with_base (with_data (set_startTime (clock (reads w)))) o).
  set (h1 := <[a := o1]> (heap w)).
  assert (listeners (base o1) = listeners (base o)) as Hl1
    by (by destruct o).
  assert (data (base o1) = d0) as Hd1 by (by destruct o).
  assert (forallb (relays_ok stack h1) (listeners (base o)) = true) as Hls1.
  { rewrite <- Hls. apply forallb_pointwise. intros l.
    apply relays_ok_ext, (relay_view_with_data _ _ _ _ Ha). }
  destruct (round_hook_calls stack h1 a OnStartSpan d0 _ Hls1)
    as [Hok1 Hcalls1].
  pose proof (BaseSpan_start_eq clock stack a w o Ha) as E1.
  rewrite Hst in E1. cbv zeta in E1. fold o1 h1 in E1.
  rewrite Hl1, Hd1, Hok1 in E1.
  set (e1 := (forEach (invoke stack h1 a 0 OnStartSpan d0)
                (listeners (base o))).1) in *.
  set (w1 := mkWorld h1 (trace w ++ e1) (S (reads w)) (draws w)) in *.
  assert (heap w1 !! a = Some o1) as Ha1 by apply lookup_insert_eq.
  assert (started (base o1) = true) as Hst1.
  { unfold started. rewrite Hd1. simpl. apply negb_true_iff.
    by apply Z.eqb_neq. }
  assert (ended (base o1) = false) as Hen1 by (by destruct o).
  set (o2 := with_base (with_data (set_endTime (clock (S (reads w))))) o1).
  set (h2 := <[a := o2]> h1).
  assert (listeners (base o2) = listeners (base o)) as Hl2
    by (by destruct o).
  assert (data (base o2) = d1) as Hd2 by (by destruct o).
  assert (forallb (relays_ok stack h2) (listeners (base o)) = true) as Hls2.
  { rewrite <- Hls1. apply forallb_pointwise. intros l.
    apply relays_ok_ext, (relay_view_with_data _ _ _ _ Ha1). }
  destruct (round_hook_calls stack h2 a OnEndSpan d1 _ Hls2)
    as [Hok2 Hcalls2].
  pose proof (BaseSpan_end_eq clock stack a w1 o1 Ha1) as E2.
  rewrite Hen1, Hst1 in E2. cbv zeta in E2. cbn [negb] in E2.
  change (reads w1) with (S (reads w)) in E2.
  change (heap w1) with h1 in E2. fold o2 h2 in E2.
  rewrite Hl2, Hd2, Hok2 in E2.
  assert (end_ clock stack a w1 = BaseSpan_end clock stack a w1) as Hdisp.
  { rewrite (end__dispatch clock stack a w1 o1 Ha1).
    destruct o as [b kids|s]; [|reflexivity]. simpl in Hkids. subst kids.
    by rewrite (RootSpan_end_loop clock stack a w1 _ [] Ha1). }
  assert (w' = (BaseSpan_end clock stack a w1).2) as ->.
  { subst w'. unfold run. cbn [fold_left exec]. rewrite E1. cbn [snd].
    by rewrite Hdisp. }
  rewrite E2. cbn [snd trace heap reads].
  split; [|split; [|reflexivity]].
  - eexists. split; [subst w1; cbn [trace]; by rewrite <- app_assoc|].
    by rewrite hook_calls_app, Hcalls1, Hcalls2.
  - eexists. split; [apply lookup_insert_eq|]. by destruct o.
Qed.

End RoundTrip.

Lemma start_then_end_witness :
  let d0 := set_startTime 1000 (data demo_root_unstarted) in
  let d1 := set_endTime 1001 d0 in
  let w' :=
    run demo_clock demo_ids demo_ids 3 [Start 0; End 0]
      demo_world_unstarted in
  (∃ evs,
     trace w' = trace demo_world_unstarted ++ evs
     ∧ hook_calls evs =
       [(0%nat, External 7, OnStartSpan, d0);
        (0%nat, External 7, OnEndSpan, d1)])
  ∧ (∃ o', heap w' !! 0%nat = Some o'
           ∧ data (base o') = d1 ∧ listeners (base o') = [])
  ∧ reads w' = 2%nat.
Proof.
  apply (start_then_end demo_clock demo_ids demo_ids 3 0
           demo_world_unstarted (RootSpan demo_root_unstarted []));
    try reflexivity.
  apply demo_clock_set.
Defined.

(** * A child span whose start throws *)

Section Orphans.

Variable clock : nat → Z.
Variable randomSpanId : nat → string.
Variable stack : nat.

(** X27. [startChildSpan] on an open root span returns the new child
    exactly when the hooks that the root span forwards to return, and
    throws otherwise. In both cases the child has been constructed and
    started; when the call throws, the child has not been put on the list
    of the root span, so that the end of the root span will not end it. *)
Theorem startChildSpan_returns_iff (r : addr) (w : World) (b : BaseSpan)
    (kids : list addr) (nm : string) (k : option SpanKind) :
  heap w !! r = Some (RootSpan b kids) →
  ended b = false → started b = true →
  let c := fresh (dom (heap w)) in
  let s := started_child clock randomSpanId r b nm k w in
  let res := startChildSpan clock randomSpanId stack r nm k w in
  heap res.2 !! c = Some (ChildSpan s)
  ∧ if relays_ok stack (heap w) (Relay r)
    then res.1 = Some (Some c)
         ∧ heap res.2 !! r = Some (RootSpan b (kids ++ [c]))
    else res.1 = None ∧ heap res.2 !! r = Some (RootSpan b kids).
Proof.
  intros Hr Hen Hst c s res.
  assert (c ≠ r) as Hne.
  { intros Heq. pose proof (fresh_unallocated (heap w)) as Hf.
    fold c in Hf. rewrite Heq in Hf. congruence. }
  subst res.
  rewrite (startChildSpan_eq clock randomSpanId stack r w b kids nm k Hr).
  rewrite Hen, Hst. cbv zeta. cbn [negb]. fold c s.
  assert ((forEach (invoke stack (<[c := ChildSpan s]> (heap w)) c 0
                      OnStartSpan (data s)) [Relay r]).2
          = relays_ok stack (heap w) (Relay r)) as Hflag.
  { rewrite forEach_flag. cbn [forallb]. rewrite andb_true_r, invoke_flag.
    apply relays_ok_ext, relay_view_alloc_child, fresh_unallocated. }
  destruct (forEach _ _) as [evs ok]. cbn [fst snd] in *. rewrite <- Hflag.
  destruct ok; cbn [fst snd heap].
  - split; [by rewrite lookup_insert_ne, lookup_insert_eq|].
    split; [reflexivity|]. apply lookup_insert_eq.
  - split; [apply lookup_insert_eq|]. split; [reflexivity|].
    by rewrite lookup_insert_ne.
Qed.

End Orphans.

Lemma startChildSpan_returns_iff_witness :
  let w :=
    mkWorld {[0%nat := RootSpan (registerSpanEventListener (Relay 0)
                                   demo_root_started) []]} [] 0 2 in
  let res := startChildSpan demo_clock demo_ids 3 0 "child" None w in
  res.1 = None
  ∧ ∃ s, heap res.2 !! 1%nat = Some (ChildSpan s) ∧ started s = true.
Proof.
  destruct (startChildSpan_returns_iff demo_clock demo_ids 3 0
              (mkWorld {[0%nat := RootSpan (registerSpanEventListener
                                              (Relay 0) demo_root_started)
                                    []]} [] 0 2)
              (registerSpanEventListener (Relay 0) demo_root_started) []
              "child" None) as (Hc & Hres & _); try reflexivity.
  split; [exact Hres|]. eexists. split; [exact Hc|reflexivity].
Defined.

(** * A root span and its children at the Stackdriver exporter *)

Lemma Stackdriver_translateSpans_single (projectId t : string)
    (spans : list SpanData) :
  spans ≠ [] →
  (∀ d, d ∈ spans → traceId d = t) →
  Stackdriver_translateSpans projectId spans =
  [Stackdriver.mkTrace projectId t (map Stackdriver_translateSpan spans)].
Proof.
  intros Hne Hall.
  assert (Stackdriver_traceIds spans = [t]) as Hids.
  { destruct (Stackdriver_traceIds_spec spans) as [Hnd Hin].
    destruct spans as [|d0 spans]; [done|].
    assert (∀ x, x ∈ Stackdriver_traceIds (d0 :: spans) ↔ x = t) as Hx.
    { intros x. rewrite Hin. split.
      - intros (s & Hs & <-). by apply Hall.
      - intros ->. exists d0. split; [apply elem_of_cons; auto|].
        apply Hall, elem_of_cons. auto. }
    destruct (Stackdriver_traceIds (d0 :: spans)) as [|x [|y l]].
    - exfalso. assert (t ∈ @nil string) as H by by apply Hx.
      by apply elem_of_nil in H.
    - f_equal. apply Hx, elem_of_cons. auto.
    - exfalso. apply NoDup_cons in Hnd as [Hxy _]. apply Hxy.
      assert (x = t) as -> by (apply Hx, elem_of_cons; auto).
      assert (y = t) as ->
        by (apply Hx, elem_of_cons; right; apply elem_of_cons; auto).
      apply elem_of_cons. auto. }
  unfold Stackdriver_translateSpans. rewrite Hids. simpl. do 3 f_equal.
  clear Hids Hne. induction spans as [|d spans IH]; [reflexivity|]. simpl.
  rewrite (Hall d) by (apply elem_of_cons; auto). rewrite String.eqb_refl.
  f_equal. apply IH. intros d' Hd'. apply Hall, elem_of_cons. auto.
Qed.

(** X28. The Stackdriver exporter puts a root span and its children into
    one trace: in every world that a program reaches from the empty world,
    [translateSpans] of records that all belong to one root span or to the
    children on its list returns a single trace, which has the trace id of
    the root span and holds the translations of all the records in their
    order. *)
Theorem Stackdriver_one_trace_per_root (clock : nat → Z)
    (randomSpanId uuid_v4 : nat → string) (stack : nat) (ops : list Op)
    (projectId : string) (r : addr) (b : BaseSpan) (kids : list addr)
    (spans : list SpanData) :
  heap (run clock randomSpanId uuid_v4 stack ops empty_world) !! r
  = Some (RootSpan b kids) →
  spans ≠ [] →
  (∀ d, d ∈ spans →
        of_family (heap (run clock randomSpanId uuid_v4 stack ops
                           empty_world)) r d) →
  Stackdriver_translateSpans projectId spans =
  [Stackdriver.mkTrace projectId (traceId (data b))
     (map Stackdriver_translateSpan spans)].
Proof.
  intros Hr Hne Hall.
  apply Stackdriver_translateSpans_single; [exact Hne|].
  intros d Hd. destruct (Hall d Hd) as (b' & kids' & Hr' & Hcase).
  assert (b' = b ∧ kids' = kids) as [-> ->].
  { rewrite Hr in Hr'. by injection Hr' as <- <-. }
  destruct Hcase as [->|(c & s & Hc & Hs & ->)]; [reflexivity|].
  destruct (run_kin clock randomSpanId uuid_v4 stack ops r b kids c Hr Hc)
    as (s' & Hs' & Ht & _).
  rewrite Hs in Hs'. by injection Hs' as <-.
Qed.

Lemma Stackdriver_one_trace_per_root_witness :
  ∃ s,
    heap (demo_run demo_program) !! 1%nat = Some (ChildSpan s)
    ∧ Stackdriver_translateSpans "project"
        [data s; data demo_program_root] =
      [Stackdriver.mkTrace "project" "00f067aa0ba902b7"
         [Stackdriver_translateSpan (data s);
          Stackdriver_translateSpan (data demo_program_root)]].
Proof.
  eexists. split; [vm_compute; reflexivity|].
  apply (Stackdriver_one_trace_per_root demo_clock demo_ids demo_ids 3
           demo_program "project" 0 demo_program_root [1%nat]).
  - vm_compute. reflexivity.
  - discriminate.
  - intros d Hd. exists demo_program_root, [1%nat].
    split; [vm_compute; reflexivity|].
    apply elem_of_cons in Hd as [->|Hd].
    + right. eexists 1%nat, _.
      split; [apply list_elem_of_singleton; reflexivity|].
      split; [vm_compute; reflexivity|reflexivity].
    + apply list_elem_of_singleton in Hd as ->. left. reflexivity.
Defined.
